(** * dblock.c: database-wide reader/writer lock of the wgandalf memory database

    A shallow embedding of [Db/dblock.c].  The file builds one of two
    algorithms, selected by the preprocessor symbol [QUEUED_LOCKS]:

    - module [Simple]: the reader-preference lock on one global sync word;
    - module [Queued]: the locally spinning queued lock with its cell pool.

    Every access to the shared segment is one atomic action of a small
    program syntax ([prog]); [step] performs one action, [run] iterates
    [step] for a lone caller, and [fire] interleaves several callers. *)

From Stdlib Require Import ZArith Bool List Lia Permutation.
Import ListNotations.
Local Open Scope Z_scope.

Set Implicit Arguments.

(** ** Machine integers

    [gint] is a 32-bit signed integer: the [ASM32] paths of the file operate
    on [gint] objects with [movl], [cmpl], [andl] and [cmpxchgl].  The atomic
    builtins wrap around in two's complement. *)

Definition gint := Z.

Definition gint_bits : Z := 32.
Definition gint_min : Z := - 2 ^ (gint_bits - 1).
Definition gint_max : Z := 2 ^ (gint_bits - 1) - 1.

Definition gint_wrap (z : Z) : gint :=
  (z - gint_min) mod 2 ^ gint_bits + gint_min.

Definition in_gint (z : Z) : Prop := gint_min <= z <= gint_max.

(** C truth value of a [gint]. *)
Definition truthy (v : gint) : bool := negb (v =? 0).

(** ** Programs over a shared state

    [Act f k] performs the atomic action [f] on the shared state and goes on
    with [k]; [Loop body x k] runs [body] from the loop state [x] until it
    answers [inr y], then goes on with [k y]. *)

Section Prog.

Variable Sh : Type.

Inductive prog : Type -> Type :=
| Ret  : forall A : Type, A -> prog A
| Act  : forall A X : Type, (Sh -> Sh * X) -> (X -> prog A) -> prog A
| Loop : forall A X Y : Type,
    (X -> prog (X + Y)) -> X -> (Y -> prog A) -> prog A.

Fixpoint bind (A B : Type) (p : prog A) : (A -> prog B) -> prog B :=
  match p in prog T return (T -> prog B) -> prog B with
  | Ret a => fun g => g a
  | Act f k => fun g => Act f (fun x => bind (k x) g)
  | Loop body x k => fun g => Loop body x (fun y => bind (k y) g)
  end.

(** What a loop does with the answer of its body. *)
Definition loop_next (A X Y : Type) (body : X -> prog (X + Y))
    (k : Y -> prog A) (r : X + Y) : prog A :=
  match r with
  | inl x' => Loop body x' k
  | inr y => k y
  end.

(** One step of a program: one atomic action, or the entry of one loop
    iteration (which touches no shared state). *)
Definition step (A : Type) (p : prog A) (s : Sh) : Sh * prog A :=
  match p in prog T return Sh * prog T with
  | Ret a => (s, Ret a)
  | Act f k => let (s', x) := f s in (s', k x)
  | Loop body x k => (s, bind (body x) (loop_next body k))
  end.

Definition result (A : Type) (p : prog A) : option A :=
  match p with
  | Ret a => Some a
  | _ => None
  end.

(** A lone caller: iterate [step] until the program has returned. *)
Fixpoint run (fuel : nat) (A : Type) (p : prog A) (s : Sh) : option (Sh * A) :=
  match result p with
  | Some a => Some (s, a)
  | None =>
      match fuel with
      | O => None
      | S n => let (s', p') := step p s in run n p' s'
      end
  end.

(** The state and the rest of the program after [n] steps. *)
Fixpoint steps (n : nat) (A : Type) (p : prog A) (s : Sh) : Sh * prog A :=
  match n with
  | O => (s, p)
  | S n' => let (s', p') := step p s in steps n' p' s'
  end.

(** [returns_in n p s s' a]: run alone from [s], [p] returns [a] in state
    [s'] within [n] steps (whatever the fuel from [n] on). *)
Definition returns_in (n : nat) (A : Type) (p : prog A) (s s' : Sh) (a : A) : Prop :=
  forall fuel, (n <= fuel)%nat -> run fuel p s = Some (s', a).

Definition returns (A : Type) (p : prog A) (s s' : Sh) (a : A) : Prop :=
  exists n, returns_in n p s s' a.

(** Programs that differ only in how their continuations are written. *)
Inductive peq : forall A : Type, prog A -> prog A -> Prop :=
| peq_Ret : forall (A : Type) (a : A), peq (Ret a) (Ret a)
| peq_Act : forall (A X : Type) (f : Sh -> Sh * X) (k k' : X -> prog A),
    (forall x, peq (k x) (k' x)) -> peq (Act f k) (Act f k')
| peq_Loop : forall (A X Y : Type) (body : X -> prog (X + Y)) (x : X)
    (k k' : Y -> prog A),
    (forall y, peq (k y) (k' y)) -> peq (Loop body x k) (Loop body x k').

(** A program none of whose actions changes the shared state. *)
Inductive quiet : forall A : Type, prog A -> Prop :=
| quiet_Ret : forall (A : Type) (a : A), quiet (Ret a)
| quiet_Act : forall (A X : Type) (f : Sh -> Sh * X) (k : X -> prog A),
    (forall s, fst (f s) = s) -> (forall x, quiet (k x)) -> quiet (Act f k)
| quiet_Loop : forall (A X Y : Type) (body : X -> prog (X + Y)) (x : X)
    (k : Y -> prog A),
    (forall x', quiet (body x')) -> (forall y, quiet (k y)) ->
    quiet (Loop body x k).

(** The last action of the current loop iteration, as the state before and
    after it; it is settled when it changed nothing. *)
Definition settled (o : option (Sh * Sh)) : Prop :=
  match o with
  | Some (s, s') => s' = s
  | None => True
  end.

(** [safe p Q o]: an action of [p] that changes the state is the last one
    before [p] returns, and [p] returns [a] only when [Q a o'] holds of its
    last action [o']. *)
Fixpoint safe (A : Type) (p : prog A)
    : (A -> option (Sh * Sh) -> Prop) -> option (Sh * Sh) -> Prop :=
  match p in prog T return (T -> option (Sh * Sh) -> Prop) -> option (Sh * Sh) -> Prop with
  | Ret a => fun Q o => Q a o
  | Act f k => fun Q o =>
      settled o /\ forall s, safe (k (snd (f s))) Q (Some (s, fst (f s)))
  | Loop body x k => fun Q o =>
      settled o /\
      forall x', safe (body x')
                   (fun r o' => match r with
                                | inl _ => settled o'
                                | inr y => safe (k y) Q o'
                                end) None
  end.

(** A lone caller that never returns; one whose state is [s1] from its
    [n]-th step on; one that does both. *)
Definition never_returns (A : Type) (p : prog A) (s : Sh) : Prop :=
  forall fuel, run fuel p s = None.

Definition rests_at (n : nat) (A : Type) (p : prog A) (s s1 : Sh) : Prop :=
  forall m, (n <= m)%nat -> fst (steps m p s) = s1.

Definition waits_at (n : nat) (A : Type) (p : prog A) (s s1 : Sh) : Prop :=
  forall m, (n <= m)%nat ->
    fst (steps m p s) = s1 /\ result (snd (steps m p s)) = None.

(** [frozen p s Q]: run alone from [s], [p] never changes [s], and it
    returns [a] only when [Q a]. *)
Fixpoint frozen (A : Type) (p : prog A) (s : Sh) : (A -> Prop) -> Prop :=
  match p in prog T return (T -> Prop) -> Prop with
  | Ret a => fun Q => Q a
  | Act f k => fun Q => fst (f s) = s /\ frozen (k (snd (f s))) s Q
  | Loop body x k => fun Q =>
      forall x', frozen (body x') s
                   (fun r => match r with
                             | inl _ => True
                             | inr y => frozen (k y) s Q
                             end)
  end.

(** [keeps I R p]: on states that satisfy [I], every action of [p] takes
    the state to one related to it by [R]. *)
Fixpoint keeps (I : Sh -> Prop) (R : Sh -> Sh -> Prop) (A : Type) (p : prog A) : Prop :=
  match p with
  | Ret _ => True
  | Act f k => forall s, I s -> R s (fst (f s)) /\ keeps I R (k (snd (f s)))
  | Loop body x k =>
      (forall x', keeps I R (body x')) /\ (forall y, keeps I R (k y))
  end.

(** A caller among others: it takes its steps at the states [envs], each
    of them the shared state as the other callers have left it.  [trace]
    gives the state before and after each of its steps, and the rest of
    the program. *)
Fixpoint trace (A : Type) (p : prog A) (envs : list Sh) : list (Sh * Sh) * prog A :=
  match envs with
  | nil => (nil, p)
  | e :: es =>
      let (e', p') := step p e in
      let (t, q) := trace p' es in ((e, e') :: t, q)
  end.

(** A step that left the state as it found it. *)
Definition unchanged (x : Sh * Sh) : Prop := snd x = fst x.

End Prog.

Arguments Ret {Sh A} _.
Arguments Act {Sh A X} _ _.
Arguments Loop {Sh A X Y} _ _ _.

Declare Scope prog_scope.
Delimit Scope prog_scope with prog.
Notation "x <- p ;; q" := (bind p (fun x => q))
  (at level 61, p at next level, right associativity) : prog_scope.
Notation "p ;; q" := (bind p (fun _ => q))
  (at level 61, right associativity) : prog_scope.
Open Scope prog_scope.

(** A loop as a program of its own. *)
Definition loop {Sh X Y : Type} (body : X -> prog Sh (X + Y)) (x : X) : prog Sh Y :=
  Loop body x Ret.

(** ** The atomic helpers (dblock.c, lines 111-196)

    Pointers into the segment are locations [L] of a memory [Sh]. *)

Class Mem (Sh L : Type) : Type := {
  load : L -> Sh -> gint;
  store : L -> gint -> Sh -> Sh
}.

Section Atomics.

Context {Sh L : Type} {M : Mem Sh L}.

(** A plain read or write of a word of the segment. *)
Definition read (ptr : L) : prog Sh gint :=
  Act (fun s => (s, load ptr s)) Ret.

Definition write (ptr : L) (val : gint) : prog Sh unit :=
  Act (fun s => (store ptr val s, tt)) Ret.

Definition atomic_increment (ptr : L) (incr : gint) : prog Sh unit :=
  Act (fun s => (store ptr (gint_wrap (load ptr s + incr)) s, tt)) Ret.

Definition atomic_and (ptr : L) (val : gint) : prog Sh unit :=
  Act (fun s => (store ptr (Z.land (load ptr s) val) s, tt)) Ret.

Definition atomic_or (ptr : L) (val : gint) : prog Sh unit :=
  Act (fun s => (store ptr (Z.lor (load ptr s) val) s, tt)) Ret.

(** Returns the value before the modification. *)
Definition fetch_and_add (ptr : L) (incr : gint) : prog Sh gint :=
  Act (fun s => (store ptr (gint_wrap (load ptr s + incr)) s, load ptr s)) Ret.

Definition fetch_and_store (ptr : L) (val : gint) : prog Sh gint :=
  Act (fun s => (store ptr val s, load ptr s)) Ret.

(** If the value at [ptr] equals [old], set it to [new] and return 1;
    otherwise return 0. *)
Definition compare_and_swap (ptr : L) (old new : gint) : prog Sh gint :=
  Act (fun s => if load ptr s =? old then (store ptr new s, 1) else (s, 0)) Ret.

(** [nanosleep(&ts, NULL)]: the caller is descheduled; the segment is not
    touched. *)
Definition nanosleep (ts : Z) : prog Sh unit :=
  Act (fun s => (s, tt)) Ret.

End Atomics.

(** ** Callers of the lock

    A caller is idle, inside an acquire call, between the return of an
    acquire and the call of the paired release (holding the token), or
    inside a release call.  [dblock.h] exports the four operations. *)

Inductive lock_kind : Type := Reader | Writer.

Record lock_ops (Sh : Type) : Type := {
  start_read : prog Sh gint;
  end_read : gint -> prog Sh gint;
  start_write : prog Sh gint;
  end_write : gint -> prog Sh gint
}.

Inductive status (Sh : Type) : Type :=
| Idle
| Acquiring (k : lock_kind) (p : prog Sh gint)
| Holding (k : lock_kind) (token : gint)
| Releasing (k : lock_kind) (p : prog Sh gint).

Arguments Idle {Sh}.
Arguments Holding {Sh} _ _.

Inductive event : Type :=
| Call_start (t : nat) (k : lock_kind)
| Call_end (t : nat)
| Run (t : nat).

Section Callers.

Variable Sh : Type.
Variable ops : lock_ops Sh.

Definition acquire_of (k : lock_kind) : prog Sh gint :=
  match k with
  | Reader => start_read ops
  | Writer => start_write ops
  end.

Definition release_of (k : lock_kind) (token : gint) : prog Sh gint :=
  match k with
  | Reader => end_read ops token
  | Writer => end_write ops token
  end.

(** An acquire that has returned 0 failed: the caller holds nothing. *)
Definition settle_acquire (k : lock_kind) (p : prog Sh gint) : status Sh :=
  match result p with
  | Some v => if v =? 0 then Idle else Holding k v
  | None => Acquiring k p
  end.

Definition settle_release (k : lock_kind) (p : prog Sh gint) : status Sh :=
  match result p with
  | Some _ => Idle
  | None => Releasing k p
  end.

Definition set_status (t : nat) (st : status Sh) (pool : list (status Sh))
    : list (status Sh) :=
  firstn t pool ++ st :: skipn (S t) pool.

(** One event of an interleaved execution.  An event that is not enabled
    (no such caller, or a call the caller's status does not allow) changes
    nothing. *)
Definition fire (e : event) (c : Sh * list (status Sh)) : Sh * list (status Sh) :=
  let (s, pool) := c in
  match e with
  | Call_start t k =>
      match nth_error pool t with
      | Some Idle => (s, set_status t (settle_acquire k (acquire_of k)) pool)
      | _ => c
      end
  | Call_end t =>
      match nth_error pool t with
      | Some (Holding k token) =>
          (s, set_status t (settle_release k (release_of k token)) pool)
      | _ => c
      end
  | Run t =>
      match nth_error pool t with
      | Some (Acquiring k p) =>
          let (s', p') := step p s in (s', set_status t (settle_acquire k p') pool)
      | Some (Releasing k p) =>
          let (s', p') := step p s in (s', set_status t (settle_release k p') pool)
      | _ => c
      end
  end.

Definition execute (sched : list event) (c : Sh * list (status Sh))
    : Sh * list (status Sh) :=
  fold_left (fun c e => fire e c) sched c.

Definition holds (k : lock_kind) (st : status Sh) : bool :=
  match st with
  | Holding Reader _ => match k with Reader => true | Writer => false end
  | Holding Writer _ => match k with Reader => false | Writer => true end
  | _ => false
  end.

Definition count_holding (k : lock_kind) (pool : list (status Sh)) : nat :=
  length (filter (holds k) pool).

(** At most one caller is in a write critical section, and none is while a
    caller is in a read critical section. *)
Definition mutual_exclusion (pool : list (status Sh)) : Prop :=
  (count_holding Writer pool <= 1)%nat /\
  ((0 < count_holding Reader pool)%nat -> count_holding Writer pool = 0%nat).

(** The callers whose calls in progress keep [R] on states in [I]. *)
Definition status_keeps (I : Sh -> Prop) (R : Sh -> Sh -> Prop) (st : status Sh) : Prop :=
  match st with
  | Acquiring _ p => keeps I R p
  | Releasing _ p => keeps I R p
  | _ => True
  end.

End Callers.

(** ** The simple reader-preference lock ([QUEUED_LOCKS] not defined) *)

Module Simple.

Definition WAFLAG : gint := 1.   (* writer active flag *)
Definition RC_INCR : gint := 2.  (* increment step for reader count *)
Definition SPIN_COUNT : Z := 500.
Definition SLEEP_NSEC : Z := 500000.

(** The segment: the header field [locks.global_lock] holds the offset of
    the sync word; [word s p] is the word at offset [p]. *)
Record segment : Type := {
  global_lock : gint;
  word : gint -> gint
}.

#[export] Instance segment_mem : Mem segment gint := {|
  load p s := word s p;
  store p v s :=
    {| global_lock := global_lock s;
       word := fun q => if q =? p then v else word s q |}
|}.

Definition sync_word (s : segment) : gint := load (global_lock s) s.

(** The pointer [gl]: [offsettoptr] of the header field [locks.global_lock]. *)
Definition read_global_lock : prog segment gint :=
  Act (fun s => (s, global_lock s)) Ret.

Section Ops.

(** [dbcheck] is a macro of [dballoc.h]; it is taken as a predicate on the
    handle the caller passes. *)
Variable handle : Type.
Variable dbcheck : handle -> bool.

Definition wg_start_write (db : handle) : prog segment gint :=
  if negb (dbcheck db) then Ret 0 else
  gl <- read_global_lock ;;
  (* First attempt at getting the lock without spinning *)
  c <- compare_and_swap gl 0 WAFLAG ;;
  if truthy c then Ret 1 else
  (* Spin loop *)
  loop (fun ts : Z =>
    r <- loop (fun i : Z =>
           if i <? SPIN_COUNT then
             v <- read gl ;;
             if v =? 0 then
               c <- compare_and_swap gl 0 WAFLAG ;;
               if truthy c then Ret (inr (Some 1)) else Ret (inl (i + 1))
             else Ret (inl (i + 1))
           else Ret (inr None)) 0 ;;
    match r with
    | Some v => Ret (inr v)
    | None =>
        (* Give up the CPU so the lock holder(s) can continue *)
        nanosleep ts ;; Ret (inl (ts + SLEEP_NSEC))
    end) SLEEP_NSEC.

Definition wg_end_write (db : handle) (lock : gint) : prog segment gint :=
  if negb (dbcheck db) then Ret 0 else
  gl <- read_global_lock ;;
  (* Clear the writer active flag *)
  atomic_and gl (Z.lnot WAFLAG) ;;
  Ret 1.

Definition wg_start_read (db : handle) : prog segment gint :=
  if negb (dbcheck db) then Ret 0 else
  gl <- read_global_lock ;;
  (* Increment reader count atomically *)
  fetch_and_add gl RC_INCR ;;
  (* Try getting the lock without pause *)
  v <- read gl ;;
  if Z.land v WAFLAG =? 0 then Ret 1 else
  (* Spin loop *)
  loop (fun ts : Z =>
    r <- loop (fun i : Z =>
           if i <? SPIN_COUNT then
             v <- read gl ;;
             if Z.land v WAFLAG =? 0 then Ret (inr (Some 1)) else Ret (inl (i + 1))
           else Ret (inr None)) 0 ;;
    match r with
    | Some v => Ret (inr v)
    | None => nanosleep ts ;; Ret (inl (ts + SLEEP_NSEC))
    end) SLEEP_NSEC.

Definition wg_end_read (db : handle) (lock : gint) : prog segment gint :=
  if negb (dbcheck db) then Ret 0 else
  gl <- read_global_lock ;;
  (* Decrement reader count *)
  fetch_and_add gl (- RC_INCR) ;;
  Ret 1.

Definition ops (db : handle) : lock_ops segment := {|
  start_read := wg_start_read db;
  end_read := wg_end_read db;
  start_write := wg_start_write db;
  end_write := wg_end_write db
|}.

End Ops.

(** *** Where a caller is in an operation

    The simple lock keeps everything in one word: bit 0 is the writer flag
    and every reader that has done its fetch-and-add counts for [RC_INCR]. *)

Definition total (cs : list Z) : Z := fold_right Z.add 0 cs.
Definition ones (cs : list Z) : nat := count_occ Z.eq_dec cs 1.

Section Phases.

Variable handle : Type.
Variable dbcheck : handle -> bool.
Variable db : handle.
Variable g : gint.

(** The rest of each operation after its read of the header offset, taken
    on a segment whose sync word is at [g]. *)
Definition probe : segment := {| global_lock := g; word := fun _ => 0 |}.

Definition rd_inc : prog segment gint := snd (step (wg_start_read dbcheck db) probe).
Definition rd_chk : prog segment gint := snd (step rd_inc probe).
Definition wr_try : prog segment gint := snd (step (wg_start_write dbcheck db) probe).
Definition rel_rd (t : gint) : prog segment gint :=
  snd (step (wg_end_read dbcheck db t) probe).
Definition rel_wr (t : gint) : prog segment gint :=
  snd (step (wg_end_write dbcheck db t) probe).

(** A waiting reader returns a nonzero token, and only from a look at a
    sync word whose writer flag is clear; a waiting writer returns a nonzero
    token from the compare-and-swap that takes the sync word from 0 to
    [WAFLAG], and changes nothing otherwise. *)
Definition reader_enters (v : gint) (o : option (segment * segment)) : Prop :=
  v <> 0 /\ exists s, o = Some (s, s) /\ Z.land (load g s) WAFLAG = 0.

Definition writer_enters (v : gint) (o : option (segment * segment)) : Prop :=
  v <> 0 /\ exists s, o = Some (s, store g WAFLAG s) /\ load g s = 0.

(** The status of a caller and what it contributes to the sync word. *)
Inductive phase : status segment -> Z -> Prop :=
| ph_idle : phase Idle 0
| ph_rd_call : phase (Acquiring Reader (wg_start_read dbcheck db)) 0
| ph_rd_inc : phase (Acquiring Reader rd_inc) 0
| ph_rd_spin : forall p o,
    result p = None -> safe p reader_enters o -> phase (Acquiring Reader p) 2
| ph_rd_hold : forall t, phase (Holding Reader t) 2
| ph_rd_end : forall t, phase (Releasing Reader (wg_end_read dbcheck db t)) 2
| ph_rd_dec : forall t, phase (Releasing Reader (rel_rd t)) 2
| ph_wr_call : phase (Acquiring Writer (wg_start_write dbcheck db)) 0
| ph_wr_spin : forall p o,
    result p = None -> safe p writer_enters o -> phase (Acquiring Writer p) 0
| ph_wr_hold : forall t, phase (Holding Writer t) 1
| ph_wr_end : forall t, phase (Releasing Writer (wg_end_write dbcheck db t)) 1
| ph_wr_clr : forall t, phase (Releasing Writer (rel_wr t)) 1.

(** The sync word is the sum of the callers' contributions; at most one
    caller has the writer flag, and none has it while a reader holds. *)
Definition inv (c : segment * list (status segment)) : Prop :=
  global_lock (fst c) = g /\
  exists cs,
    Forall2 phase (snd c) cs /\ load g (fst c) = total cs /\
    (ones cs <= 1)%nat /\
    ((0 < count_holding Reader (snd c))%nat -> ones cs = 0%nat).

End Phases.

(** What the simple lock may do to a segment whose sync word is at [g]. *)
Definition only_sync_word (g : gint) (s s' : segment) : Prop :=
  global_lock s' = global_lock s /\ forall p, p <> g -> load p s' = load p s.

(** The two loops of the simple [wg_start_read], on the sync word at [gl]. *)
Definition rd_spin_inner (gl : gint) (i : Z) : prog segment (Z + option gint) :=
  if i <? SPIN_COUNT then
    v <- read gl ;;
    if Z.land v WAFLAG =? 0 then Ret (inr (Some 1)) else Ret (inl (i + 1))
  else Ret (inr None).

Definition rd_spin_pass (ts : Z) (r : option gint) : prog segment (Z + gint) :=
  match r with
  | Some v => Ret (inr v)
  | None => nanosleep ts ;; Ret (inl (ts + SLEEP_NSEC))
  end.

Definition rd_spin_outer (gl : gint) (ts : Z) : prog segment (Z + gint) :=
  r <- loop (rd_spin_inner gl) 0 ;; rd_spin_pass ts r.

(** Where a reader can be in its spin loop. *)
Inductive rd_spinning (gl : gint) : prog segment gint -> Prop :=
| rsp_outer : forall ts, rd_spinning gl (Loop (rd_spin_outer gl) ts Ret)
| rsp_inner : forall ts i,
    rd_spinning gl
      (Loop (rd_spin_inner gl) i
         (fun r => bind (rd_spin_pass ts r) (loop_next (rd_spin_outer gl) Ret)))
| rsp_look : forall ts i,
    rd_spinning gl
      (bind (rd_spin_inner gl i)
         (loop_next (rd_spin_inner gl)
            (fun r => bind (rd_spin_pass ts r) (loop_next (rd_spin_outer gl) Ret)))).


(** [wg_start_read] from its first test of the writer flag on (lines
    507-554), on the sync word at [gl]. *)
Definition rd_wait (gl : gint) : prog segment gint :=
  v <- read gl ;;
  if Z.land v WAFLAG =? 0 then Ret 1 else Loop (rd_spin_outer gl) SLEEP_NSEC Ret.

(** A state whose writer flag is set. *)
Definition flagged (gl : gint) (e : segment) : Prop := Z.land (load gl e) WAFLAG <> 0.

End Simple.

(** ** The queued lock ([QUEUED_LOCKS] defined) *)

Module Queued.

(* classes of locks *)
Definition LOCKQ_READ : gint := 2.
Definition LOCKQ_WRITE : gint := 4.
Definition SPIN_COUNT : Z := 500.
Definition SLEEP_NSEC : Z := 1.  (* just deschedule thread *)

(** A queue cell ([lock_queue_node], declared in [dballoc.h]); the fields
    are those the file uses. *)
Record lock_queue_node : Type := {
  class : gint;      (* LOCKQ_READ, LOCKQ_WRITE *)
  state : gint;      (* lsb: blocked; other bits: class of the successor *)
  next : gint;       (* queue chain (offset) *)
  next_cell : gint;  (* freelist chain (offset) *)
  refcount : gint
}.

(** The [locks] part of the segment header, and the cells by offset. *)
Record segment : Type := {
  tail : gint;
  next_writer : gint;
  reader_count : gint;
  freelist : gint;
  storage : gint;
  max_nodes : gint;
  cell : gint -> lock_queue_node
}.

Inductive field : Type := f_class | f_state | f_next | f_next_cell | f_refcount.

(** A pointer into the segment: a header field or a field of the cell at an
    offset. *)
Inductive loc : Type :=
| Tail | Next_writer | Reader_count | Freelist | Storage | Max_nodes
| Node (off : gint) (f : field).

Definition get_field (f : field) (n : lock_queue_node) : gint :=
  match f with
  | f_class => class n
  | f_state => state n
  | f_next => next n
  | f_next_cell => next_cell n
  | f_refcount => refcount n
  end.

Definition set_field (f : field) (v : gint) (n : lock_queue_node) : lock_queue_node :=
  match f with
  | f_class => {| class := v; state := state n; next := next n;
                  next_cell := next_cell n; refcount := refcount n |}
  | f_state => {| class := class n; state := v; next := next n;
                  next_cell := next_cell n; refcount := refcount n |}
  | f_next => {| class := class n; state := state n; next := v;
                 next_cell := next_cell n; refcount := refcount n |}
  | f_next_cell => {| class := class n; state := state n; next := next n;
                      next_cell := v; refcount := refcount n |}
  | f_refcount => {| class := class n; state := state n; next := next n;
                     next_cell := next_cell n; refcount := v |}
  end.

Definition load_loc (l : loc) (s : segment) : gint :=
  match l with
  | Tail => tail s
  | Next_writer => next_writer s
  | Reader_count => reader_count s
  | Freelist => freelist s
  | Storage => storage s
  | Max_nodes => max_nodes s
  | Node off f => get_field f (cell s off)
  end.

Definition store_loc (l : loc) (v : gint) (s : segment) : segment :=
  match l with
  | Tail =>
      {| tail := v; next_writer := next_writer s; reader_count := reader_count s;
         freelist := freelist s; storage := storage s; max_nodes := max_nodes s;
         cell := cell s |}
  | Next_writer =>
      {| tail := tail s; next_writer := v; reader_count := reader_count s;
         freelist := freelist s; storage := storage s; max_nodes := max_nodes s;
         cell := cell s |}
  | Reader_count =>
      {| tail := tail s; next_writer := next_writer s; reader_count := v;
         freelist := freelist s; storage := storage s; max_nodes := max_nodes s;
         cell := cell s |}
  | Freelist =>
      {| tail := tail s; next_writer := next_writer s; reader_count := reader_count s;
         freelist := v; storage := storage s; max_nodes := max_nodes s;
         cell := cell s |}
  | Storage =>
      {| tail := tail s; next_writer := next_writer s; reader_count := reader_count s;
         freelist := freelist s; storage := v; max_nodes := max_nodes s;
         cell := cell s |}
  | Max_nodes =>
      {| tail := tail s; next_writer := next_writer s; reader_count := reader_count s;
         freelist := freelist s; storage := storage s; max_nodes := v;
         cell := cell s |}
  | Node off f =>
      {| tail := tail s; next_writer := next_writer s; reader_count := reader_count s;
         freelist := freelist s; storage := storage s; max_nodes := max_nodes s;
         cell := fun o => if o =? off then set_field f v (cell s o) else cell s o |}
  end.

#[export] Instance segment_mem : Mem segment loc := {|
  load := load_loc;
  store := store_loc
|}.

(** *** Memory management for queued locks (lines 757-879) *)

(** Release memory cell for a lock. *)
Definition free_lock (node : gint) : prog segment unit :=
  (* Clear reference *)
  fetch_and_add (Node node f_refcount) (-2) ;;
  (* Try to set lsb *)
  c <- compare_and_swap (Node node f_refcount) 0 1 ;;
  if truthy c then
    loop (fun _ : unit =>
      t <- read Freelist ;;
      write (Node node f_next_cell) t ;;
      c <- compare_and_swap Freelist t node ;;
      if truthy c then Ret (inr tt) else Ret (inl tt)) tt
  else Ret tt.

(** Allocate memory cell for a lock.  Returns offset to allocated cell. *)
Definition alloc_lock : prog segment gint :=
  loop (fun _ : unit =>
    t <- read Freelist ;;
    if t =? 0 then Ret (inr 0) (* end of chain *) else
    fetch_and_add (Node t f_refcount) 2 ;;
    nc <- read (Node t f_next_cell) ;;
    c <- compare_and_swap Freelist t nc ;;
    if truthy c then
      fetch_and_add (Node t f_refcount) (-1) ;; (* clear lsb *)
      Ret (inr t)
    else
      free_lock t ;; Ret (inl tt)) tt.

(** De-reference (release pointer to) a link. *)
Definition deref_link (link : loc) : prog segment gint :=
  loop (fun _ : unit =>
    t <- read link ;;
    if t =? 0 then Ret (inr 0) else
    fetch_and_add (Node t f_refcount) 2 ;;
    t' <- read link ;;
    if t =? t' then Ret (inr t) else
    free_lock t ;; Ret (inl tt)) tt.

(** Spin on the blocked bit of the caller's own cell: passes of
    [SPIN_COUNT] looks, a sleep that grows by [SLEEP_NSEC] between passes. *)
Definition spin_wait (lock : gint) : prog segment unit :=
  loop (fun ts : Z =>
    r <- loop (fun i : Z =>
           if i <? SPIN_COUNT then
             st <- read (Node lock f_state) ;;
             if Z.land st 1 =? 0 then Ret (inr true) else Ret (inl (i + 1))
           else Ret (inr false)) 0 ;;
    if r : bool then Ret (inr tt)
    else nanosleep ts ;; Ret (inl (ts + SLEEP_NSEC))) SLEEP_NSEC.

(** [while(!lockp->next);] *)
Definition wait_next (lock : gint) : prog segment unit :=
  loop (fun _ : unit =>
    nx <- read (Node lock f_next) ;;
    if truthy nx then Ret (inr tt) else Ret (inl tt)) tt.

(** The last step of [wg_end_read] before the cell is freed (lines
    721-730): the reader that brings the count from 1 to 0 hands over to the
    writer in line. *)
Definition end_read_handoff : prog segment unit :=
  old <- fetch_and_add Reader_count (-1) ;;
  if old =? 1 then
    (* No more readers. If there is a writer in line, unblock it *)
    w <- fetch_and_store Next_writer 0 ;;
    if truthy w then atomic_and (Node w f_state) (Z.lnot 1) (* unblock writer *)
    else Ret tt
  else Ret tt.

(** The body of the loop of [init_lock_queue] and the state it builds in
    [m] iterations from the cell at [i]. *)
Definition init_body (pad wall : Z) (x : gint * option gint)
    : prog segment (gint * option gint + option gint) :=
  let (i, tmp) := x in
  if i <? wall then
    Act (fun s0 : segment => (store (Node i f_refcount) 1 s0, tt))
      (fun _ : unit =>
        Act (fun s0 : segment =>
               (store (Node i f_next_cell) (gint_wrap (i + pad)) s0, tt))
          (fun _ : unit => Ret (inl (gint_wrap (i + pad), Some i))))
  else Ret (inr tmp).

Fixpoint init_cells (pad : Z) (m : nat) (i : gint) (s : segment) : segment :=
  match m with
  | O => s
  | S m' =>
      init_cells pad m' (i + pad)
        (store (Node i f_next_cell) (i + pad) (store (Node i f_refcount) 1 s))
  end.

Section Ops.

(** [dbcheck] and [SYN_VAR_PADDING] are macros of [dballoc.h]: the check of
    the handle is taken as a predicate, the size of a cell as a number. *)
Variable handle : Type.
Variable dbcheck : handle -> bool.
Variable SYN_VAR_PADDING : Z.

(** Initialize memory cells.  The loop keeps [tmp], the cell of the last
    iteration; with no iteration [tmp] is never assigned and the C store
    through it is undefined: the model then stores nothing. *)
Definition init_lock_queue (db : handle) : prog segment gint :=
  if negb (dbcheck db) then Ret (-1) else
  st <- read Storage ;;
  mx <- read Max_nodes ;;
  let chunk_wall := gint_wrap (st + gint_wrap (mx * SYN_VAR_PADDING)) in
  i0 <- read Storage ;;
  tmp <- loop (init_body SYN_VAR_PADDING chunk_wall) (i0, None) ;;
  match tmp with
  | Some t => write (Node t f_next_cell) 0 (* last node *)
  | None => Ret tt
  end ;;
  (* top of the stack points to first cell in chunk *)
  st' <- read Storage ;;
  write Freelist st' ;;
  Ret 0.

(** An arena of at least one cell of positive size, at nonnegative offsets
    that fit a [gint]. *)
Definition arena_ok (s : segment) : Prop :=
  0 < SYN_VAR_PADDING /\ 1 <= max_nodes s /\ 0 <= storage s /\
  storage s + max_nodes s * SYN_VAR_PADDING <= gint_max.

(** The state [init_lock_queue] leaves. *)
Definition initialized (s : segment) : segment :=
  let sl := init_cells SYN_VAR_PADDING (Z.to_nat (max_nodes s)) (storage s) s in
  store Freelist (storage s)
    (store (Node (storage s + max_nodes s * SYN_VAR_PADDING - SYN_VAR_PADDING)
              f_next_cell) 0 sl).

Definition wg_start_write (db : handle) : prog segment gint :=
  if negb (dbcheck db) then Ret 0 else
  lock <- alloc_lock ;;
  if negb (truthy lock) then Ret 0 else
  write (Node lock f_class) LOCKQ_WRITE ;;
  write (Node lock f_next) 0 ;;
  write (Node lock f_state) 1 ;; (* blocked, no successor *)
  (* Put ourselves at the end of queue and check if there is a predecessor *)
  prev <- fetch_and_store Tail lock ;;
  (if negb (truthy prev) then
     write Next_writer lock ;;
     rc <- read Reader_count ;;
     if negb (truthy rc) then
       w <- fetch_and_store Next_writer 0 ;;
       if w =? lock then
         (* No readers, we're still the next writer *)
         atomic_and (Node lock f_state) (Z.lnot 1) (* not blocked *)
       else Ret tt
     else Ret tt
   else
     atomic_or (Node prev f_state) LOCKQ_WRITE ;;
     write (Node prev f_next) lock) ;;
  st <- read (Node lock f_state) ;;
  (if truthy (Z.land st 1) then spin_wait lock else Ret tt) ;;
  Ret lock.

Definition wg_end_write (db : handle) (lock : gint) : prog segment gint :=
  if negb (dbcheck db) then Ret 0 else
  nx <- read (Node lock f_next) ;;
  succ <- (if truthy nx then Ret true
           else c <- compare_and_swap Tail lock 0 ;; Ret (negb (truthy c))) ;;
  (if succ : bool then
     wait_next lock ;; (* Wait until the successor has updated this record *)
     nx <- read (Node lock f_next) ;;
     cl <- read (Node nx f_class) ;;
     (if truthy (Z.land cl LOCKQ_READ) then atomic_increment Reader_count 1
      else Ret tt) ;;
     atomic_and (Node nx f_state) (Z.lnot 1) (* unblock successor *)
   else Ret tt) ;;
  free_lock lock ;;
  Ret 1.

Definition wg_start_read (db : handle) : prog segment gint :=
  if negb (dbcheck db) then Ret 0 else
  lock <- alloc_lock ;;
  if negb (truthy lock) then Ret 0 else
  write (Node lock f_class) LOCKQ_READ ;;
  write (Node lock f_next) 0 ;;
  write (Node lock f_state) 1 ;; (* blocked, no successor *)
  prev <- fetch_and_store Tail lock ;;
  (if negb (truthy prev) then
     (* No other locks, increment reader count and return *)
     atomic_increment Reader_count 1 ;;
     atomic_and (Node lock f_state) (Z.lnot 1) (* not blocked *)
   else
     cl <- read (Node prev f_class) ;;
     wait <- (if truthy (Z.land cl LOCKQ_WRITE) then Ret true
              else c <- compare_and_swap (Node prev f_state) 1 (Z.lor 1 LOCKQ_READ) ;;
                   Ret (truthy c)) ;;
     if wait : bool then
       (* Predecessor is a writer or a blocked reader. Spin-wait; the
          predecessor will unblock us and increment the reader count *)
       write (Node prev f_next) lock ;;
       st <- read (Node lock f_state) ;;
       if truthy (Z.land st 1) then spin_wait lock else Ret tt
     else
       (* Predecessor is a reader, we can continue *)
       atomic_increment Reader_count 1 ;;
       write (Node prev f_next) lock ;;
       atomic_and (Node lock f_state) (Z.lnot 1) (* not blocked *)) ;;
  (* rd_lock_cont: if this lock has a reader successor, unblock it *)
  st <- read (Node lock f_state) ;;
  (if truthy (Z.land st LOCKQ_READ) then
     wait_next lock ;; (* wait until structure is updated *)
     atomic_increment Reader_count 1 ;;
     nx <- read (Node lock f_next) ;;
     atomic_and (Node nx f_state) (Z.lnot 1) (* unblock successor *)
   else Ret tt) ;;
  Ret lock.

Definition wg_end_read (db : handle) (lock : gint) : prog segment gint :=
  if negb (dbcheck db) then Ret 0 else
  nx <- read (Node lock f_next) ;;
  succ <- (if truthy nx then Ret true
           else c <- compare_and_swap Tail lock 0 ;; Ret (negb (truthy c))) ;;
  (if succ : bool then
     wait_next lock ;;
     st <- read (Node lock f_state) ;;
     if truthy (Z.land st LOCKQ_WRITE) then
       nx <- read (Node lock f_next) ;;
       write Next_writer nx
     else Ret tt
   else Ret tt) ;;
  end_read_handoff ;;
  free_lock lock ;;
  Ret 1.

Definition ops (db : handle) : lock_ops segment := {|
  start_read := wg_start_read db;
  end_read := wg_end_read db;
  start_write := wg_start_write db;
  end_write := wg_end_write db
|}.

End Ops.

(** Runs of [alloc_lock] and [free_lock] calls of one caller.  [held] are
    the cells allocated and not yet freed; freeing a cell that is not held
    is a misuse. *)
Inductive pool_op : Type := Alloc | Free (n : gint).

Inductive pool_outcome : Type :=
| Out_of_fuel
| Misuse
| Pool (s : segment) (held : list gint).

Fixpoint pool_run (fuel : nat) (ops : list pool_op) (s : segment) (held : list gint)
    : pool_outcome :=
  match ops with
  | [] => Pool s held
  | Alloc :: ops' =>
      match run fuel alloc_lock s with
      | None => Out_of_fuel
      | Some (s', t) => pool_run fuel ops' s' (if t =? 0 then held else t :: held)
      end
  | Free n :: ops' =>
      if existsb (Z.eqb n) held then
        match run fuel (free_lock n) s with
        | None => Out_of_fuel
        | Some (s', _) => pool_run fuel ops' s' (remove Z.eq_dec n held)
        end
      else Misuse
  end.

(** The cells reached from [p] along [next_cell]. *)
Fixpoint freelist_cells (fuel : nat) (s : segment) (p : gint) : option (list gint) :=
  if p =? 0 then Some []
  else match fuel with
       | O => None
       | S n => option_map (cons p) (freelist_cells n s (next_cell (cell s p)))
       end.

Definition arena_cells (pad : Z) (s : segment) : list gint :=
  map (fun k => storage s + Z.of_nat k * pad) (seq 0 (Z.to_nat (max_nodes s))).

Inductive chain (s : segment) : gint -> list gint -> Prop :=
| chain_nil : chain s 0 []
| chain_cons : forall p l,
    p <> 0 -> chain s (next_cell (cell s p)) l -> chain s p (p :: l).

Definition pool_inv (cells : list gint) (s : segment) (held : list gint) : Prop :=
  exists l,
    chain s (freelist s) l /\ NoDup (l ++ held) /\ Permutation (l ++ held) cells /\
    Forall (fun n => refcount (cell s n) = 1) l /\
    Forall (fun n => refcount (cell s n) = 2) held.

(** The part of the header the lock operations only read. *)
Definition same_arena (s s' : segment) : Prop :=
  storage s' = storage s /\ max_nodes s' = max_nodes s.

(** The two loops of [spin_wait]. *)
Definition spin_inner (lock : gint) (i : Z) : prog segment (Z + bool) :=
  if i <? SPIN_COUNT then
    st <- read (Node lock f_state) ;;
    if Z.land st 1 =? 0 then Ret (inr true) else Ret (inl (i + 1))
  else Ret (inr false).

Definition spin_outer (lock : gint) (ts : Z) : prog segment (Z + unit) :=
  r <- loop (spin_inner lock) 0 ;;
  if r : bool then Ret (inr tt)
  else nanosleep ts ;; Ret (inl (ts + SLEEP_NSEC)).

(** What is left of the inner loop's pass when it is over. *)
Definition spin_pass (A : Type) (lock : gint) (k : unit -> prog segment A) (ts : Z)
    (r : bool) : prog segment A :=
  bind (if r then Ret (inr tt) else nanosleep ts ;; Ret (inl (ts + SLEEP_NSEC)))
       (loop_next (spin_outer lock) k).

(** Where a caller can be in [spin_wait lock ;; k]. *)
Inductive spinning (A : Type) (lock : gint) (k : unit -> prog segment A)
    : prog segment A -> Prop :=
| sp_outer : forall ts, spinning lock k (Loop (spin_outer lock) ts k)
| sp_inner : forall ts i,
    spinning lock k (Loop (spin_inner lock) i (spin_pass lock k ts))
| sp_look : forall ts i,
    spinning lock k
      (bind (spin_inner lock i) (loop_next (spin_inner lock) (spin_pass lock k ts))).

(** The end of [wg_start_read], from the label [rd_lock_cont] on. *)
Definition rd_lock_cont (lock : gint) : prog segment gint :=
  st <- read (Node lock f_state) ;;
  (if truthy (Z.land st LOCKQ_READ) then
     wait_next lock ;;
     atomic_increment Reader_count 1 ;;
     nx <- read (Node lock f_next) ;;
     atomic_and (Node nx f_state) (Z.lnot 1)
   else Ret tt) ;;
  Ret lock.


(** The body of [while(!lockp->next);]. *)
Definition wait_next_body (lock : gint) (_ : unit) : prog segment (unit + unit) :=
  nx <- read (Node lock f_next) ;;
  if truthy nx then Ret (inr tt) else Ret (inl tt).

(** [wg_end_read] from [free_lock] on (lines 731-734), and from the
    decrement of the reader count on (lines 721-734). *)
Definition end_read_free (lock : gint) : prog segment gint :=
  free_lock lock ;;
  Ret 1.

Definition end_read_finish (lock : gint) : prog segment gint :=
  end_read_handoff ;;
  free_lock lock ;;
  Ret 1.

(** [wg_end_read] after its wait for the successor (lines 718-734), and
    what it does once it knows of a successor (lines 712-719). *)
Definition end_read_mark (lock : gint) : prog segment gint :=
  (st <- read (Node lock f_state) ;;
   if truthy (Z.land st LOCKQ_WRITE) then
     nx <- read (Node lock f_next) ;;
     write Next_writer nx
   else Ret tt) ;;
  end_read_finish lock.

Definition end_read_successor (lock : gint) : prog segment unit :=
  wait_next lock ;;
  st <- read (Node lock f_state) ;;
  if truthy (Z.land st LOCKQ_WRITE) then
    nx <- read (Node lock f_next) ;;
    write Next_writer nx
  else Ret tt.

(** Where [wg_end_read] can be after its first read and before the
    decrement of the reader count. *)
Inductive leaving (lock : gint) : prog segment gint -> Prop :=
| lv_cas :
    leaving lock
      (c <- compare_and_swap Tail lock 0 ;;
       (if negb (truthy c) then end_read_successor lock else Ret tt) ;;
       end_read_finish lock)
| lv_loop :
    leaving lock (Loop (wait_next_body lock) tt (fun _ => end_read_mark lock))
| lv_look :
    leaving lock
      (bind (wait_next_body lock tt)
         (loop_next (wait_next_body lock) (fun _ => end_read_mark lock)))
| lv_mark : leaving lock (end_read_mark lock)
| lv_nx :
    leaving lock
      ((nx <- read (Node lock f_next) ;; write Next_writer nx) ;;
       end_read_finish lock)
| lv_set : forall nx,
    leaving lock (write Next_writer nx ;; end_read_finish lock).

(** Two states with the same reader count and the same state words, and
    with the same [next_writer] too. *)
Definition same_readers (s s' : segment) : Prop :=
  reader_count s' = reader_count s /\
  forall off, state (cell s' off) = state (cell s off).

Definition same_line (s s' : segment) : Prop :=
  next_writer s' = next_writer s /\ same_readers s s'.

End Queued.

(** ** Concrete handles, segments and one interleaving *)

Module Scenario.

(** A handle check that accepts every handle, one that rejects every
    handle, a simple-lock segment whose sync word is 0, and queued-lock
    segments with [mx] cells of 128 bytes at 1024. *)
Definition any_handle (_ : unit) : bool := true.
Definition no_handle (_ : unit) : bool := false.

Definition fresh_segment : Simple.segment :=
  {| Simple.global_lock := 64; Simple.word := fun _ => 0 |}.

Definition blank_node : Queued.lock_queue_node :=
  {| Queued.class := 0; Queued.state := 0; Queued.next := 0;
     Queued.next_cell := 0; Queued.refcount := 0 |}.

Definition blank (mx tl nw rc : gint) : Queued.segment :=
  {| Queued.tail := tl; Queued.next_writer := nw; Queued.reader_count := rc;
     Queued.freelist := 0; Queued.storage := 1024; Queued.max_nodes := mx;
     Queued.cell := fun _ => blank_node |}.

Definition booted : Queued.segment :=
  match run 30 (Queued.init_lock_queue any_handle 128 tt) (blank 4 0 0 0) with
  | Some (s, _) => s
  | None => blank 4 0 0 0
  end.

(** A run of the pool that hands every cell back. *)
Definition pool_demo : list Queued.pool_op :=
  [Queued.Alloc; Queued.Alloc; Queued.Free 1024; Queued.Alloc;
   Queued.Free 1152; Queued.Free 1024].

Definition runs (t n : nat) : list event := repeat (Run t) n.

(** Caller 0 reads and, releasing, takes the reader count from 1 to 0; it
    is preempted before its exchange of [next_writer].  Caller 1 starts
    reading.  Caller 2 reads and releases behind caller 1, which empties the
    queue.  Caller 3 starts writing: it finds no predecessor, names itself
    [next_writer], sees a reader and stays blocked.  Caller 0 resumes and
    unblocks the writer it finds in [next_writer]. *)
Definition stale_handoff : list event :=
  Call_start 0 Reader :: runs 0 13 ++ Call_end 0 :: runs 0 3 ++
  Call_start 1 Reader :: runs 1 13 ++
  Call_start 2 Reader :: runs 2 16 ++ Call_end 2 :: runs 2 9 ++
  Call_start 3 Writer :: runs 3 12 ++
  runs 0 2 ++ runs 3 1.

Definition after_stale_handoff : Queued.segment * list (status Queued.segment) :=
  execute (Queued.ops any_handle tt) stale_handoff (booted, [Idle; Idle; Idle; Idle]).

(** A simple-lock segment whose sync word has the writer flag. *)
Definition write_locked : Simple.segment :=
  {| Simple.global_lock := 64;
     Simple.word := fun p => if p =? 64 then Simple.WAFLAG else 0 |}.

(** The queue with a writer holding the lock and a second writer waiting
    behind it, and with a reader holding and a writer waiting behind it. *)
Definition writer_queue : Queued.segment :=
  fst (execute (Queued.ops any_handle tt)
         (Call_start 0 Writer :: runs 0 15 ++ Call_start 1 Writer :: runs 1 13)
         (booted, [Idle; Idle])).

Definition reader_queue : Queued.segment :=
  fst (execute (Queued.ops any_handle tt)
         (Call_start 0 Reader :: runs 0 13 ++ Call_start 1 Writer :: runs 1 13)
         (booted, [Idle; Idle])).

(** Caller 0 starts reading and stops after it has read the head of the
    freelist, cell 1024.  Callers 1 and 2 start reading: they take cells
    1024 and 1152.  Caller 1 releases and stops when it has claimed cell
    1024 for the freelist.  Caller 0 takes its reference to cell 1024 and
    reads its [next_cell], still 1152.  Caller 1 pushes cell 1024.  The
    compare-and-swap of caller 0 finds cell 1024 at the head and puts 1152
    there, the cell caller 2 holds.  Caller 3 starts reading. *)
Definition cell_reuse : list event :=
  Call_start 0 Reader :: runs 0 2 ++
  Call_start 1 Reader :: runs 1 13 ++
  Call_start 2 Reader :: runs 2 16 ++
  Call_end 1 :: runs 1 7 ++
  runs 0 2 ++ runs 1 4 ++ runs 0 14 ++
  Call_start 3 Reader :: runs 3 16.

Definition after_cell_reuse : Queued.segment * list (status Queued.segment) :=
  execute (Queued.ops any_handle tt) cell_reuse (booted, [Idle; Idle; Idle; Idle]).


(** A simple-lock segment whose sync word is [v]. *)
Definition with_sync_word (v : gint) : Simple.segment :=
  {| Simple.global_lock := 64; Simple.word := fun p => if p =? 64 then v else 0 |}.

(** On a sync word of -2 a reader performs its addition, a writer then
    takes the lock, and the reader goes on. *)
Definition reader_overtaken : list event :=
  Call_start 0 Reader :: runs 0 2 ++
  Call_start 1 Writer :: runs 1 2 ++
  runs 0 50.

Definition after_reader_overtaken : Simple.segment * list (status Simple.segment) :=
  execute (Simple.ops any_handle tt) reader_overtaken
    (with_sync_word (-2), [Idle; Idle]).

End Scenario.

(** * Facts about programs *)

Section ProgFacts.

Variable Sh : Type.

Lemma peq_refl (A : Type) (p : prog Sh A) : peq p p.
Proof. induction p; constructor; auto. Qed.

Lemma peq_bind_cont (A B : Type) (p : prog Sh A) (k1 k2 : A -> prog Sh B) :
  (forall a, peq (k1 a) (k2 a)) -> peq (bind p k1) (bind p k2).
Proof. intros H. induction p; simpl; auto; constructor; auto. Qed.

Lemma bind_bind (A B C : Type) (p : prog Sh A) (k : A -> prog Sh B)
    (h : B -> prog Sh C) :
  peq (bind (bind p k) h) (bind p (fun a => bind (k a) h)).
Proof. induction p; simpl; [apply peq_refl | constructor; auto ..]. Qed.

Lemma peq_loop_next (A X Y : Type) (body : X -> prog Sh (X + Y))
    (k k' : Y -> prog Sh A) (r : X + Y) :
  (forall y, peq (k y) (k' y)) -> peq (loop_next body k r) (loop_next body k' r).
Proof. intros H. destruct r; simpl; [constructor |]; auto. Qed.

Lemma run_peq (n : nat) : forall (A : Type) (p q : prog Sh A) (s : Sh),
  peq p q -> run n p s = run n q s.
Proof.
  induction n as [|n IH]; intros A p q s H;
    destruct H as [A a | A X f k k' H | A X Y body x k k' H]; simpl; auto.
  - destruct (f s) as [s' x]. auto.
  - apply IH. apply peq_bind_cont. intros r. now apply peq_loop_next.
Qed.

Lemma run_mono (n : nat) : forall (A : Type) (p : prog Sh A) (s : Sh) r m,
  run n p s = Some r -> (n <= m)%nat -> run m p s = Some r.
Proof.
  induction n as [|n IH]; intros A p s r m H Hm.
  - destruct p; simpl in H; try discriminate. destruct m; exact H.
  - destruct m as [|m]; [lia|].
    destruct p as [A a | A X f k | A X Y body x k]; simpl in *; auto.
    + destruct (f s) as [s' x]. apply IH; auto. lia.
    + apply IH; auto. lia.
Qed.

Lemma run_bind (n : nat) : forall (A B : Type) (p : prog Sh A) (k : A -> prog Sh B)
    (s s1 : Sh) (a : A) (m : nat) r,
  run n p s = Some (s1, a) -> run m (k a) s1 = Some r ->
  run (n + m) (bind p k) s = Some r.
Proof.
  induction n as [|n IH]; intros A B p k s s1 a m r H K.
  - destruct p; simpl in H; try discriminate.
    injection H as -> ->. exact K.
  - destruct p as [A a0 | A X f k0 | A X Y body x k0]; simpl in H.
    + injection H as -> ->. simpl bind. eapply run_mono; [exact K | lia].
    + simpl. destruct (f s) as [s' x]. eapply IH; eauto.
    + simpl.
      rewrite <- run_peq
        with (p := bind (body x) (fun r0 => bind (loop_next body k0 r0) k)).
      2:{ apply peq_bind_cont. intros [x'|y]; simpl; apply peq_refl. }
      rewrite <- run_peq with (p := bind (bind (body x) (loop_next body k0)) k)
        by apply bind_bind.
      eapply IH; eauto.
Qed.

Lemma returns_in_Ret (A : Type) (a : A) (s : Sh) : returns_in 0 (Ret a) s s a.
Proof. intros [|fuel] _; reflexivity. Qed.

Lemma returns_in_le (n m : nat) (A : Type) (p : prog Sh A) s s' a :
  returns_in n p s s' a -> (n <= m)%nat -> returns_in m p s s' a.
Proof. intros H Hm fuel Hf. apply H. lia. Qed.

Lemma returns_in_Act (n : nat) (A X : Type) (f : Sh -> Sh * X) (k : X -> prog Sh A)
    s s' a :
  returns_in n (k (snd (f s))) (fst (f s)) s' a ->
  returns_in (S n) (Act f k) s s' a.
Proof.
  intros H [|fuel] Hf; [lia|]. simpl. destruct (f s) as [s1 x]. apply H. lia.
Qed.

Lemma returns_in_bind (n m : nat) (A B : Type) (p : prog Sh A) (k : A -> prog Sh B)
    s s1 s2 a b :
  returns_in n p s s1 a -> returns_in m (k a) s1 s2 b ->
  returns_in (n + m) (bind p k) s s2 b.
Proof.
  intros H K fuel Hf.
  apply run_mono with (n := (n + m)%nat); [|exact Hf].
  eapply run_bind; [apply H | apply K]; lia.
Qed.

Lemma returns_in_Loop (n : nat) (A X Y : Type) (body : X -> prog Sh (X + Y)) (x : X)
    (k : Y -> prog Sh A) s s' a :
  returns_in n (bind (body x) (loop_next body k)) s s' a ->
  returns_in (S n) (Loop body x k) s s' a.
Proof. intros H [|fuel] Hf; [lia|]. simpl. apply H. lia. Qed.

Lemma returns_in_det (n m : nat) (A : Type) (p : prog Sh A) s s1 s2 a b :
  returns_in n p s s1 a -> returns_in m p s s2 b -> s1 = s2 /\ a = b.
Proof.
  intros H K. specialize (H (n + m)%nat). specialize (K (n + m)%nat).
  rewrite H in K by lia. assert (E : Some (s1, a) = Some (s2, b)) by (apply K; lia).
  now inversion E.
Qed.

(** Quiet programs stay quiet and leave the state as it is. *)
Lemma quiet_bind (A B : Type) (p : prog Sh A) (k : A -> prog Sh B) :
  quiet p -> (forall a, quiet (k a)) -> quiet (bind p k).
Proof.
  intros H K. induction H; simpl; auto; constructor; auto.
Qed.

Lemma quiet_step (A : Type) (p : prog Sh A) (s : Sh) :
  quiet p -> fst (step p s) = s /\ quiet (snd (step p s)).
Proof.
  intros H. destruct H as [A a | A X f k Hf Hk | A X Y body x k Hb Hk]; simpl.
  - split; [reflexivity | constructor].
  - specialize (Hf s). destruct (f s) as [s' x]. simpl in *. auto.
  - split; [reflexivity|]. apply quiet_bind; auto.
    intros [x'|y]; simpl; auto. constructor; auto.
Qed.

Lemma quiet_steps (n : nat) : forall (A : Type) (p : prog Sh A) (s : Sh),
  quiet p -> fst (steps n p s) = s.
Proof.
  induction n as [|n IH]; intros A p s H; simpl; [reflexivity|].
  destruct (quiet_step s H) as [E Q].
  destruct (step p s) as [s' p']. simpl in *. subst s'. auto.
Qed.

(** ** Programs whose writes are their last action *)

Lemma safe_mono (A : Type) (p : prog Sh A) :
  forall (Q Q' : A -> option (Sh * Sh) -> Prop) o,
    (forall a o', Q a o' -> Q' a o') -> safe p Q o -> safe p Q' o.
Proof.
  induction p as [A a | A X f k IH | A X Y body IHb x k IHk]; intros Q Q' o H; simpl.
  - apply H.
  - intros [S0 S1]. split; [exact S0|]. intros s. eapply IH; eauto.
  - intros [S0 S1]. split; [exact S0|]. intros x'.
    eapply IHb; [|apply S1]. intros [x''|y] o'; simpl; [auto|]. apply IHk. exact H.
Qed.

Lemma safe_bind (A B : Type) (p : prog Sh A) (k : A -> prog Sh B) :
  forall (Q : B -> option (Sh * Sh) -> Prop) o,
    safe p (fun a o' => safe (k a) Q o') o -> safe (bind p k) Q o.
Proof.
  induction p as [A a | A X f k0 IH | A X Y body IHb x k0 IHk]; intros Q o; simpl.
  - auto.
  - intros [S0 S1]. split; [exact S0|]. intros s. apply IH, S1.
  - intros [S0 S1]. split; [exact S0|]. intros x'.
    eapply safe_mono; [|apply S1]. intros [x''|y] o'; simpl; [auto|]. apply IHk.
Qed.

Lemma safe_result (A : Type) (p : prog Sh A) Q o v :
  result p = Some v -> safe p Q o -> Q v o.
Proof. destruct p; simpl; intros E; inversion E; subst; auto. Qed.

Lemma safe_settled (A : Type) (p : prog Sh A) Q o :
  result p = None -> safe p Q o -> settled o.
Proof. destruct p; simpl; intros E; [discriminate | tauto | tauto]. Qed.

(** One step of a safe program that has not returned. *)
Lemma safe_step (A : Type) (p : prog Sh A) Q o (s : Sh) :
  result p = None -> safe p Q o ->
  safe (snd (step p s)) Q (Some (s, fst (step p s))) \/
  (fst (step p s) = s /\ safe (snd (step p s)) Q None).
Proof.
  destruct p as [A a | A X f k | A X Y body x k]; simpl; intros E S0.
  - discriminate.
  - left. destruct S0 as [_ S1]. specialize (S1 s). destruct (f s) as [s' y]. exact S1.
  - right. split; [reflexivity|]. destruct S0 as [_ S1].
    apply safe_bind. eapply safe_mono; [|apply S1].
    intros [x''|y] o'; simpl; auto.
Qed.

(** ** Callers that wait *)

Lemma frozen_mono (A : Type) (p : prog Sh A) (s : Sh) :
  forall (Q Q' : A -> Prop), (forall a, Q a -> Q' a) -> frozen p s Q -> frozen p s Q'.
Proof.
  induction p as [A a | A X f k IH | A X Y body IHb x k IHk]; intros Q Q' H; simpl.
  - apply H.
  - intros [S0 S1]. split; [exact S0|]. eapply IH; eauto.
  - intros S1 x'. eapply IHb; [|apply S1].
    intros [x''|y]; simpl; [auto|]. apply IHk. exact H.
Qed.

Lemma frozen_bind (A B : Type) (p : prog Sh A) (k : A -> prog Sh B) (s : Sh) :
  forall Q : B -> Prop,
    frozen p s (fun a => frozen (k a) s Q) -> frozen (bind p k) s Q.
Proof.
  induction p as [A a | A X f k0 IH | A X Y body IHb x k0 IHk]; intros Q; simpl.
  - auto.
  - intros [S0 S1]. split; [exact S0|]. apply IH, S1.
  - intros S1 x'. eapply frozen_mono; [|apply S1].
    intros [x''|y]; simpl; [auto|]. apply IHk.
Qed.

Lemma frozen_step (A : Type) (p : prog Sh A) (s : Sh) Q :
  result p = None -> frozen p s Q ->
  fst (step p s) = s /\ frozen (snd (step p s)) s Q.
Proof.
  destruct p as [A a | A X f k | A X Y body x k]; simpl; intros E S0.
  - discriminate.
  - destruct S0 as [S0 S1]. destruct (f s) as [s' y]. simpl in *. auto.
  - split; [reflexivity|]. apply frozen_bind. eapply frozen_mono; [|apply S0].
    intros [x''|y]; simpl; auto.
Qed.

Lemma frozen_result (A : Type) (p : prog Sh A) (s : Sh) :
  frozen p s (fun _ => False) -> result p = None.
Proof. destruct p; simpl; [tauto | reflexivity | reflexivity]. Qed.

Lemma frozen_waits (A : Type) (s : Sh) (m : nat) : forall p : prog Sh A,
  frozen p s (fun _ => False) ->
  fst (steps m p s) = s /\ result (snd (steps m p s)) = None.
Proof.
  induction m as [|m IH]; intros p H; simpl.
  - split; [reflexivity | exact (@frozen_result A p s H)].
  - destruct (@frozen_step A p s _ (@frozen_result A p s H) H) as [E F].
    destruct (step p s) as [s' p']. simpl in *. subst s'. now apply IH.
Qed.

Lemma waits_at_frozen (A : Type) (p : prog Sh A) (s : Sh) (n : nat) :
  frozen p s (fun _ => False) -> waits_at n p s s.
Proof. intros H m _. now apply frozen_waits. Qed.

Lemma waits_at_Act (n : nat) (A X : Type) (f : Sh -> Sh * X) (k : X -> prog Sh A)
    (s s1 : Sh) :
  waits_at n (k (snd (f s))) (fst (f s)) s1 -> waits_at (S n) (Act f k) s s1.
Proof.
  intros H [|m] Hm; [lia|]. simpl. destruct (f s) as [s' x]. apply H. lia.
Qed.

Lemma waits_at_Loop (n : nat) (A X Y : Type) (body : X -> prog Sh (X + Y)) (x : X)
    (k : Y -> prog Sh A) (s s1 : Sh) :
  waits_at n (bind (body x) (loop_next body k)) s s1 ->
  waits_at (S n) (Loop body x k) s s1.
Proof. intros H [|m] Hm; [lia|]. simpl. apply H. lia. Qed.

Lemma steps_Ret (A : Type) (a : A) (n : nat) (s : Sh) :
  steps n (Ret a) s = (s, Ret a).
Proof. induction n as [|n IH]; simpl; auto. Qed.

Lemma run_steps_None (fuel : nat) : forall (A : Type) (p : prog Sh A) (s : Sh),
  result (snd (steps fuel p s)) = None -> run fuel p s = None.
Proof.
  induction fuel as [|fuel IH]; intros A p s H.
  - simpl in *. now rewrite H.
  - destruct p as [A a | A X f k | A X Y body x k].
    + rewrite steps_Ret in H. discriminate.
    + simpl in *. destruct (f s) as [s' x]. now apply IH.
    + simpl in *. now apply IH.
Qed.

(** A caller that waits never returns, and rests where it waits. *)
Lemma waits_at_alone (n : nat) (A : Type) (p : prog Sh A) (s s1 : Sh) :
  waits_at n p s s1 -> never_returns p s /\ rests_at n p s s1.
Proof.
  intros H. split.
  - intros fuel. destruct (run fuel p s) as [r|] eqn:E; [|reflexivity].
    apply run_mono with (m := (fuel + n)%nat) in E; [|lia].
    rewrite run_steps_None in E; [discriminate|]. apply H. lia.
  - intros m Hm. now apply H.
Qed.

Lemma never_returns_not (A : Type) (p : prog Sh A) (s s1 : Sh) (a : A) :
  never_returns p s -> ~ returns p s s1 a.
Proof. intros H [n R]. specialize (R n (Nat.le_refl n)). rewrite H in R. discriminate. Qed.

Lemma waits_at_le (n m : nat) (A : Type) (p : prog Sh A) (s s1 : Sh) :
  waits_at n p s s1 -> (n <= m)%nat -> waits_at m p s s1.
Proof. intros H Hm k Hk. apply H. lia. Qed.

(** ** Running a caller for some steps *)

Lemma steps_Act (n : nat) (A X : Type) (f : Sh -> Sh * X) (k : X -> prog Sh A) (s : Sh) :
  steps (S n) (Act f k) s = steps n (k (snd (f s))) (fst (f s)).
Proof. simpl. destruct (f s) as [s' x]. reflexivity. Qed.

Lemma steps_Loop (n : nat) (A X Y : Type) (body : X -> prog Sh (X + Y)) (x : X)
    (k : Y -> prog Sh A) (s : Sh) :
  steps (S n) (Loop body x k) s = steps n (bind (body x) (loop_next body k)) s.
Proof. reflexivity. Qed.

Lemma steps_add (a b : nat) : forall (A : Type) (p : prog Sh A) (s : Sh),
  steps (a + b) p s = steps b (snd (steps a p s)) (fst (steps a p s)).
Proof.
  induction a as [|a IH]; intros A p s; simpl; [reflexivity|].
  destruct (step p s) as [s' p']. apply IH.
Qed.

Lemma run_steps (j : nat) : forall (n : nat) (A : Type) (p : prog Sh A) (s : Sh),
  run (j + n) p s = run n (snd (steps j p s)) (fst (steps j p s)).
Proof.
  induction j as [|j IH]; intros n A p s; [reflexivity|].
  destruct p as [A a | A X f k | A X Y body x k].
  - rewrite steps_Ret. simpl. destruct n; reflexivity.
  - simpl. destruct (f s) as [s' x]. apply IH.
  - simpl. apply IH.
Qed.

Lemma returns_in_steps (j n : nat) (A : Type) (p : prog Sh A) (s s' : Sh) (a : A) :
  returns_in n (snd (steps j p s)) (fst (steps j p s)) s' a ->
  returns_in (j + n) p s s' a.
Proof.
  intros H fuel Hf. replace fuel with (j + (fuel - j))%nat by lia.
  rewrite run_steps. apply H. lia.
Qed.

Lemma steps_Act_to (n : nat) (A X : Type) (f : Sh -> Sh * X) (k : X -> prog Sh A)
    (s : Sh) r :
  steps n (k (snd (f s))) (fst (f s)) = r -> steps (S n) (Act f k) s = r.
Proof. intros H. now rewrite steps_Act. Qed.

Lemma steps_Loop_to (n : nat) (A X Y : Type) (body : X -> prog Sh (X + Y)) (x : X)
    (k : Y -> prog Sh A) (s : Sh) r :
  steps n (bind (body x) (loop_next body k)) s = r -> steps (S n) (Loop body x k) s = r.
Proof. intros H. exact H. Qed.

(** A safe program whose return needs a last action on a state in [P]
    stays where it is on a state outside [P]. *)
Lemma safe_blocked (A : Type) (Q : A -> option (Sh * Sh) -> Prop) (P : Sh -> Prop)
    (s : Sh) :
  (forall v o, Q v o -> exists s0 s0', o = Some (s0, s0') /\ P s0) -> ~ P s ->
  forall (n : nat) (p : prog Sh A) o,
    result p = None -> safe p Q o ->
    fst (steps n p s) = s /\ result (snd (steps n p s)) = None /\
    exists o', safe (snd (steps n p s)) Q o'.
Proof.
  intros HQ HP. induction n as [|n IH]; intros p o Hr Hs.
  - simpl. split; [reflexivity|]. split; [exact Hr|]. now exists o.
  - pose proof (@safe_step _ p Q o s Hr Hs) as St.
    simpl. destruct (step p s) as [s' p'] eqn:E. cbn [fst snd] in St.
    assert (N : result p' = None /\ s' = s /\ exists o', safe p' Q o').
    { destruct (result p') as [v|] eqn:Er.
      - exfalso. destruct St as [St | [_ St]];
          (eapply safe_result in St; [|exact Er]);
          destruct (HQ _ _ St) as (s0 & s0' & Eo & Hp); inversion Eo; subst.
        now apply HP.
      - split; [reflexivity|]. destruct St as [St | [E0 St]].
        + split; [|now eexists; exact St].
          assert (Se := St). eapply safe_settled in Se; [|exact Er]. exact Se.
        + split; [exact E0 | now exists None]. }
    destruct N as (Nr & -> & o' & So). now apply (IH p' o').
Qed.


(** ** A caller among others *)

Lemma trace_cons (A : Type) (p : prog Sh A) (e : Sh) (es : list Sh) :
  trace p (e :: es)
  = ((e, fst (step p e)) :: fst (trace (snd (step p e)) es),
     snd (trace (snd (step p e)) es)).
Proof.
  simpl. destruct (step p e) as [e' p']. simpl.
  destruct (trace p' es) as [t q]. reflexivity.
Qed.

Lemma trace_one (A : Type) (p : prog Sh A) (e : Sh) :
  trace p [e] = ([(e, fst (step p e))], snd (step p e)).
Proof. now rewrite trace_cons. Qed.

Lemma quiet_trace (A : Type) (envs : list Sh) : forall p : prog Sh A,
  quiet p ->
  Forall (@unchanged Sh) (fst (trace p envs)) /\ quiet (snd (trace p envs)).
Proof.
  induction envs as [|e es IH]; intros p H.
  - split; [constructor | exact H].
  - rewrite trace_cons. cbn [fst snd].
    destruct (quiet_step e H) as [E Q]. destruct (IH _ Q) as [F Q'].
    split; [|exact Q']. constructor; [exact E | exact F].
Qed.

End ProgFacts.

(** ** What an interleaving keeps *)

Section KeepFacts.

Variable Sh : Type.
Variable I : Sh -> Prop.
Variable R : Sh -> Sh -> Prop.

Hypothesis R_refl : forall s, R s s.
Hypothesis R_trans : forall s1 s2 s3, R s1 s2 -> R s2 s3 -> R s1 s3.
Hypothesis R_I : forall s s', I s -> R s s' -> I s'.

Lemma keeps_bind (A B : Type) (p : prog Sh A) (k : A -> prog Sh B) :
  keeps I R p -> (forall a, keeps I R (k a)) -> keeps I R (bind p k).
Proof.
  intros H K. induction p as [A a | A X f k0 IH | A X Y body IHb x k0 IHk]; simpl.
  - apply K.
  - intros s Hs. destruct (H s Hs) as [H1 H2]. split; [exact H1|]. now apply IH.
  - destruct H as [H1 H2]. split; [exact H1|]. intros y. now apply IHk.
Qed.

Lemma keeps_step (A : Type) (p : prog Sh A) (s : Sh) :
  I s -> keeps I R p -> R s (fst (step p s)) /\ keeps I R (snd (step p s)).
Proof.
  intros Hs H. destruct p as [A a | A X f k | A X Y body x k]; simpl.
  - split; [apply R_refl | exact H].
  - destruct (H s Hs) as [H1 H2]. destruct (f s) as [s' y]. simpl in *. auto.
  - destruct H as [H1 H2]. split; [apply R_refl|].
    apply keeps_bind; [apply H1|]. intros [x'|y]; simpl; auto.
Qed.

Lemma status_keeps_settle_acquire (k : lock_kind) (p : prog Sh gint) :
  keeps I R p -> status_keeps I R (settle_acquire k p).
Proof.
  intros H. unfold settle_acquire. destruct (result p) as [v|]; [|exact H].
  destruct (v =? 0); exact Logic.I.
Qed.

Lemma status_keeps_settle_release (k : lock_kind) (p : prog Sh gint) :
  keeps I R p -> status_keeps I R (settle_release k p).
Proof.
  intros H. unfold settle_release.
  destruct (result p) as [v|]; [exact Logic.I | exact H].
Qed.

Lemma Forall_firstn_skipn (P : status Sh -> Prop) (t : nat) :
  forall pool : list (status Sh),
    Forall P pool -> Forall P (firstn t pool) /\ Forall P (skipn t pool).
Proof.
  induction t as [|t IH]; intros pool F; simpl; [split; [constructor | exact F]|].
  destruct pool as [|st pool]; [split; constructor|].
  inversion F as [|? ? H F']; subst. destruct (IH pool F') as [A B].
  split; [constructor; assumption | exact B].
Qed.

Lemma Forall_set_status (P : status Sh -> Prop) (t : nat) (st : status Sh)
    (pool : list (status Sh)) :
  Forall P pool -> P st -> Forall P (set_status t st pool).
Proof.
  intros F H. unfold set_status. apply Forall_app. split.
  - now apply Forall_firstn_skipn.
  - constructor; [exact H|]. now apply Forall_firstn_skipn.
Qed.

Lemma Forall_repeat_idle (P : status Sh -> Prop) (n : nat) :
  P Idle -> Forall P (repeat Idle n).
Proof. intros H. induction n; simpl; constructor; auto. Qed.

Variable ops : lock_ops Sh.
Hypothesis ops_acquire : forall k, keeps I R (acquire_of ops k).
Hypothesis ops_release : forall k t, keeps I R (release_of ops k t).

Lemma keeps_fire (e : event) (s : Sh) (pool : list (status Sh)) :
  I s -> Forall (status_keeps I R) pool ->
  R s (fst (fire ops e (s, pool))) /\
  Forall (status_keeps I R) (snd (fire ops e (s, pool))).
Proof.
  intros Hs F.
  assert (N : forall t st, nth_error pool t = Some st -> status_keeps I R st).
  { intros t st E. apply (proj1 (Forall_forall _ pool) F). eapply nth_error_In; eauto. }
  destruct e as [t k | t | t]; cbn [fire].
  - destruct (nth_error pool t) as [st|] eqn:E; [|split; [apply R_refl | exact F]].
    destruct st; cbn [fst snd]; try (split; [apply R_refl | exact F]).
    split; [apply R_refl|]. apply Forall_set_status; [exact F|].
    apply status_keeps_settle_acquire, ops_acquire.
  - destruct (nth_error pool t) as [st|] eqn:E; [|split; [apply R_refl | exact F]].
    destruct st; cbn [fst snd]; try (split; [apply R_refl | exact F]).
    split; [apply R_refl|]. apply Forall_set_status; [exact F|].
    apply status_keeps_settle_release, ops_release.
  - destruct (nth_error pool t) as [st|] eqn:E; [|split; [apply R_refl | exact F]].
    pose proof (N t st E) as K.
    destruct st as [|k p|k tok|k p]; cbn [fst snd];
      try (split; [apply R_refl | exact F]).
    + destruct (keeps_step p Hs K) as [H1 H2].
      destruct (step p s) as [s' p']. cbn [fst snd] in *. split; [exact H1|].
      apply Forall_set_status; [exact F|]. now apply status_keeps_settle_acquire.
    + destruct (keeps_step p Hs K) as [H1 H2].
      destruct (step p s) as [s' p']. cbn [fst snd] in *. split; [exact H1|].
      apply Forall_set_status; [exact F|]. now apply status_keeps_settle_release.
Qed.

Lemma keeps_execute (sched : list event) :
  forall (s : Sh) (pool : list (status Sh)),
    I s -> Forall (status_keeps I R) pool -> R s (fst (execute ops sched (s, pool))).
Proof.
  induction sched as [|e sched IH]; intros s pool Hs F; [apply R_refl|].
  change (execute ops (e :: sched) (s, pool))
    with (execute ops sched (fire ops e (s, pool))).
  destruct (keeps_fire e Hs F) as [H1 H2].
  destruct (fire ops e (s, pool)) as [s' pool']. cbn [fst snd] in *.
  eapply R_trans; [exact H1|]. apply IH; [eapply R_I; eauto | exact H2].
Qed.

End KeepFacts.

Lemma keeps_trace (Sh : Type) (R : Sh -> Sh -> Prop) (A : Type) (envs : list Sh) :
  (forall s, R s s) ->
  forall p : prog Sh A,
    keeps (fun _ => True) R p ->
    Forall (fun x => R (fst x) (snd x)) (fst (trace p envs)).
Proof.
  intros Rr. induction envs as [|e es IH]; intros p H; [constructor|].
  rewrite trace_cons. cbn [fst].
  destruct (@keeps_step Sh (fun _ => True) R Rr A p e Logic.I H) as [H1 H2].
  constructor; [exact H1 | now apply IH].
Qed.

(** Symbolic execution of a lone caller, one action at a time. *)
Ltac exec_norm :=
  unfold read, write, atomic_increment, atomic_and, atomic_or, fetch_and_add,
    fetch_and_store, compare_and_swap, nanosleep, loop;
  cbn [bind].

Ltac exec_step :=
  exec_norm;
  lazymatch goal with
  | |- returns_in _ (Ret _) _ _ _ => apply returns_in_Ret
  | |- returns_in _ (Act _ _) _ _ _ => eapply returns_in_Act; cbn [fst snd]
  | |- returns_in _ (Loop _ _ _) _ _ _ => eapply returns_in_Loop; cbn [bind loop_next]
  end.

Ltac wait_step :=
  exec_norm;
  lazymatch goal with
  | |- waits_at _ (Act _ _) _ _ => eapply waits_at_Act; cbn [fst snd]
  | |- waits_at _ (Loop _ _ _) _ _ => eapply waits_at_Loop; cbn [bind loop_next]
  end.

Ltac steps_step :=
  exec_norm;
  lazymatch goal with
  | |- steps _ (Act _ _) _ = _ => eapply steps_Act_to; cbn [fst snd]
  | |- steps _ (Loop _ _ _) _ = _ => eapply steps_Loop_to; cbn [bind loop_next]
  end.

(** * The simple lock: facts *)

Lemma gint_wrap_shift (z : Z) : exists k, gint_wrap z = z + 4294967296 * k.
Proof.
  exists (- ((z - gint_min) / 2 ^ gint_bits)). unfold gint_wrap.
  rewrite Z.mod_eq by (unfold gint_bits; lia).
  change (2 ^ gint_bits) with 4294967296. lia.
Qed.

Lemma gint_wrap_id (z : Z) : in_gint z -> gint_wrap z = z.
Proof.
  unfold in_gint, gint_wrap, gint_min, gint_max, gint_bits.
  change (2 ^ (32 - 1)) with 2147483648. change (2 ^ 32) with 4294967296.
  intros H. rewrite Z.mod_small by lia. lia.
Qed.

Module SimpleFacts.
Import Simple.

Lemma word_store_same (p : gint) (v : gint) (s : segment) : load p (store p v s) = v.
Proof. simpl. now rewrite Z.eqb_refl. Qed.

Lemma word_store_other (p q : gint) (v : gint) (s : segment) :
  q <> p -> load q (store p v s) = load q s.
Proof. intros H. simpl. apply Z.eqb_neq in H. now rewrite H. Qed.

Lemma mod2_plus_even (a k : Z) : (a + 2 * k) mod 2 = a mod 2.
Proof. rewrite (Z.mul_comm 2 k). apply Z_mod_plus_full. Qed.

Lemma land_1_mod2 (x : Z) : Z.land x 1 = x mod 2.
Proof. apply (Z.land_ones x 1). lia. Qed.

(** Adding [RC_INCR] never touches the writer flag, wrap-around included. *)
Lemma waflag_after_incr (v : gint) :
  Z.land (gint_wrap (v + RC_INCR)) WAFLAG = Z.land v WAFLAG.
Proof.
  unfold WAFLAG, RC_INCR. rewrite !land_1_mod2.
  destruct (gint_wrap_shift (v + 2)) as [k ->].
  replace (v + 2 + 4294967296 * k) with (v + 2 * (1 + 2147483648 * k)) by lia.
  apply mod2_plus_even.
Qed.

Lemma waflag_cleared (v : gint) : Z.land (Z.land v (Z.lnot WAFLAG)) WAFLAG = 0.
Proof.
  rewrite <- Z.land_assoc. unfold WAFLAG. change (Z.land (Z.lnot 1) 1) with 0.
  apply Z.land_0_r.
Qed.

Ltac quiet_tac :=
  repeat (cbn [bind];
    first
      [ apply quiet_Ret
      | apply quiet_Act; [reflexivity | intros]
      | apply quiet_Loop; intros
      | match goal with
        | |- quiet (if ?c then _ else _) => destruct c
        | |- quiet (match ?r with _ => _ end) => destruct r
        end ]).

Lemma global_lock_store (p v : gint) (s : segment) :
  global_lock (store p v s) = global_lock s.
Proof. reflexivity. Qed.

Lemma sync_word_store (v : gint) (s : segment) :
  sync_word (store (global_lock s) v s) = v.
Proof. unfold sync_word. rewrite global_lock_store. apply word_store_same. Qed.

Section Facts.

Variable handle : Type.
Variable dbcheck : handle -> bool.

(** C3. Single reader: on a valid handle with sync word 0, [wg_start_read]
    returns a nonzero token and leaves the sync word at 2; the following
    [wg_end_read] leaves it at 0. *)
Theorem simple_read_round_trip (db : handle) (s : segment) :
  dbcheck db = true -> sync_word s = 0 ->
  exists s1 t s2,
    returns_in 3 (wg_start_read dbcheck db) s s1 t /\ t <> 0 /\ sync_word s1 = 2 /\
    returns_in 2 (wg_end_read dbcheck db t) s1 s2 1 /\ sync_word s2 = 0.
Proof.
  intros Hv H0. pose proof H0 as H0'. unfold sync_word in H0'.
  eexists _, 1, _. split; [|split; [|split; [|split]]].
  - unfold wg_start_read. rewrite Hv.
    cbn [negb bind read_global_lock fetch_and_add read].
    do 3 exec_step. rewrite word_store_same, H0'.
    change (Z.land (gint_wrap (0 + RC_INCR)) WAFLAG =? 0) with true.
    apply returns_in_Ret.
  - discriminate.
  - now rewrite sync_word_store.
  - unfold wg_end_read. rewrite Hv.
    cbn [negb bind read_global_lock fetch_and_add].
    do 2 exec_step. apply returns_in_Ret.
  - rewrite sync_word_store, global_lock_store, word_store_same. reflexivity.
Qed.

(** C4. Single writer: on a valid handle with sync word 0, [wg_start_write]
    returns a nonzero token and leaves the sync word at 1; the following
    [wg_end_write] leaves it at 0.  [wg_end_write] clears the writer flag
    from any prior state, validating nothing. *)
Theorem simple_write_round_trip (db : handle) (s : segment) :
  dbcheck db = true -> sync_word s = 0 ->
  (exists s1 t s2,
    returns_in 2 (wg_start_write dbcheck db) s s1 t /\ t <> 0 /\ sync_word s1 = 1 /\
    returns_in 2 (wg_end_write dbcheck db t) s1 s2 1 /\ sync_word s2 = 0) /\
  (forall (s' : segment) (lock : gint),
    let s'' := store (global_lock s') (Z.land (sync_word s') (Z.lnot WAFLAG)) s' in
    returns_in 2 (wg_end_write dbcheck db lock) s' s'' 1 /\
    sync_word s'' = Z.land (sync_word s') (Z.lnot WAFLAG) /\
    Z.land (sync_word s'') WAFLAG = 0).
Proof.
  intros Hv H0. pose proof H0 as H0'. unfold sync_word in H0'.
  assert (E : forall (s' : segment) (lock : gint),
    returns_in 2 (wg_end_write dbcheck db lock) s'
      (store (global_lock s') (Z.land (sync_word s') (Z.lnot WAFLAG)) s') 1).
  { intros s' lock. unfold wg_end_write. rewrite Hv.
    cbn [negb bind read_global_lock atomic_and].
    do 2 exec_step. apply returns_in_Ret. }
  split.
  - eexists _, 1, _. split; [|split; [|split; [|split]]].
    + unfold wg_start_write. rewrite Hv.
      cbn [negb bind read_global_lock compare_and_swap].
      do 2 exec_step. rewrite H0'. change (0 =? 0) with true. cbn [fst snd].
      change (truthy 1) with true. apply returns_in_Ret.
    + discriminate.
    + now rewrite sync_word_store.
    + apply E.
    + rewrite sync_word_store. rewrite sync_word_store. reflexivity.
  - intros s' lock s''. split; [apply E|]. unfold s''.
    rewrite sync_word_store. split; [reflexivity | apply waflag_cleared].
Qed.

(** C10. The simple releases never read their token: the programs for two
    tokens are the same program, and on a valid handle both make the same
    update of the sync word and return 1. *)
Theorem simple_release_ignores_token (db : handle) (t1 t2 : gint) (s : segment) :
  dbcheck db = true ->
  wg_end_write dbcheck db t1 = wg_end_write dbcheck db t2 /\
  wg_end_read dbcheck db t1 = wg_end_read dbcheck db t2 /\
  (forall t, returns_in 2 (wg_end_write dbcheck db t) s
     (store (global_lock s) (Z.land (sync_word s) (Z.lnot WAFLAG)) s) 1) /\
  (forall t, returns_in 2 (wg_end_read dbcheck db t) s
     (store (global_lock s) (gint_wrap (sync_word s + - RC_INCR)) s) 1).
Proof.
  intros Hv. split; [reflexivity | split; [reflexivity | split]]; intros t.
  - unfold wg_end_write. rewrite Hv. cbn [negb bind read_global_lock atomic_and].
    do 2 exec_step. apply returns_in_Ret.
  - unfold wg_end_read. rewrite Hv. cbn [negb bind read_global_lock fetch_and_add].
    do 2 exec_step. apply returns_in_Ret.
Qed.

End Facts.

Lemma simple_read_round_trip_witness :
  Scenario.any_handle tt = true /\ sync_word Scenario.fresh_segment = 0 /\
  exists s1 t s2,
    returns_in 3 (wg_start_read Scenario.any_handle tt) Scenario.fresh_segment s1 t /\ t <> 0 /\
    sync_word s1 = 2 /\
    returns_in 2 (wg_end_read Scenario.any_handle tt t) s1 s2 1 /\ sync_word s2 = 0.
Proof.
  split; [reflexivity | split; [reflexivity |]].
  apply (@simple_read_round_trip unit Scenario.any_handle tt
           Scenario.fresh_segment); reflexivity.
Defined.

Lemma simple_write_round_trip_witness :
  Scenario.any_handle tt = true /\ sync_word Scenario.fresh_segment = 0 /\
  exists s1 t s2,
    returns_in 2 (wg_start_write Scenario.any_handle tt) Scenario.fresh_segment s1 t /\
    t <> 0 /\ sync_word s1 = 1 /\
    returns_in 2 (wg_end_write Scenario.any_handle tt t) s1 s2 1 /\ sync_word s2 = 0.
Proof.
  split; [reflexivity | split; [reflexivity |]].
  apply (@simple_write_round_trip unit Scenario.any_handle tt
           Scenario.fresh_segment); reflexivity.
Defined.

Lemma simple_release_ignores_token_witness :
  Scenario.any_handle tt = true /\
  wg_end_write Scenario.any_handle tt 0 = wg_end_write Scenario.any_handle tt 12345 /\
  wg_end_read Scenario.any_handle tt 0 = wg_end_read Scenario.any_handle tt 12345.
Proof.
  split; [reflexivity |].
  pose proof (@simple_release_ignores_token unit Scenario.any_handle tt 0 12345
                Scenario.fresh_segment eq_refl) as H.
  split; apply H.
Defined.

End SimpleFacts.

(** * The simple lock: mutual exclusion *)

Module SimpleExclusion.
Import Simple.

Section Exclusion.

Variable handle : Type.
Variable dbcheck : handle -> bool.
Variable db : handle.
Variable g : gint.

Local Abbreviation rd_inc := (Simple.rd_inc dbcheck db g).
Local Abbreviation rd_chk := (Simple.rd_chk dbcheck db g).
Local Abbreviation wr_try := (Simple.wr_try dbcheck db g).
Local Abbreviation rel_rd := (Simple.rel_rd dbcheck db g).
Local Abbreviation rel_wr := (Simple.rel_wr dbcheck db g).
Local Abbreviation reader_enters := (Simple.reader_enters g).
Local Abbreviation writer_enters := (Simple.writer_enters g).
Local Abbreviation phase := (Simple.phase dbcheck db g).
Local Abbreviation inv := (Simple.inv dbcheck db g).

Hypothesis Hvalid : dbcheck db = true.

Lemma step_start_read (s : segment) :
  global_lock s = g -> step (wg_start_read dbcheck db) s = (s, rd_inc).
Proof.
  intros H. unfold Simple.rd_inc, wg_start_read. rewrite Hvalid. simpl. now rewrite H.
Qed.

Lemma step_rd_inc (s : segment) :
  step rd_inc s = (store g (gint_wrap (load g s + RC_INCR)) s, rd_chk).
Proof. unfold Simple.rd_chk, Simple.rd_inc, wg_start_read. rewrite Hvalid. reflexivity. Qed.

Lemma step_start_write (s : segment) :
  global_lock s = g -> step (wg_start_write dbcheck db) s = (s, wr_try).
Proof.
  intros H. unfold Simple.wr_try, wg_start_write. rewrite Hvalid. simpl. now rewrite H.
Qed.

Lemma step_end_read (s : segment) (t : gint) :
  global_lock s = g -> step (wg_end_read dbcheck db t) s = (s, rel_rd t).
Proof.
  intros H. unfold Simple.rel_rd, wg_end_read. rewrite Hvalid. simpl. now rewrite H.
Qed.

Lemma step_rel_rd (s : segment) (t : gint) :
  step (rel_rd t) s = (store g (gint_wrap (load g s + - RC_INCR)) s, Ret 1).
Proof. unfold Simple.rel_rd, wg_end_read. rewrite Hvalid. reflexivity. Qed.

Lemma step_end_write (s : segment) (t : gint) :
  global_lock s = g -> step (wg_end_write dbcheck db t) s = (s, rel_wr t).
Proof.
  intros H. unfold Simple.rel_wr, wg_end_write. rewrite Hvalid. simpl. now rewrite H.
Qed.

Lemma step_rel_wr (s : segment) (t : gint) :
  step (rel_wr t) s = (store g (Z.land (load g s) (Z.lnot WAFLAG)) s, Ret 1).
Proof. unfold Simple.rel_wr, wg_end_write. rewrite Hvalid. reflexivity. Qed.

Lemma safe_rd_chk : safe rd_chk reader_enters None.
Proof.
  unfold Simple.rd_chk, Simple.rd_inc, wg_start_read. rewrite Hvalid. simpl.
  split; [exact I|]. intros s.
  destruct (Z.land (word s g) WAFLAG =? 0) eqn:E; simpl.
  - split; [discriminate|]. exists s. split; [reflexivity|]. now apply Z.eqb_eq.
  - split; [reflexivity|]. intros ts. split; [exact I|]. intros i.
    destruct (i <? SPIN_COUNT); simpl.
    + split; [exact I|]. intros s1.
      destruct (Z.land (word s1 g) WAFLAG =? 0) eqn:E1; simpl.
      * split; [discriminate|]. exists s1. split; [reflexivity|]. now apply Z.eqb_eq.
      * reflexivity.
    + split; [exact I|]. intros s1. reflexivity.
Qed.

Lemma safe_wr_try : safe wr_try writer_enters None.
Proof.
  unfold Simple.wr_try, wg_start_write. rewrite Hvalid. simpl.
  split; [exact I|]. intros s.
  destruct (word s g =? 0) eqn:E; simpl.
  - split; [discriminate|]. exists s. split; [reflexivity|]. now apply Z.eqb_eq.
  - split; [reflexivity|]. intros ts. split; [exact I|]. intros i.
    destruct (i <? SPIN_COUNT); simpl.
    + split; [exact I|]. intros s1.
      destruct (word s1 g =? 0) eqn:E1; simpl.
      * split; [reflexivity|]. intros s2.
        destruct (word s2 g =? 0) eqn:E2; simpl.
        -- split; [discriminate|]. exists s2. split; [reflexivity|].
           now apply Z.eqb_eq.
        -- reflexivity.
      * reflexivity.
    + split; [exact I|]. intros s1. reflexivity.
Qed.

(** What a tally of contributions says about the callers. *)
Lemma phase_holds (st : status segment) (c : Z) :
  phase st c ->
  (c = 0 \/ c = 1 \/ c = 2) /\
  (holds Writer st = true -> c = 1) /\ (holds Reader st = true -> c = 2) /\
  (c = 1 -> holds Reader st = false).
Proof. intros H. destruct H; simpl; repeat split; auto; discriminate. Qed.

Lemma total_app (c1 c2 : list Z) (c : Z) :
  total (c1 ++ c :: c2) = total c1 + c + total c2.
Proof. induction c1 as [|a c1 IH]; simpl; [|rewrite IH]; lia. Qed.

Lemma ones_app (c1 c2 : list Z) (c : Z) :
  ones (c1 ++ c :: c2) = (ones c1 + (if (c =? 1)%Z then 1 else 0) + ones c2)%nat.
Proof.
  unfold ones. rewrite count_occ_app. simpl.
  destruct (Z.eq_dec c 1) as [->|N]; simpl; [lia|].
  apply Z.eqb_neq in N. rewrite N. lia.
Qed.

Lemma count_holding_app (k : lock_kind) (l1 l2 : list (status segment))
    (st : status segment) :
  count_holding k (l1 ++ st :: l2)
  = (count_holding k l1 + (if holds k st then 1 else 0) + count_holding k l2)%nat.
Proof.
  unfold count_holding. rewrite filter_app, length_app. simpl.
  destruct (holds k st); simpl; lia.
Qed.

Lemma total_cons (c : Z) (cs : list Z) : total (c :: cs) = c + total cs.
Proof. reflexivity. Qed.

Lemma ones_cons (c : Z) (cs : list Z) :
  ones (c :: cs) = ((if (c =? 1)%Z then 1 else 0) + ones cs)%nat.
Proof. apply (ones_app [] cs c). Qed.

Lemma count_holding_cons (k : lock_kind) (st : status segment)
    (l : list (status segment)) :
  count_holding k (st :: l) = ((if holds k st then 1 else 0) + count_holding k l)%nat.
Proof. apply (count_holding_app k [] l st). Qed.

Lemma phase_summary (l : list (status segment)) (cs : list Z) :
  Forall2 phase l cs ->
  exists k : nat,
    total cs = 2 * Z.of_nat k + Z.of_nat (ones cs) /\
    (count_holding Reader l <= k)%nat /\
    (count_holding Writer l <= ones cs)%nat /\
    (k + ones cs <= length l)%nat.
Proof.
  intros F. induction F as [|st c l cs P F (k & T & R & W & L)].
  - exists 0%nat. unfold total, ones, count_holding. simpl. repeat split; lia.
  - destruct (phase_holds P) as (C & HW & HR & HN).
    rewrite total_cons, ones_cons, !count_holding_cons. cbn [length].
    destruct C as [->|[->| ->]].
    + exists k. change (0 =? 1) with false.
      destruct (holds Reader st); [specialize (HR eq_refl); lia|].
      destruct (holds Writer st); [specialize (HW eq_refl); lia|]. lia.
    + exists k. change (1 =? 1) with true. rewrite (HN eq_refl).
      destruct (holds Writer st); lia.
    + exists (S k). change (2 =? 1) with false.
      destruct (holds Writer st); [specialize (HW eq_refl); lia|].
      destruct (holds Reader st); lia.
Qed.

Lemma set_status_app (l1 l2 : list (status segment)) (st st' : status segment) :
  set_status (length l1) st' (l1 ++ st :: l2) = l1 ++ st' :: l2.
Proof.
  unfold set_status. induction l1 as [|a l1 IH]; simpl; [reflexivity|].
  f_equal. exact IH.
Qed.

Lemma set_status_split (t : nat) (st : status segment) (pool : list (status segment)) :
  nth_error pool t = Some st ->
  exists l1 l2,
    pool = l1 ++ st :: l2 /\
    forall st', set_status t st' pool = l1 ++ st' :: l2.
Proof.
  intros H. destruct (nth_error_split pool t H) as (l1 & l2 & -> & L).
  exists l1, l2. split; [reflexivity|]. intros st'. subst t. apply set_status_app.
Qed.

Lemma Forall2_split (l1 l2 : list (status segment)) (st : status segment)
    (cs : list Z) :
  Forall2 phase (l1 ++ st :: l2) cs ->
  exists c1 c c2,
    cs = c1 ++ c :: c2 /\ Forall2 phase l1 c1 /\ phase st c /\ Forall2 phase l2 c2.
Proof.
  intros F. apply Forall2_app_inv_l in F. destruct F as (c1 & c2' & F1 & F2 & ->).
  inversion F2 as [|x c y c2 P F3]; subst. exists c1, c, c2. auto.
Qed.

Lemma land_clears_flag (k : Z) : Z.land (2 * k + 1) (Z.lnot WAFLAG) = 2 * k.
Proof.
  unfold WAFLAG. rewrite <- Z.ldiff_land. change 1 with (Z.ones 1) at 2.
  rewrite Z.ldiff_ones_r by lia.
  rewrite Z.shiftr_div_pow2, Z.shiftl_mul_pow2 by lia. change (2 ^ 1) with 2.
  replace (2 * k + 1) with (1 + k * 2) by lia.
  rewrite Z.div_add by lia. change (1 / 2) with 0. lia.
Qed.

Lemma flag_clear_no_writer (k : Z) (o : nat) :
  Z.land (2 * k + Z.of_nat o) WAFLAG = 0 -> (o <= 1)%nat -> o = 0%nat.
Proof.
  unfold WAFLAG. rewrite SimpleFacts.land_1_mod2. intros H Ho.
  rewrite Z.add_comm, Z.mul_comm, Z_mod_plus_full in H.
  destruct o as [|[|o]]; [reflexivity | discriminate | lia].
Qed.

(** The invariant, with the pool split at the caller that moves. *)
Lemma inv_intro (s' : segment) (l1 l2 : list (status segment)) (st' : status segment)
    (c1 c2 : list Z) (c' : Z) :
  global_lock s' = g ->
  Forall2 phase l1 c1 -> phase st' c' -> Forall2 phase l2 c2 ->
  load g s' = total c1 + c' + total c2 ->
  (ones c1 + (if (c' =? 1)%Z then 1 else 0) + ones c2 <= 1)%nat ->
  ((0 < count_holding Reader l1 + (if holds Reader st' then 1 else 0)
        + count_holding Reader l2)%nat ->
   (ones c1 + (if (c' =? 1)%Z then 1 else 0) + ones c2 = 0)%nat) ->
  inv (s', l1 ++ st' :: l2).
Proof.
  intros G F1 P F2 T O R. split; [exact G|]. exists (c1 ++ c' :: c2). simpl.
  rewrite total_app, ones_app, count_holding_app.
  repeat split; auto. apply Forall2_app; [exact F1 | constructor; auto].
Qed.

Lemma result_start_read : result (wg_start_read dbcheck db) = None.
Proof. unfold wg_start_read. rewrite Hvalid. reflexivity. Qed.

Lemma result_start_write : result (wg_start_write dbcheck db) = None.
Proof. unfold wg_start_write. rewrite Hvalid. reflexivity. Qed.

Lemma result_end_read (t : gint) : result (wg_end_read dbcheck db t) = None.
Proof. unfold wg_end_read. rewrite Hvalid. reflexivity. Qed.

Lemma result_end_write (t : gint) : result (wg_end_write dbcheck db t) = None.
Proof. unfold wg_end_write. rewrite Hvalid. reflexivity. Qed.

Lemma result_rd_inc : result rd_inc = None.
Proof. unfold Simple.rd_inc, wg_start_read. rewrite Hvalid. reflexivity. Qed.

Lemma result_rd_chk : result rd_chk = None.
Proof. unfold Simple.rd_chk, Simple.rd_inc, wg_start_read. rewrite Hvalid. reflexivity. Qed.

Lemma result_wr_try : result wr_try = None.
Proof. unfold Simple.wr_try, wg_start_write. rewrite Hvalid. reflexivity. Qed.

Lemma result_rel_rd (t : gint) : result (rel_rd t) = None.
Proof. unfold Simple.rel_rd, wg_end_read. rewrite Hvalid. reflexivity. Qed.

Lemma result_rel_wr (t : gint) : result (rel_wr t) = None.
Proof. unfold Simple.rel_wr, wg_end_write. rewrite Hvalid. reflexivity. Qed.

Local Opaque wg_start_read wg_end_read wg_start_write wg_end_write
  Simple.rd_inc Simple.rd_chk Simple.wr_try Simple.rel_rd Simple.rel_wr.

Ltac split_pool :=
  match goal with
  | E : nth_error ?pool ?t = Some ?st, F : Forall2 phase ?pool ?cs |- _ =>
      destruct (@set_status_split t st pool E) as (l1 & l2 & Epool & Hset);
      subst pool;
      destruct (@Forall2_split l1 l2 st cs F) as (c1 & c & c2 & Ecs & F1 & P & F2);
      subst cs;
      destruct (@phase_summary l1 c1 F1) as (k1 & T1 & R1 & W1 & L1);
      destruct (@phase_summary l2 c2 F2) as (k2 & T2 & R2 & W2 & L2)
  end.

Lemma gint_max_value : gint_max = 2147483647.
Proof. reflexivity. Qed.

Lemma gint_min_value : gint_min = -2147483648.
Proof. reflexivity. Qed.

Ltac tally :=
  cbn [holds] in *;
  change (0 =? 1) with false in *; change (1 =? 1) with true in *;
  change (2 =? 1) with false in *; cbv iota in *; try lia.

Lemma inv_fire (e : event) (s : segment) (pool : list (status segment)) :
  2 * Z.of_nat (length pool) <= gint_max ->
  inv (s, pool) -> inv (fire (ops dbcheck db) e (s, pool)).
Proof.
  intros B Hinv. pose proof Hinv as [G (cs & F & T & O & R)].
  cbn [fst snd] in G, F, T, O, R.
  rewrite gint_max_value in B.
  destruct e as [t k | t | t]; cbn [fire].
  - (* a call of an acquire *)
    destruct (nth_error pool t) as [st|] eqn:E; [|exact Hinv].
    destruct st as [|k0 p|k0 tok|k0 p]; try exact Hinv.
    split_pool. rewrite Hset.
    rewrite total_app in T; rewrite ones_app in O, R; rewrite count_holding_app in R.
    revert G; inversion P; subst; intros G.
    unfold settle_acquire.
    destruct k; cbn [acquire_of ops start_read start_write];
      rewrite ?result_start_read, ?result_start_write;
      (apply inv_intro with (c1 := c1) (c2 := c2) (c' := 0);
       [exact G | exact F1 | constructor | exact F2 | exact T | tally | tally]).
  - (* a call of a release *)
    destruct (nth_error pool t) as [st|] eqn:E; [|exact Hinv].
    destruct st as [|k0 p|k0 tok|k0 p]; try exact Hinv.
    split_pool. rewrite Hset.
    rewrite total_app in T; rewrite ones_app in O, R; rewrite count_holding_app in R.
    unfold settle_release.
    revert G; inversion P; subst; intros G; cbn [release_of ops end_read end_write];
      rewrite ?result_end_read, ?result_end_write.
    + apply inv_intro with (c1 := c1) (c2 := c2) (c' := 2);
        [exact G | exact F1 | constructor | exact F2 | exact T | tally | tally].
    + apply inv_intro with (c1 := c1) (c2 := c2) (c' := 1);
        [exact G | exact F1 | constructor | exact F2 | exact T | tally | tally].
  - (* a step inside a call *)
    destruct (nth_error pool t) as [st|] eqn:E; [|exact Hinv].
    destruct st as [|k0 p|k0 tok|k0 p]; try exact Hinv.
    + (* inside an acquire *)
      split_pool.
      rewrite total_app in T; rewrite ones_app in O, R; rewrite count_holding_app in R.
      rewrite length_app in B. cbn [length] in B.
      revert G;
        inversion P as [ | | | p0 o Hres Hsafe | | | | | p0 o Hres Hsafe | | | ]; subst;
        intros G.
      * rewrite (step_start_read s G), Hset. unfold settle_acquire.
        rewrite result_rd_inc.
        apply inv_intro with (c1 := c1) (c2 := c2) (c' := 0);
          [exact G | exact F1 | constructor | exact F2 | exact T | tally | tally].
      * rewrite step_rd_inc, Hset. unfold settle_acquire. rewrite result_rd_chk.
        apply inv_intro with (c1 := c1) (c2 := c2) (c' := 2);
          [exact G | exact F1 | | exact F2 | | tally | tally].
        -- eapply ph_rd_spin; [apply result_rd_chk | apply safe_rd_chk].
        -- rewrite SimpleFacts.word_store_same, T. unfold RC_INCR.
           rewrite gint_wrap_id; [lia|].
           unfold in_gint. rewrite gint_max_value, gint_min_value. lia.
      * pose proof (@safe_step _ _ p reader_enters o s Hres Hsafe) as Hs.
        destruct (step p s) as [s' p'] eqn:Es. cbn [fst snd] in Hs.
        rewrite Hset. unfold settle_acquire.
        destruct (result p') as [v|] eqn:Er.
        -- destruct Hs as [Hs | [Hs0 Hs]];
             (eapply safe_result in Hs; [|exact Er]);
             destruct Hs as [Hv (s0 & Eo & Hl)]; [|discriminate].
           inversion Eo; subst s0 s'.
           apply Z.eqb_neq in Hv. rewrite Hv.
           assert (Z0 : (ones c1 + ones c2)%nat = 0%nat).
           { apply (@flag_clear_no_writer (Z.of_nat k1 + Z.of_nat k2 + 1));
               [|tally]. rewrite <- Hl, T. f_equal. lia. }
           apply inv_intro with (c1 := c1) (c2 := c2) (c' := 2);
             [exact G | exact F1 | constructor | exact F2 | exact T | tally | tally].
        -- assert (s' = s /\ exists o', safe p' reader_enters o') as [-> [o' Hs']].
           { destruct Hs as [Hs | [Hs0 Hs]].
             - assert (St := Hs). eapply safe_settled in St; [|exact Er].
               simpl in St. eauto.
             - eauto. }
           apply inv_intro with (c1 := c1) (c2 := c2) (c' := 2);
             [exact G | exact F1 | | exact F2 | exact T | tally | tally].
           eapply ph_rd_spin; eauto.
      * rewrite (step_start_write s G), Hset. unfold settle_acquire.
        rewrite result_wr_try.
        apply inv_intro with (c1 := c1) (c2 := c2) (c' := 0);
          [exact G | exact F1 | | exact F2 | exact T | tally | tally].
        eapply ph_wr_spin; [apply result_wr_try | apply safe_wr_try].
      * pose proof (@safe_step _ _ p writer_enters o s Hres Hsafe) as Hs.
        destruct (step p s) as [s' p'] eqn:Es. cbn [fst snd] in Hs.
        rewrite Hset. unfold settle_acquire.
        destruct (result p') as [v|] eqn:Er.
        -- destruct Hs as [Hs | [Hs0 Hs]];
             (eapply safe_result in Hs; [|exact Er]);
             destruct Hs as [Hv (s0 & Eo & Hl)]; [|discriminate].
           inversion Eo; subst s0 s'.
           apply Z.eqb_neq in Hv. rewrite Hv.
           apply inv_intro with (c1 := c1) (c2 := c2) (c' := 1);
             [exact G | exact F1 | constructor | exact F2 | | tally | tally].
           cbn [load segment_mem word]. rewrite Z.eqb_refl.
           cbn [load segment_mem] in T, Hl. unfold WAFLAG. lia.
        -- assert (s' = s /\ exists o', safe p' writer_enters o') as [-> [o' Hs']].
           { destruct Hs as [Hs | [Hs0 Hs]].
             - assert (St := Hs). eapply safe_settled in St; [|exact Er].
               simpl in St. eauto.
             - eauto. }
           apply inv_intro with (c1 := c1) (c2 := c2) (c' := 0);
             [exact G | exact F1 | | exact F2 | exact T | tally | tally].
           eapply ph_wr_spin; eauto.
    + (* inside a release *)
      split_pool.
      rewrite total_app in T; rewrite ones_app in O, R; rewrite count_holding_app in R.
      rewrite length_app in B. cbn [length] in B.
      revert G; inversion P; subst; intros G.
      * rewrite (step_end_read s _ G), Hset. unfold settle_release.
        rewrite result_rel_rd.
        apply inv_intro with (c1 := c1) (c2 := c2) (c' := 2);
          [exact G | exact F1 | constructor | exact F2 | exact T | tally | tally].
      * rewrite step_rel_rd, Hset. unfold settle_release. cbn [result].
        apply inv_intro with (c1 := c1) (c2 := c2) (c' := 0);
          [exact G | exact F1 | constructor | exact F2 | | tally | tally].
        rewrite SimpleFacts.word_store_same, T. unfold RC_INCR.
        rewrite gint_wrap_id; [lia|].
        unfold in_gint. rewrite gint_max_value, gint_min_value. lia.
      * rewrite (step_end_write s _ G), Hset. unfold settle_release.
        rewrite result_rel_wr.
        apply inv_intro with (c1 := c1) (c2 := c2) (c' := 1);
          [exact G | exact F1 | constructor | exact F2 | exact T | tally | tally].
      * rewrite step_rel_wr, Hset. unfold settle_release. cbn [result].
        apply inv_intro with (c1 := c1) (c2 := c2) (c' := 0);
          [exact G | exact F1 | constructor | exact F2 | | tally | tally].
        rewrite SimpleFacts.word_store_same, T.
        replace (total c1 + 1 + total c2)
          with (2 * (Z.of_nat k1 + Z.of_nat k2) + 1) by tally.
        rewrite land_clears_flag. tally.
Qed.

Lemma fire_length (e : event) (c : segment * list (status segment)) :
  length (snd (fire (ops dbcheck db) e c)) = length (snd c).
Proof.
  destruct c as [s pool].
  destruct e as [t k | t | t]; cbn [fire];
    destruct (nth_error pool t) as [st|] eqn:E; try reflexivity;
    destruct (@set_status_split t st pool E) as (l1 & l2 & -> & Hset);
    destruct st; try reflexivity;
    try (destruct (step p s)); cbn [snd]; rewrite Hset, !length_app; reflexivity.
Qed.

Lemma inv_execute (sched : list event) :
  forall c, 2 * Z.of_nat (length (snd c)) <= gint_max -> inv c ->
            inv (execute (ops dbcheck db) sched c).
Proof.
  induction sched as [|e sched IH]; intros c B H; [exact H|].
  unfold execute. cbn [fold_left]. apply IH.
  - now rewrite fire_length.
  - destruct c as [s pool]. now apply inv_fire.
Qed.

Lemma inv_exclusive (c : segment * list (status segment)) :
  inv c -> mutual_exclusion (snd c).
Proof.
  intros [_ (cs & F & _ & O & R)].
  destruct (phase_summary F) as (k & _ & _ & W & _).
  split; [lia|]. intros H. specialize (R H). lia.
Qed.

Lemma idle_tally (n : nat) :
  Forall2 phase (repeat Idle n) (repeat 0 n) /\
  total (repeat 0 n) = 0 /\ ones (repeat 0 n) = 0%nat /\
  count_holding Reader (repeat (@Idle segment) n) = 0%nat.
Proof.
  induction n as [|n (F & T & O & C)]; cbn [repeat].
  - repeat split. constructor.
  - rewrite total_cons, ones_cons, count_holding_cons.
    repeat split; [constructor; [constructor | exact F] | tally ..].
Qed.

Lemma inv_idle (s : segment) (n : nat) :
  global_lock s = g -> load g s = 0 -> inv (s, repeat Idle n).
Proof.
  intros G L. destruct (idle_tally n) as (F & T & O & C).
  split; [exact G|]. exists (repeat 0 n). cbn [fst snd].
  repeat split; auto; lia.
Qed.

End Exclusion.

(** X1. Mutual exclusion of the simple lock: whatever the interleaving of
    callers that pair their calls on a valid handle, from a sync word 0, at
    most one caller is in a write critical section and none is while a
    caller is in a read critical section (the reader count of [n] callers
    fits a [gint]). *)
Theorem simple_mutual_exclusion (handle : Type) (dbcheck : handle -> bool)
    (db : handle) (s0 : segment) (n : nat) (sched : list event) :
  dbcheck db = true -> sync_word s0 = 0 -> 2 * Z.of_nat n <= gint_max ->
  mutual_exclusion (snd (execute (ops dbcheck db) sched (s0, repeat Idle n))).
Proof.
  intros Hv H0 Hn.
  apply (@inv_exclusive handle dbcheck db (global_lock s0)).
  apply inv_execute; [exact Hv | cbn [snd]; now rewrite repeat_length |].
  now apply inv_idle.
Qed.

Lemma simple_mutual_exclusion_witness :
  Scenario.any_handle tt = true /\ sync_word Scenario.fresh_segment = 0 /\
  2 * Z.of_nat 2 <= gint_max /\
  mutual_exclusion
    (snd (execute (ops Scenario.any_handle tt)
            (Call_start 0 Reader :: Scenario.runs 0 2 ++
             Call_start 1 Writer :: Scenario.runs 1 2 ++ Scenario.runs 0 1)
            (Scenario.fresh_segment, repeat Idle 2))).
Proof.
  split; [reflexivity | split; [reflexivity | split; [vm_compute; discriminate |]]].
  apply (@simple_mutual_exclusion unit Scenario.any_handle tt
           Scenario.fresh_segment 2);
    [reflexivity | reflexivity | vm_compute; discriminate].
Defined.

(** The callers do get in: two readers share the lock while a writer that
    arrived after them is still waiting; when both have released, the writer
    is let in. *)
Example simple_readers_share_writer_waits :
  let sched :=
    Call_start 0 Reader :: Scenario.runs 0 3 ++
    Call_start 1 Reader :: Scenario.runs 1 3 ++
    Call_start 2 Writer :: Scenario.runs 2 10 in
  let later :=
    sched ++ Call_end 0 :: Scenario.runs 0 2 ++ Call_end 1 :: Scenario.runs 1 2 ++
    Scenario.runs 2 4 in
  let start := (Scenario.fresh_segment, repeat Idle 3) in
  let inside (c : segment * list (status segment)) :=
    (sync_word (fst c), map (holds Reader) (snd c), map (holds Writer) (snd c)) in
  inside (execute (ops Scenario.any_handle tt) sched start)
    = (4, [true; true; false], [false; false; false]) /\
  inside (execute (ops Scenario.any_handle tt) later start)
    = (1, [false; false; false], [false; false; true]).
Proof. split; vm_compute; reflexivity. Qed.

End SimpleExclusion.


(** * The simple lock: one caller alone *)

Module SimpleAlone.
Import Simple.

Lemma gint_wrap_back (w d : Z) : in_gint w -> gint_wrap (gint_wrap (w + d) + - d) = w.
Proof.
  intros H. destruct (gint_wrap_shift (w + d)) as [k E].
  rewrite E. replace (w + d + 4294967296 * k + - d) with (w + 4294967296 * k) by lia.
  unfold gint_wrap. replace (w + 4294967296 * k - gint_min)
    with (w - gint_min + k * 2 ^ gint_bits)
    by (change (2 ^ gint_bits) with 4294967296; lia).
  rewrite Z_mod_plus_full. fold (gint_wrap w). now apply gint_wrap_id.
Qed.

Section Alone.

Variable handle : Type.
Variable dbcheck : handle -> bool.

Lemma start_write_frozen (db : handle) (s : segment) :
  dbcheck db = true -> sync_word s <> 0 ->
  frozen (wg_start_write dbcheck db) s (fun _ => False).
Proof.
  intros Hv Hw. unfold sync_word in Hw. cbn [load segment_mem] in Hw.
  apply Z.eqb_neq in Hw.
  unfold wg_start_write. rewrite Hv. simpl. split; [reflexivity|].
  rewrite Hw. simpl. split; [reflexivity|].
  intros ts i. destruct (i <? SPIN_COUNT); simpl; [|auto].
  split; [reflexivity|]. rewrite Hw. simpl. exact I.
Qed.

(** X2. A lone [wg_start_write] on a valid handle returns exactly when the
    sync word is 0.  While the word is not 0 (the writer flag is set or a
    reader is counted, waiting or not) it never returns and writes
    nothing: there is no timeout. *)
Theorem simple_start_write_returns_iff (db : handle) (s : segment) :
  dbcheck db = true ->
  (sync_word s <> 0 ->
   never_returns (wg_start_write dbcheck db) s /\
   rests_at 0 (wg_start_write dbcheck db) s s) /\
  ((exists s1 v, returns (wg_start_write dbcheck db) s s1 v) <-> sync_word s = 0).
Proof.
  intros Hv.
  assert (W : sync_word s <> 0 ->
              never_returns (wg_start_write dbcheck db) s /\
              rests_at 0 (wg_start_write dbcheck db) s s).
  { intros Hw. apply waits_at_alone. apply waits_at_frozen.
    now apply start_write_frozen. }
  split; [exact W|]. split.
  - intros (s1 & v & R). destruct (Z.eq_dec (sync_word s) 0) as [E|E]; [exact E|].
    destruct (W E) as [N _]. now elim (never_returns_not N R).
  - intros H0. unfold sync_word in H0. eexists _, 1. exists 2%nat.
    unfold wg_start_write. rewrite Hv.
    cbn [negb bind read_global_lock compare_and_swap].
    do 2 exec_step. rewrite H0. change (0 =? 0) with true. cbn [fst snd].
    change (truthy 1) with true. apply returns_in_Ret.
Qed.

Lemma start_read_waits (db : handle) (s : segment) :
  dbcheck db = true -> Z.land (sync_word s) WAFLAG <> 0 ->
  waits_at 2 (wg_start_read dbcheck db) s
    (store (global_lock s) (gint_wrap (sync_word s + RC_INCR)) s).
Proof.
  intros Hv Hw. unfold wg_start_read. rewrite Hv.
  cbn [negb bind read_global_lock fetch_and_add read].
  do 2 wait_step. apply waits_at_frozen. exec_norm.
  set (s1 := store (global_lock s) (gint_wrap (sync_word s + RC_INCR)) s).
  assert (B : (Z.land (load (global_lock s) s1) WAFLAG =? 0) = false).
  { apply Z.eqb_neq. unfold s1. rewrite SimpleFacts.word_store_same.
    now rewrite SimpleFacts.waflag_after_incr. }
  cbn [frozen fst snd bind]. split; [reflexivity|]. rewrite B. cbn [frozen].
  intros ts i. destruct (i <? SPIN_COUNT); cbn [frozen fst snd]; [|auto].
  split; [reflexivity|]. rewrite B. exact I.
Qed.

(** X3. A lone [wg_start_read] on a valid handle returns exactly when the
    writer flag of the sync word is clear.  While the flag is set it adds
    [RC_INCR] once and then never returns and writes nothing more. *)
Theorem simple_start_read_returns_iff (db : handle) (s : segment) :
  dbcheck db = true ->
  (Z.land (sync_word s) WAFLAG <> 0 ->
   never_returns (wg_start_read dbcheck db) s /\
   rests_at 2 (wg_start_read dbcheck db) s
     (store (global_lock s) (gint_wrap (sync_word s + RC_INCR)) s)) /\
  ((exists s1 v, returns (wg_start_read dbcheck db) s s1 v)
   <-> Z.land (sync_word s) WAFLAG = 0).
Proof.
  intros Hv.
  assert (W : Z.land (sync_word s) WAFLAG <> 0 ->
   never_returns (wg_start_read dbcheck db) s /\
   rests_at 2 (wg_start_read dbcheck db) s
     (store (global_lock s) (gint_wrap (sync_word s + RC_INCR)) s)).
  { intros Hw. apply waits_at_alone. now apply start_read_waits. }
  split; [exact W|]. split.
  - intros (s1 & v & R).
    destruct (Z.eq_dec (Z.land (sync_word s) WAFLAG) 0) as [E|E]; [exact E|].
    destruct (W E) as [N _]. now elim (never_returns_not N R).
  - intros H0. eexists _, 1. exists 3%nat.
    unfold wg_start_read. rewrite Hv.
    cbn [negb bind read_global_lock fetch_and_add read].
    do 3 exec_step. rewrite SimpleFacts.word_store_same.
    fold (sync_word s). rewrite SimpleFacts.waflag_after_incr, H0.
    change (0 =? 0) with true. apply returns_in_Ret.
Qed.

(** X4. A read section restores the segment: from any sync word in range
    whose writer flag is clear, [wg_start_read] returns 1 with the word
    increased by [RC_INCR] (wrapping around at the largest [gint]), and the
    following [wg_end_read] returns 1 and leaves every word of the segment,
    the sync word included, as it was before the pair. *)
Theorem simple_read_round_trip_restores (db : handle) (s : segment) :
  dbcheck db = true -> in_gint (sync_word s) -> Z.land (sync_word s) WAFLAG = 0 ->
  exists s1 s2,
    returns_in 3 (wg_start_read dbcheck db) s s1 1 /\
    sync_word s1 = gint_wrap (sync_word s + RC_INCR) /\
    returns_in 2 (wg_end_read dbcheck db 1) s1 s2 1 /\
    global_lock s2 = global_lock s /\ forall p, load p s2 = load p s.
Proof.
  intros Hv Hr H0. eexists _, _. split; [|split; [|split; [|split]]].
  - unfold wg_start_read. rewrite Hv.
    cbn [negb bind read_global_lock fetch_and_add read].
    do 3 exec_step. rewrite SimpleFacts.word_store_same.
    fold (sync_word s). rewrite SimpleFacts.waflag_after_incr, H0.
    change (0 =? 0) with true. apply returns_in_Ret.
  - now rewrite SimpleFacts.sync_word_store.
  - unfold wg_end_read. rewrite Hv.
    cbn [negb bind read_global_lock fetch_and_add].
    do 2 exec_step. apply returns_in_Ret.
  - reflexivity.
  - intros p. rewrite !SimpleFacts.global_lock_store.
    destruct (Z.eq_dec p (global_lock s)) as [->|N].
    + rewrite !SimpleFacts.word_store_same. fold (sync_word s).
      now apply gint_wrap_back.
    + now rewrite !SimpleFacts.word_store_other by exact N.
Qed.

(** X7. An unpaired [wg_end_read]: the count is not checked, so from a
    free lock the sync word goes to -2.  Writers are then locked out, and
    the next reader brings the word back to 0 while it holds the read lock,
    so that a writer gets in during its read section. *)
Theorem simple_unpaired_end_read (db : handle) (s : segment) (t : gint) :
  dbcheck db = true -> sync_word s = 0 ->
  exists s1 s2 s3,
    returns_in 2 (wg_end_read dbcheck db t) s s1 1 /\ sync_word s1 = -2 /\
    never_returns (wg_start_write dbcheck db) s1 /\
    returns_in 3 (wg_start_read dbcheck db) s1 s2 1 /\ sync_word s2 = 0 /\
    returns_in 2 (wg_start_write dbcheck db) s2 s3 1 /\ sync_word s3 = WAFLAG.
Proof.
  intros Hv H0.
  set (s1 := store (global_lock s) (gint_wrap (sync_word s + - RC_INCR)) s).
  assert (E1 : sync_word s1 = -2).
  { unfold s1. rewrite SimpleFacts.sync_word_store, H0. reflexivity. }
  set (s2 := store (global_lock s1) (gint_wrap (sync_word s1 + RC_INCR)) s1).
  assert (E2 : sync_word s2 = 0).
  { unfold s2. rewrite SimpleFacts.sync_word_store, E1. reflexivity. }
  exists s1, s2, (store (global_lock s2) WAFLAG s2).
  split; [|split; [exact E1|split; [|split; [|split; [exact E2|split]]]]].
  - unfold wg_end_read. rewrite Hv. cbn [negb bind read_global_lock fetch_and_add].
    do 2 exec_step. apply returns_in_Ret.
  - apply waits_at_alone with (n := 0%nat) (s1 := s1). apply waits_at_frozen.
    apply start_write_frozen; [exact Hv|]. rewrite E1. discriminate.
  - unfold wg_start_read. rewrite Hv.
    cbn [negb bind read_global_lock fetch_and_add read].
    do 3 exec_step. rewrite SimpleFacts.word_store_same.
    fold (sync_word s1).
    replace (Z.land (gint_wrap (sync_word s1 + RC_INCR)) WAFLAG =? 0) with true
      by (rewrite SimpleFacts.waflag_after_incr, E1; reflexivity).
    apply returns_in_Ret.
  - unfold wg_start_write. rewrite Hv.
    cbn [negb bind read_global_lock compare_and_swap].
    do 2 exec_step. fold (sync_word s2).
    replace (sync_word s2 =? 0) with true by (rewrite E2; reflexivity).
    cbn [fst snd]. change (truthy 1) with true. apply returns_in_Ret.
  - apply SimpleFacts.sync_word_store.
Qed.

End Alone.

Lemma simple_start_write_returns_iff_witness :
  Scenario.any_handle tt = true /\
  never_returns (wg_start_write Scenario.any_handle tt) Scenario.write_locked.
Proof.
  split; [reflexivity|].
  apply (@simple_start_write_returns_iff unit Scenario.any_handle tt
           Scenario.write_locked eq_refl). vm_compute. discriminate.
Defined.

Lemma simple_start_read_returns_iff_witness :
  Scenario.any_handle tt = true /\
  never_returns (wg_start_read Scenario.any_handle tt) Scenario.write_locked.
Proof.
  split; [reflexivity|].
  apply (@simple_start_read_returns_iff unit Scenario.any_handle tt
           Scenario.write_locked eq_refl). vm_compute. discriminate.
Defined.

Lemma simple_read_round_trip_restores_witness :
  Scenario.any_handle tt = true /\ in_gint (sync_word Scenario.fresh_segment) /\
  Z.land (sync_word Scenario.fresh_segment) WAFLAG = 0 /\
  exists s1 s2,
    returns_in 3 (wg_start_read Scenario.any_handle tt) Scenario.fresh_segment s1 1 /\
    sync_word s1 = gint_wrap (sync_word Scenario.fresh_segment + RC_INCR) /\
    returns_in 2 (wg_end_read Scenario.any_handle tt 1) s1 s2 1 /\
    global_lock s2 = global_lock Scenario.fresh_segment /\
    forall p, load p s2 = load p Scenario.fresh_segment.
Proof.
  assert (R : in_gint (sync_word Scenario.fresh_segment))
    by (split; vm_compute; discriminate).
  split; [reflexivity | split; [exact R | split; [reflexivity|]]].
  apply (@simple_read_round_trip_restores unit Scenario.any_handle tt
           Scenario.fresh_segment eq_refl R eq_refl).
Defined.

Lemma simple_unpaired_end_read_witness :
  Scenario.any_handle tt = true /\ sync_word Scenario.fresh_segment = 0 /\
  exists s1 s2 s3,
    returns_in 2 (wg_end_read Scenario.any_handle tt 0) Scenario.fresh_segment s1 1 /\
    sync_word s1 = -2 /\
    never_returns (wg_start_write Scenario.any_handle tt) s1 /\
    returns_in 3 (wg_start_read Scenario.any_handle tt) s1 s2 1 /\ sync_word s2 = 0 /\
    returns_in 2 (wg_start_write Scenario.any_handle tt) s2 s3 1 /\
    sync_word s3 = WAFLAG.
Proof.
  split; [reflexivity | split; [reflexivity|]].
  apply (@simple_unpaired_end_read unit Scenario.any_handle tt
           Scenario.fresh_segment 0 eq_refl eq_refl).
Defined.

End SimpleAlone.

(** * The simple lock: what every interleaving keeps *)

Module SimpleAccounting.
Import Simple.

Lemma execute_length (handle : Type) (dbcheck : handle -> bool) (db : handle)
    (sched : list event) :
  dbcheck db = true ->
  forall c, length (snd (execute (ops dbcheck db) sched c)) = length (snd c).
Proof.
  intros Hv. induction sched as [|e sched IH]; intros c; [reflexivity|].
  change (execute (ops dbcheck db) (e :: sched) c)
    with (execute (ops dbcheck db) sched (fire (ops dbcheck db) e c)).
  rewrite IH. now apply SimpleExclusion.fire_length.
Qed.

Lemma idle_total (handle : Type) (dbcheck : handle -> bool) (db : handle) (g : gint)
    (l : list (status segment)) (cs : list Z) :
  Forall2 (phase dbcheck db g) l cs -> Forall (fun st => st = Idle) l -> total cs = 0.
Proof.
  intros F. induction F as [|st c l cs P F IH]; intros A; [reflexivity|].
  inversion A as [|? ? E A']; subst. inversion P; subst.
  rewrite SimpleExclusion.total_cons. rewrite IH by exact A'. reflexivity.
Qed.

(** X5. What the sync word counts: whatever the interleaving of [n]
    callers that pair their calls on a valid handle, from a sync word 0,
    the word is never negative and never above [2 * n]; it counts at
    least [RC_INCR] for every caller in a read section and [WAFLAG] for a
    caller in a write section; its writer flag is clear while a caller is
    in a read section; and it is 0 again whenever every caller is idle. *)
Theorem simple_sync_word_accounts (handle : Type) (dbcheck : handle -> bool)
    (db : handle) (s0 : segment) (n : nat) (sched : list event) :
  dbcheck db = true -> sync_word s0 = 0 -> 2 * Z.of_nat n <= gint_max ->
  let c := execute (ops dbcheck db) sched (s0, repeat Idle n) in
  global_lock (fst c) = global_lock s0 /\
  2 * Z.of_nat (count_holding Reader (snd c)) + Z.of_nat (count_holding Writer (snd c))
    <= sync_word (fst c) <= 2 * Z.of_nat n /\
  ((0 < count_holding Reader (snd c))%nat -> Z.land (sync_word (fst c)) WAFLAG = 0) /\
  (Forall (fun st => st = Idle) (snd c) -> sync_word (fst c) = 0).
Proof.
  intros Hv H0 Hn c.
  assert (Hinv : inv dbcheck db (global_lock s0) c).
  { apply SimpleExclusion.inv_execute;
      [exact Hv | cbn [snd]; now rewrite repeat_length |].
    now apply SimpleExclusion.inv_idle. }
  assert (L : length (snd c) = n).
  { unfold c. rewrite execute_length by exact Hv. cbn [snd]. apply repeat_length. }
  destruct Hinv as [G (cs & F & T & O & R)].
  destruct (SimpleExclusion.phase_summary F) as (k & Tk & Rk & Wk & Lk).
  unfold sync_word. rewrite G, T, Tk. split; [reflexivity|]. split; [lia|]. split.
  - intros H. rewrite (R H). unfold WAFLAG. rewrite SimpleFacts.land_1_mod2.
    replace (2 * Z.of_nat k + Z.of_nat 0) with (0 + Z.of_nat k * 2) by lia.
    now rewrite Z_mod_plus_full.
  - intros A. rewrite <- Tk. now apply (idle_total F).
Qed.

Lemma simple_sync_word_accounts_witness :
  Scenario.any_handle tt = true /\ sync_word Scenario.fresh_segment = 0 /\
  2 * Z.of_nat 2 <= gint_max /\
  let c := execute (ops Scenario.any_handle tt)
             (Call_start 0 Reader :: Scenario.runs 0 3 ++
              Call_start 1 Reader :: Scenario.runs 1 3 ++
              Call_end 0 :: Scenario.runs 0 1)
             (Scenario.fresh_segment, repeat Idle 2) in
  2 * Z.of_nat (count_holding Reader (snd c)) + Z.of_nat (count_holding Writer (snd c))
    <= sync_word (fst c) <= 2 * Z.of_nat 2.
Proof.
  split; [reflexivity | split; [reflexivity | split; [vm_compute; discriminate |]]].
  apply (@simple_sync_word_accounts unit Scenario.any_handle tt
           Scenario.fresh_segment 2);
    [reflexivity | reflexivity | vm_compute; discriminate].
Defined.

End SimpleAccounting.

Module SimpleFrame.
Import Simple.

Lemma only_sync_word_store (g v : gint) (s : segment) :
  only_sync_word g s (store g v s).
Proof.
  split; [reflexivity|]. intros p H. now apply SimpleFacts.word_store_other.
Qed.

Lemma only_sync_word_refl (g : gint) (s : segment) : only_sync_word g s s.
Proof. split; auto. Qed.

Section Frame.

Variable handle : Type.
Variable dbcheck : handle -> bool.
Variable db : handle.
Variable g : gint.

Local Abbreviation ok := (keeps (fun s : segment => global_lock s = g) (only_sync_word g)).

Ltac simple_keeps_tac :=
  repeat (cbn [keeps bind fst snd];
    first
      [ exact Logic.I
      | apply only_sync_word_refl
      | apply only_sync_word_store
      | match goal with
        | |- _ /\ _ => split
        | |- forall _, _ => intro
        | |- context [if ?c then _ else _] => destruct c
        | |- context [match ?r with Some _ => _ | None => _ end] => destruct r
        end ]).

Lemma simple_keeps_start_write : ok (wg_start_write dbcheck db).
Proof.
  unfold wg_start_write. destruct (dbcheck db); cbn [negb]; [|exact Logic.I].
  exec_norm. unfold read_global_lock. cbn [keeps bind fst snd].
  intros s Hs. rewrite Hs. split; [apply only_sync_word_refl|]. simple_keeps_tac.
Qed.

Lemma simple_keeps_start_read : ok (wg_start_read dbcheck db).
Proof.
  unfold wg_start_read. destruct (dbcheck db); cbn [negb]; [|exact Logic.I].
  exec_norm. unfold read_global_lock. cbn [keeps bind fst snd].
  intros s Hs. rewrite Hs. split; [apply only_sync_word_refl|]. simple_keeps_tac.
Qed.

Lemma simple_keeps_end_write (t : gint) : ok (wg_end_write dbcheck db t).
Proof.
  unfold wg_end_write. destruct (dbcheck db); cbn [negb]; [|exact Logic.I].
  exec_norm. unfold read_global_lock. cbn [keeps bind fst snd].
  intros s Hs. rewrite Hs. split; [apply only_sync_word_refl|]. simple_keeps_tac.
Qed.

Lemma simple_keeps_end_read (t : gint) : ok (wg_end_read dbcheck db t).
Proof.
  unfold wg_end_read. destruct (dbcheck db); cbn [negb]; [|exact Logic.I].
  exec_norm. unfold read_global_lock. cbn [keeps bind fst snd].
  intros s Hs. rewrite Hs. split; [apply only_sync_word_refl|]. simple_keeps_tac.
Qed.

End Frame.

(** X6. The simple lock touches nothing but the sync word: whatever the
    handle (valid or not), the segment, the number of callers and the
    interleaving of their calls, the header field [global_lock] and every
    word other than the sync word are as they were. *)
Theorem simple_touches_only_sync_word (handle : Type) (dbcheck : handle -> bool)
    (db : handle) (s0 : segment) (n : nat) (sched : list event) :
  let c := execute (ops dbcheck db) sched (s0, repeat Idle n) in
  global_lock (fst c) = global_lock s0 /\
  forall p, p <> global_lock s0 -> load p (fst c) = load p s0.
Proof.
  apply (@keeps_execute segment (fun s => global_lock s = global_lock s0)
           (only_sync_word (global_lock s0))).
  - apply only_sync_word_refl.
  - intros s1 s2 s3 [A1 B1] [A2 B2]. split; [congruence|].
    intros p H. rewrite B2 by exact H. now apply B1.
  - intros s s' Hs [A _]. congruence.
  - intros [|]; [apply simple_keeps_start_read | apply simple_keeps_start_write].
  - intros [|] t; [apply simple_keeps_end_read | apply simple_keeps_end_write].
  - reflexivity.
  - apply Forall_repeat_idle. exact Logic.I.
Qed.

End SimpleFrame.

(** * The simple lock: reader preference *)

Module SimplePreference.
Import Simple.

Lemma rd_spinning_result (gl : gint) (p : prog segment gint) :
  rd_spinning gl p -> result p = None.
Proof.
  intros H. destruct H as [ts | ts i | ts i]; try reflexivity.
  unfold rd_spin_inner. destruct (i <? SPIN_COUNT); reflexivity.
Qed.

Lemma rd_spinning_step (gl : gint) (p : prog segment gint) (s : segment) :
  Z.land (load gl s) WAFLAG <> 0 -> rd_spinning gl p ->
  fst (step p s) = s /\ rd_spinning gl (snd (step p s)).
Proof.
  intros Hb H. apply Z.eqb_neq in Hb. destruct H as [ts | ts i | ts i].
  - split; [reflexivity|]. apply (rsp_inner gl ts 0).
  - split; [reflexivity|]. apply (rsp_look gl ts i).
  - unfold rd_spin_inner. destruct (i <? SPIN_COUNT) eqn:Ei.
    + cbn [bind read step fst snd]. split; [reflexivity|]. rewrite Hb.
      apply (rsp_inner gl ts (i + 1)).
    + cbn. split; [reflexivity|]. apply (rsp_outer gl (ts + SLEEP_NSEC)).
Qed.

Lemma rd_spinning_steps (gl : gint) (s : segment) (m : nat) :
  forall p : prog segment gint,
    Z.land (load gl s) WAFLAG <> 0 -> rd_spinning gl p ->
    fst (steps m p s) = s /\ rd_spinning gl (snd (steps m p s)).
Proof.
  induction m as [|m IH]; intros p Hb H; [split; [reflexivity | exact H]|].
  destruct (@rd_spinning_step gl p s Hb H) as [E H'].
  simpl. destruct (step p s) as [s' p']. simpl in *. subst s'. now apply IH.
Qed.

Lemma rd_spinning_exit (gl : gint) (p : prog segment gint) (s : segment) :
  Z.land (load gl s) WAFLAG = 0 -> rd_spinning gl p ->
  exists j, (j <= 5)%nat /\ steps j p s = (s, Ret 1).
Proof.
  intros Hu H. apply Z.eqb_eq in Hu.
  assert (O : forall ts, steps 3 (Loop (rd_spin_outer gl) ts Ret) s = (s, Ret 1)).
  { intros ts. rewrite steps_Loop.
    change (bind (rd_spin_outer gl ts) (loop_next (rd_spin_outer gl) Ret))
      with (Loop (rd_spin_inner gl) 0
              (fun r => bind (rd_spin_pass ts r) (loop_next (rd_spin_outer gl) Ret))).
    rewrite steps_Loop. unfold rd_spin_inner. change (0 <? SPIN_COUNT) with true.
    cbv iota. cbn [bind read steps step fst snd]. rewrite Hu. reflexivity. }
  destruct H as [ts | ts i | ts i].
  - exists 3%nat. split; [lia | apply O].
  - destruct (i <? SPIN_COUNT) eqn:Ei.
    + exists 2%nat. split; [lia|]. rewrite steps_Loop. unfold rd_spin_inner. rewrite Ei.
      cbn [bind read steps step fst snd]. rewrite Hu. reflexivity.
    + exists 5%nat. split; [lia|]. rewrite steps_Loop. unfold rd_spin_inner at 1.
      rewrite Ei. change (steps 4 ?p s) with (steps 3 (snd (step p s)) (fst (step p s))).
      cbn [bind loop_next rd_spin_pass nanosleep step fst snd]. apply O.
  - destruct (i <? SPIN_COUNT) eqn:Ei.
    + exists 1%nat. split; [lia|]. unfold rd_spin_inner. rewrite Ei.
      cbn [bind read steps step fst snd]. rewrite Hu. reflexivity.
    + exists 4%nat. split; [lia|]. unfold rd_spin_inner at 1. rewrite Ei.
      change (steps 4 ?p s) with (steps 3 (snd (step p s)) (fst (step p s))).
      cbn [bind loop_next rd_spin_pass nanosleep step fst snd]. apply O.
Qed.

Section Preference.

Variable handle : Type.
Variable dbcheck : handle -> bool.

(** A reader that finds the writer flag set counts itself and starts to
    spin. *)
Lemma simple_start_read_parks (db : handle) (s : segment) :
  dbcheck db = true -> Z.land (sync_word s) WAFLAG <> 0 ->
  steps 3 (wg_start_read dbcheck db) s
  = (store (global_lock s) (gint_wrap (sync_word s + RC_INCR)) s,
     Loop (rd_spin_outer (global_lock s)) SLEEP_NSEC Ret).
Proof.
  intros Hv Hw. unfold wg_start_read. rewrite Hv.
  cbn [negb bind read_global_lock fetch_and_add read].
  do 3 steps_step. rewrite SimpleFacts.word_store_same. fold (sync_word s).
  replace (Z.land (gint_wrap (sync_word s + RC_INCR)) WAFLAG =? 0) with false.
  - reflexivity.
  - symmetry. apply Z.eqb_neq. now rewrite SimpleFacts.waflag_after_incr.
Qed.

(** A writer that has started waits, and goes on waiting, on any segment
    whose sync word is not 0. *)
Lemma waiting_writer_locked_out (db : handle) (s s' : segment) (m : nat) :
  dbcheck db = true -> sync_word s <> 0 ->
  global_lock s' = global_lock s -> sync_word s' <> 0 ->
  never_returns (snd (steps m (wg_start_write dbcheck db) s)) s'.
Proof.
  intros Hv Hw Hg Hw'.
  set (g := global_lock s).
  assert (HQ : forall v o, writer_enters g v o ->
            exists s0 s0', o = Some (s0, s0') /\ load g s0 = 0).
  { intros v o (_ & s0 & Eo & H0). eauto. }
  destruct m as [|m].
  - simpl. apply waits_at_alone with (n := 0%nat) (s1 := s'). apply waits_at_frozen.
    now apply SimpleAlone.start_write_frozen.
  - change (steps (S m) (wg_start_write dbcheck db) s)
      with (let (s1, p1) := step (wg_start_write dbcheck db) s in steps m p1 s1).
    rewrite (@SimpleExclusion.step_start_write handle dbcheck db g Hv s eq_refl).
    destruct (@safe_blocked segment gint (writer_enters g) (fun s0 => load g s0 = 0)
                s HQ Hw m (wr_try dbcheck db g) None
                (@SimpleExclusion.result_wr_try handle dbcheck db g Hv)
                (@SimpleExclusion.safe_wr_try handle dbcheck db g Hv))
      as (_ & Hr & o' & Hs).
    assert (Hw'' : load g s' <> 0) by (unfold g; rewrite <- Hg; exact Hw').
    apply waits_at_alone with (n := 0%nat) (s1 := s'). intros n _.
    destruct (@safe_blocked segment gint (writer_enters g) (fun s0 => load g s0 = 0)
                s' HQ Hw'' n _ o' Hr Hs) as (A & B & _).
    split; assumption.
Qed.

(** X25. Reader preference.  While a writer holds the lock, a reader's
    [wg_start_read] counts itself and spins, and a second writer's
    [wg_start_write] waits.  After the holder's [wg_end_write] the sync
    word is [RC_INCR]: the waiting reader, from whatever point of its spin
    it is at, returns 1 within 5 steps, whereas the waiting writer, from
    whatever point of its own spin, stays locked out. *)
Theorem simple_reader_preference (db : handle) (s : segment) :
  dbcheck db = true -> sync_word s = 0 ->
  exists s1 s2 s3,
    returns_in 2 (wg_start_write dbcheck db) s s1 1 /\ sync_word s1 = WAFLAG /\
    (forall m, (3 <= m)%nat ->
       fst (steps m (wg_start_read dbcheck db) s1) = s2 /\
       result (snd (steps m (wg_start_read dbcheck db) s1)) = None) /\
    sync_word s2 = 3 /\
    (forall m,
       fst (steps m (wg_start_write dbcheck db) s2) = s2 /\
       result (snd (steps m (wg_start_write dbcheck db) s2)) = None) /\
    returns_in 2 (wg_end_write dbcheck db 1) s2 s3 1 /\ sync_word s3 = RC_INCR /\
    (forall m, never_returns (snd (steps m (wg_start_write dbcheck db) s2)) s3) /\
    (forall m, (3 <= m)%nat ->
       returns_in 5 (snd (steps m (wg_start_read dbcheck db) s1)) s3 s3 1).
Proof.
  intros Hv H0.
  set (s1 := store (global_lock s) WAFLAG s).
  assert (E1 : sync_word s1 = WAFLAG) by apply SimpleFacts.sync_word_store.
  set (s2 := store (global_lock s1) (gint_wrap (sync_word s1 + RC_INCR)) s1).
  assert (E2 : sync_word s2 = 3).
  { unfold s2. rewrite SimpleFacts.sync_word_store, E1. reflexivity. }
  set (s3 := store (global_lock s2) (Z.land (sync_word s2) (Z.lnot WAFLAG)) s2).
  assert (E3 : sync_word s3 = RC_INCR).
  { unfold s3. rewrite SimpleFacts.sync_word_store, E2. reflexivity. }
  assert (W1 : Z.land (sync_word s1) WAFLAG <> 0) by (rewrite E1; discriminate).
  assert (P : forall m, (3 <= m)%nat ->
            fst (steps m (wg_start_read dbcheck db) s1) = s2 /\
            rd_spinning (global_lock s1) (snd (steps m (wg_start_read dbcheck db) s1))).
  { intros m Hm. replace m with (3 + (m - 3))%nat by lia.
    rewrite steps_add, (@simple_start_read_parks db s1 Hv W1). cbn [fst snd].
    apply rd_spinning_steps; [|apply rsp_outer].
    fold s2. change (load (global_lock s1) s2) with (sync_word s2).
    rewrite E2. discriminate. }
  exists s1, s2, s3. split; [|split; [exact E1|]].
  { unfold wg_start_write. rewrite Hv.
    cbn [negb bind read_global_lock compare_and_swap].
    do 2 exec_step. fold (sync_word s).
    replace (sync_word s =? 0) with true by (rewrite H0; reflexivity).
    cbn [fst snd]. change (truthy 1) with true. apply returns_in_Ret. }
  split.
  { intros m Hm. destruct (P m Hm) as [A B].
    split; [exact A | exact (@rd_spinning_result _ _ B)]. }
  split; [exact E2|]. split.
  { intros m. apply frozen_waits. apply SimpleAlone.start_write_frozen; [exact Hv|].
    rewrite E2. discriminate. }
  split.
  { unfold wg_end_write. rewrite Hv. cbn [negb bind read_global_lock atomic_and].
    do 2 exec_step. apply returns_in_Ret. }
  split; [exact E3|]. split.
  { intros m. apply waiting_writer_locked_out; [exact Hv | | reflexivity |].
    - rewrite E2. discriminate.
    - rewrite E3. discriminate. }
  intros m Hm. destruct (P m Hm) as [_ B].
  assert (U : Z.land (load (global_lock s1) s3) WAFLAG = 0).
  { change (load (global_lock s1) s3) with (sync_word s3). rewrite E3. reflexivity. }
  destruct (@rd_spinning_exit (global_lock s1) _ s3 U B) as (j & Hj & E).
  apply returns_in_le with (n := (j + 0)%nat); [|lia].
  apply returns_in_steps. rewrite E. apply returns_in_Ret.
Qed.

End Preference.

Lemma simple_reader_preference_witness :
  Scenario.any_handle tt = true /\ sync_word Scenario.fresh_segment = 0 /\
  exists s1 s2 s3,
    returns_in 2 (wg_end_write Scenario.any_handle tt 1) s2 s3 1 /\
    never_returns (snd (steps 20 (wg_start_write Scenario.any_handle tt) s2)) s3 /\
    returns_in 5 (snd (steps 20 (wg_start_read Scenario.any_handle tt) s1)) s3 s3 1.
Proof.
  split; [reflexivity | split; [reflexivity|]].
  destruct (@simple_reader_preference unit Scenario.any_handle tt
              Scenario.fresh_segment eq_refl eq_refl)
    as (s1 & s2 & s3 & _ & _ & _ & _ & _ & H1 & _ & H2 & H3).
  exists s1, s2, s3. split; [exact H1|]. split; [apply H2 | apply H3; lia].
Defined.

End SimplePreference.

(** * The simple lock: a reader among other callers *)

Module SimpleReader.
Import Simple.

Lemma rd_wait_quiet (gl : gint) : quiet (rd_wait gl).
Proof.
  unfold rd_wait, rd_spin_outer, rd_spin_inner, rd_spin_pass, read, nanosleep, loop.
  cbn [bind]. apply quiet_Act; [reflexivity | intros v].
  destruct (Z.land v WAFLAG =? 0); [apply quiet_Ret|].
  apply quiet_Loop; [|intros; apply quiet_Ret].
  intros ts. cbn [bind]. apply quiet_Loop.
  - intros i. destruct (i <? SPIN_COUNT); [|apply quiet_Ret].
    cbn [bind]. apply quiet_Act; [reflexivity | intros v'].
    destruct (Z.land v' WAFLAG =? 0); apply quiet_Ret.
  - intros [v'|]; cbn [bind]; [apply quiet_Ret|].
    apply quiet_Act; [reflexivity | intros; apply quiet_Ret].
Qed.

Lemma rd_spinning_trace (gl : gint) (envs : list segment) :
  forall p : prog segment gint,
    Forall (flagged gl) envs -> rd_spinning gl p ->
    rd_spinning gl (snd (trace p envs)).
Proof.
  induction envs as [|e es IH]; intros p F H; [exact H|].
  rewrite trace_cons. cbn [snd]. inversion F as [|x l F1 F2]; subst.
  apply IH; [exact F2|]. now apply SimplePreference.rd_spinning_step.
Qed.

Lemma rd_wait_waits (gl : gint) (envs : list segment) :
  envs <> [] -> Forall (flagged gl) envs ->
  rd_spinning gl (snd (trace (rd_wait gl) envs)).
Proof.
  destruct envs as [|e es]; [congruence|]. intros _ F.
  inversion F as [|x l F1 F2]; subst. rewrite trace_cons. cbn [snd].
  apply rd_spinning_trace; [exact F2|].
  unfold rd_wait, read. cbn [bind step snd].
  apply Z.eqb_neq in F1. rewrite F1. apply rsp_outer.
Qed.

Section Reader.

Variable handle : Type.
Variable dbcheck : handle -> bool.

(** C5. Reader preference.  Whatever the other callers do between its
    steps, [wg_start_read] changes the segment once: its first step reads
    the header, its second adds [RC_INCR] to the sync word, and no later
    step changes anything, so the count is never taken back while it
    waits.  The value the addition fetched is not used: the next step
    reads the sync word anew and returns 1 when the writer flag is clear
    then; with no other caller in between that is when the fetched value
    had the flag clear.  While every state it looks at has the flag set it
    does not return, and on a state with the flag clear it returns 1
    within 5 steps from wherever it is in its spin. *)
Theorem simple_start_read_single_addition (db : handle) :
  dbcheck db = true ->
  (forall e1 e2 envs,
     exists t,
       trace (wg_start_read dbcheck db) (e1 :: e2 :: envs)
       = ((e1, e1)
          :: (e2, store (global_lock e1)
                    (gint_wrap (load (global_lock e1) e2 + RC_INCR)) e2)
          :: t,
          snd (trace (rd_wait (global_lock e1)) envs)) /\
       Forall (@unchanged segment) t) /\
  (forall gl e, Z.land (load gl e) WAFLAG = 0 ->
     trace (rd_wait gl) [e] = ([(e, e)], Ret 1)) /\
  (forall s, Z.land (sync_word s) WAFLAG = 0 ->
     returns_in 3 (wg_start_read dbcheck db) s
       (store (global_lock s) (gint_wrap (sync_word s + RC_INCR)) s) 1) /\
  (forall gl envs, envs <> [] -> Forall (flagged gl) envs ->
     result (snd (trace (rd_wait gl) envs)) = None) /\
  (forall gl envs e, Forall (flagged gl) envs -> Z.land (load gl e) WAFLAG = 0 ->
     exists j, (j <= 5)%nat /\ steps j (snd (trace (rd_wait gl) envs)) e = (e, Ret 1)).
Proof.
  intros Hv. split; [|split; [|split; [|split]]].
  - intros e1 e2 envs. exists (fst (trace (rd_wait (global_lock e1)) envs)). split.
    + rewrite trace_cons. unfold wg_start_read. rewrite Hv.
      cbn [negb bind read_global_lock step fst snd].
      rewrite trace_cons. reflexivity.
    + apply quiet_trace, rd_wait_quiet.
  - intros gl e H. apply Z.eqb_eq in H. rewrite trace_one.
    unfold rd_wait, read. cbn [bind step fst snd]. now rewrite H.
  - intros s Hw. unfold wg_start_read. rewrite Hv.
    cbn [negb bind read_global_lock fetch_and_add read].
    do 3 exec_step. rewrite SimpleFacts.word_store_same.
    fold (sync_word s). rewrite SimpleFacts.waflag_after_incr, Hw.
    change (0 =? 0) with true. apply returns_in_Ret.
  - intros gl envs Hn F. apply SimplePreference.rd_spinning_result with (gl := gl).
    now apply rd_wait_waits.
  - intros gl envs e F H. destruct envs as [|e0 es].
    + exists 1%nat. split; [lia|]. apply Z.eqb_eq in H.
      unfold rd_wait, read. cbn [trace snd bind steps step]. now rewrite H.
    + apply SimplePreference.rd_spinning_exit with (gl := gl); [exact H|].
      apply rd_wait_waits; [discriminate | exact F].
Qed.

(** A reader at its first test, or further on, does not return on a
    state whose writer flag is set. *)
Lemma rd_wait_locked_out (gl : gint) (s : segment) :
  flagged gl s -> never_returns (rd_wait gl) s.
Proof.
  intros F fuel. apply run_steps_None. destruct fuel as [|n]; [reflexivity|].
  assert (E : step (rd_wait gl) s = (s, Loop (rd_spin_outer gl) SLEEP_NSEC Ret)).
  { unfold rd_wait, read. cbn [bind step]. apply Z.eqb_neq in F. now rewrite F. }
  cbn [steps]. rewrite E.
  apply SimplePreference.rd_spinning_result with (gl := gl).
  apply SimplePreference.rd_spinning_steps; [exact F | apply rsp_outer].
Qed.

End Reader.

Lemma waiting_states : Forall (flagged 64) (repeat (Scenario.with_sync_word 3) 7).
Proof. repeat constructor; discriminate. Qed.

Lemma simple_start_read_single_addition_witness :
  Scenario.any_handle tt = true /\
  Forall (flagged 64) (repeat (Scenario.with_sync_word 3) 7) /\
  (exists t,
     trace (wg_start_read Scenario.any_handle tt)
       (Scenario.with_sync_word 1 :: Scenario.with_sync_word 1 :: repeat (Scenario.with_sync_word 3) 7)
     = ((Scenario.with_sync_word 1, Scenario.with_sync_word 1)
        :: (Scenario.with_sync_word 1,
            store (global_lock (Scenario.with_sync_word 1))
              (gint_wrap (load (global_lock (Scenario.with_sync_word 1)) (Scenario.with_sync_word 1)
                          + RC_INCR)) (Scenario.with_sync_word 1))
        :: t,
        snd (trace (rd_wait (global_lock (Scenario.with_sync_word 1)))
               (repeat (Scenario.with_sync_word 3) 7))) /\
     Forall (@unchanged segment) t) /\
  result (snd (trace (rd_wait 64) (repeat (Scenario.with_sync_word 3) 7))) = None /\
  exists j, (j <= 5)%nat /\
    steps j (snd (trace (rd_wait 64) (repeat (Scenario.with_sync_word 3) 7))) (Scenario.with_sync_word 2)
    = (Scenario.with_sync_word 2, Ret 1).
Proof.
  destruct (@simple_start_read_single_addition unit Scenario.any_handle tt eq_refl)
    as (H1 & _ & _ & H4 & H5).
  split; [reflexivity|]. split; [exact waiting_states|].
  split; [apply H1|]. split.
  - apply H4; [discriminate | exact waiting_states].
  - apply H5; [exact waiting_states | reflexivity].
Defined.

End SimpleReader.

(** * The queued lock: facts *)

Module QueuedFacts.
Import Queued.

Lemma field_eq_dec (f g : field) : {f = g} + {f <> g}.
Proof. decide equality. Qed.

Lemma loc_eq_dec (l l' : loc) : {l = l'} + {l <> l'}.
Proof. decide equality; auto using Z.eq_dec, field_eq_dec. Qed.

Lemma get_set_field_same (f : field) (v : gint) (n : lock_queue_node) :
  get_field f (set_field f v n) = v.
Proof. destruct f; reflexivity. Qed.

Lemma get_set_field_other (f g : field) (v : gint) (n : lock_queue_node) :
  f <> g -> get_field f (set_field g v n) = get_field f n.
Proof. destruct f, g; intros H; try reflexivity; now elim H. Qed.

Lemma load_store_same (l : loc) (v : gint) (s : segment) : load l (store l v s) = v.
Proof.
  destruct l; try reflexivity. simpl. rewrite Z.eqb_refl. apply get_set_field_same.
Qed.

Lemma load_store_other (l l' : loc) (v : gint) (s : segment) :
  l <> l' -> load l (store l' v s) = load l s.
Proof.
  intros H. destruct l, l'; try reflexivity; try (now elim H). simpl.
  destruct (Z.eqb_spec off off0) as [->|]; [|reflexivity].
  apply get_set_field_other. congruence.
Qed.

(** Header fields and cell fields read as loads. *)
Ltac to_loads :=
  repeat match goal with
  | |- context [tail ?s] => change (tail s) with (load Tail s)
  | |- context [next_writer ?s] => change (next_writer s) with (load Next_writer s)
  | |- context [reader_count ?s] => change (reader_count s) with (load Reader_count s)
  | |- context [freelist ?s] => change (freelist s) with (load Freelist s)
  | |- context [storage ?s] => change (storage s) with (load Storage s)
  | |- context [max_nodes ?s] => change (max_nodes s) with (load Max_nodes s)
  | |- context [class (cell ?s ?o)] => change (class (cell s o)) with (load (Node o f_class) s)
  | |- context [state (cell ?s ?o)] => change (state (cell s o)) with (load (Node o f_state) s)
  | |- context [next (cell ?s ?o)] => change (next (cell s o)) with (load (Node o f_next) s)
  | |- context [next_cell (cell ?s ?o)] => change (next_cell (cell s o)) with (load (Node o f_next_cell) s)
  | |- context [refcount (cell ?s ?o)] => change (refcount (cell s o)) with (load (Node o f_refcount) s)
  | H : context [tail ?s] |- _ => change (tail s) with (load Tail s) in H
  | H : context [next_writer ?s] |- _ => change (next_writer s) with (load Next_writer s) in H
  | H : context [reader_count ?s] |- _ => change (reader_count s) with (load Reader_count s) in H
  | H : context [freelist ?s] |- _ => change (freelist s) with (load Freelist s) in H
  | H : context [storage ?s] |- _ => change (storage s) with (load Storage s) in H
  | H : context [max_nodes ?s] |- _ => change (max_nodes s) with (load Max_nodes s) in H
  | H : context [class (cell ?s ?o)] |- _ => change (class (cell s o)) with (load (Node o f_class) s) in H
  | H : context [state (cell ?s ?o)] |- _ => change (state (cell s o)) with (load (Node o f_state) s) in H
  | H : context [next (cell ?s ?o)] |- _ => change (next (cell s o)) with (load (Node o f_next) s) in H
  | H : context [next_cell (cell ?s ?o)] |- _ => change (next_cell (cell s o)) with (load (Node o f_next_cell) s) in H
  | H : context [refcount (cell ?s ?o)] |- _ => change (refcount (cell s o)) with (load (Node o f_refcount) s) in H
  end.

Ltac loc_neq :=
  solve [ assumption | discriminate | congruence
        | let E := fresh in intro E; injection E; intros; lia ].

Ltac lia_mem := cbn [load segment_mem load_loc get_field] in *; lia.

Ltac mem_simpl :=
  repeat first
    [ rewrite load_store_same
    | rewrite load_store_other by loc_neq ].

Lemma clear_lsb (v : gint) : Z.land (Z.land v (Z.lnot 1)) 1 = 0.
Proof.
  rewrite <- Z.land_assoc. change (Z.land (Z.lnot 1) 1) with 0. apply Z.land_0_r.
Qed.

(** Lines 721-730 run by one caller alone. *)
Lemma end_read_handoff_alone (s : segment) :
  exists s',
    returns_in 3 end_read_handoff s s' tt /\
    reader_count s' = gint_wrap (reader_count s + -1) /\
    next_writer s' = (if reader_count s =? 1 then 0 else next_writer s) /\
    (forall off,
      state (cell s' off) =
        if (reader_count s =? 1) && negb (next_writer s =? 0)
           && (off =? next_writer s)
        then Z.land (state (cell s off)) (Z.lnot 1)
        else state (cell s off)) /\
    (reader_count s = 1 -> next_writer s <> 0 ->
      Z.land (state (cell s' (next_writer s))) 1 = 0).
Proof.
  unfold end_read_handoff.
  cbn [bind fetch_and_add fetch_and_store atomic_and]. to_loads.
  destruct (load Reader_count s =? 1) eqn:B1.
  - destruct (load Next_writer s =? 0) eqn:B0.
    + eexists. split; [|split; [|split; [|split]]].
      * exec_step. rewrite B1. exec_step. rewrite load_store_other by loc_neq.
        unfold truthy. rewrite B0. cbv iota. cbn [negb].
        eapply returns_in_le; [apply returns_in_Ret | lia].
      * to_loads. now mem_simpl.
      * to_loads. now mem_simpl.
      * intros off. to_loads. now mem_simpl.
      * intros _ H. apply Z.eqb_eq in B0. now elim H.
    + eexists. split; [|split; [|split; [|split]]].
      * exec_step. rewrite B1. exec_step. rewrite load_store_other by loc_neq.
        unfold truthy. rewrite B0. cbn [negb]. cbv iota. exec_step. apply returns_in_Ret.
      * to_loads. now mem_simpl.
      * to_loads. now mem_simpl.
      * intros off. to_loads. cbn [andb negb].
        destruct (Z.eqb_spec off (load Next_writer s)) as [->|N]; now mem_simpl.
      * intros _ _. to_loads. mem_simpl. apply clear_lsb.
  - eexists. split; [|split; [|split; [|split]]].
    + exec_step. rewrite B1. eapply returns_in_le; [apply returns_in_Ret | lia].
    + to_loads. now mem_simpl.
    + to_loads. now mem_simpl.
    + intros off. to_loads. now mem_simpl.
    + intros H. apply Z.eqb_neq in B1. now elim B1.
Qed.

(** *** Initialisation of the cells *)

Lemma init_loop (pad wall : Z) (A : Type) (k : option gint -> prog segment A) :
  0 < pad -> wall <= gint_max ->
  forall (m : nat) (i : gint) (tmp : option gint) (s s' : segment) (n : nat) (a : A),
    gint_min <= i -> i + Z.of_nat m * pad = wall ->
    returns_in n (k (match m with O => tmp | S _ => Some (wall - pad) end))
      (init_cells pad m i s) s' a ->
    returns_in (3 * m + 1 + n) (Loop (init_body pad wall) (i, tmp) k) s s' a.
Proof.
  intros Hp Hw m. induction m as [|m IH]; intros i tmp s s' n a Hi E K.
  - exec_step. unfold init_body.
    replace (i <? wall) with false by (symmetry; apply Z.ltb_ge; lia).
    cbn [bind loop_next]. exact K.
  - replace (3 * S m + 1 + n)%nat with (S (S (S (3 * m + 1 + n)))) by lia.
    exec_step. unfold init_body at 1.
    replace (i <? wall) with true by (symmetry; apply Z.ltb_lt; lia).
    do 2 exec_step. cbn [loop_next].
    rewrite gint_wrap_id by (unfold in_gint; lia).
    apply IH; [lia | lia |].
    cbn [init_cells] in K.
    destruct m as [|m]; [|exact K].
    replace (wall - pad) with i in K by lia. exact K.
Qed.

Lemma init_cells_frame (pad : Z) (l : loc) :
  forall (m : nat) (i : gint) (s : segment),
    (forall j f, l = Node (i + Z.of_nat j * pad) f -> (m <= j)%nat) ->
    load l (init_cells pad m i s) = load l s.
Proof.
  intros m. induction m as [|m IH]; intros i s H; [reflexivity|].
  cbn [init_cells]. rewrite IH.
  - rewrite !load_store_other; [reflexivity | |];
      intros ->; specialize (H O _ (f_equal2 Node (eq_sym (Z.add_0_r i)) eq_refl));
      simpl in H; lia.
  - intros j f ->. 
    assert (S m <= S j)%nat; [|lia]. apply (H (S j) f). f_equal. lia.
Qed.

Lemma init_cells_cell (pad : Z) : 0 < pad ->
  forall (m : nat) (i : gint) (s : segment) (j : nat), (j < m)%nat ->
    load (Node (i + Z.of_nat j * pad) f_refcount) (init_cells pad m i s) = 1 /\
    load (Node (i + Z.of_nat j * pad) f_next_cell) (init_cells pad m i s)
      = i + (Z.of_nat j + 1) * pad.
Proof.
  intros Hp m. induction m as [|m IH]; intros i s j Hj; [lia|].
  cbn [init_cells]. destruct j as [|j].
  - replace (i + Z.of_nat 0 * pad) with i by lia.
    rewrite !init_cells_frame by (intros j f E; injection E; intros; nia).
    mem_simpl. split; [reflexivity | lia].
  - replace (i + Z.of_nat (S j) * pad) with (i + pad + Z.of_nat j * pad) by lia.
    destruct (IH (i + pad) (store (Node i f_next_cell) (i + pad)
                              (store (Node i f_refcount) 1 s)) j) as [R N]; [lia|].
    rewrite R, N. split; [reflexivity | lia].
Qed.

(** *** The cell pool *)

Lemma truthy_true (v : gint) : v <> 0 -> truthy v = true.
Proof. intros H. unfold truthy. apply Z.eqb_neq in H. now rewrite H. Qed.

Lemma alloc_lock_empty (s : segment) :
  freelist s = 0 -> returns_in 2 alloc_lock s s 0.
Proof.
  intros H. unfold alloc_lock. do 2 exec_step.
  change (load Freelist s) with (freelist s). rewrite H.
  change (0 =? 0) with true. cbv iota. apply returns_in_Ret.
Qed.

Lemma alloc_lock_takes (s : segment) :
  freelist s <> 0 ->
  exists s',
    returns_in 6 alloc_lock s s' (freelist s) /\
    freelist s' = next_cell (cell s (freelist s)) /\
    refcount (cell s' (freelist s))
      = gint_wrap (gint_wrap (refcount (cell s (freelist s)) + 2) + -1) /\
    (forall l, l <> Freelist -> l <> Node (freelist s) f_refcount ->
       load l s' = load l s).
Proof.
  intros H. to_loads. eexists. split; [|split; [|split]].
  - unfold alloc_lock. do 2 exec_step.
    replace (load Freelist s =? 0) with false by (symmetry; now apply Z.eqb_neq).
    cbv iota. do 3 exec_step. mem_simpl. rewrite Z.eqb_refl. cbn [fst snd].
    change (truthy 1) with true. cbv iota. exec_step. cbn [loop_next].
    apply returns_in_Ret.
  - to_loads. now mem_simpl.
  - to_loads. now mem_simpl.
  - intros l H1 H2. now mem_simpl.
Qed.

Lemma free_lock_pushes (s : segment) (n : gint) :
  refcount (cell s n) = 2 ->
  exists s',
    returns_in 6 (free_lock n) s s' tt /\
    freelist s' = n /\ next_cell (cell s' n) = freelist s /\
    refcount (cell s' n) = 1 /\
    (forall l, l <> Freelist -> l <> Node n f_refcount -> l <> Node n f_next_cell ->
       load l s' = load l s).
Proof.
  intros H. to_loads. eexists. split; [|split; [|split; [|split]]].
  - unfold free_lock. do 2 exec_step. mem_simpl. rewrite H.
    change (gint_wrap (2 + -2) =? 0) with true. cbn [fst snd].
    change (truthy 1) with true. cbv iota.
    do 4 exec_step. mem_simpl. rewrite Z.eqb_refl. cbn [fst snd].
    change (truthy 1) with true. cbv iota. cbn [loop_next]. apply returns_in_Ret.
  - to_loads. now mem_simpl.
  - to_loads. now mem_simpl.
  - to_loads. now mem_simpl.
  - intros l H1 H2 H3. now mem_simpl.
Qed.

Lemma chain_frame (s s' : segment) (p : gint) (l : list gint) :
  (forall n, In n l -> next_cell (cell s' n) = next_cell (cell s n)) ->
  chain s p l -> chain s' p l.
Proof.
  intros H C. induction C as [|p l Hp C IH]; constructor; auto.
  rewrite H by (left; reflexivity). apply IH. intros n Hn. apply H. now right.
Qed.

Lemma chain_walk (s : segment) (p : gint) (l : list gint) :
  chain s p l -> forall fuel, (length l <= fuel)%nat -> freelist_cells fuel s p = Some l.
Proof.
  intros C. induction C as [|p l Hp C IH]; intros fuel Hf.
  - destruct fuel; reflexivity.
  - destruct fuel as [|fuel]; [simpl in Hf; lia|]. simpl.
    apply Z.eqb_neq in Hp. rewrite Hp. rewrite IH by (simpl in Hf; lia). reflexivity.
Qed.

Lemma remove_perm (n : gint) (held : list gint) :
  NoDup held -> In n held -> Permutation (n :: remove Z.eq_dec n held) held.
Proof.
  intros N. induction N as [|x l Hx N IH]; intros H; [destruct H|].
  simpl. destruct (Z.eq_dec n x) as [->|D].
  - rewrite notin_remove by exact Hx. reflexivity.
  - destruct H as [->|H]; [now elim D|].
    rewrite perm_swap. now rewrite IH.
Qed.

Lemma pool_inv_alloc (cells : list gint) (s : segment) (held : list gint) :
  pool_inv cells s held ->
  exists s' t,
    returns_in 6 alloc_lock s s' t /\
    pool_inv cells s' (if t =? 0 then held else t :: held).
Proof.
  intros (l & C & N & P & R1 & R2).
  destruct (Z.eq_dec (freelist s) 0) as [E|E].
  - exists s, 0. split.
    + eapply returns_in_le; [now apply alloc_lock_empty | lia].
    + exists l. auto.
  - destruct (alloc_lock_takes s E) as (s' & Hr & Hf & Hc & Hframe).
    exists s', (freelist s). split; [exact Hr|].
    apply Z.eqb_neq in E. rewrite E. apply Z.eqb_neq in E.
    inversion C as [E0 | p l' Hp C' E1 E2]; [congruence|]. subst l.
    simpl in N. apply NoDup_cons_iff in N. destruct N as [Np N].
    rewrite in_app_iff in Np.
    assert (D : forall n, In n l' \/ In n held -> n <> freelist s)
      by (intros n Hn ->; tauto).
    exists l'. split; [|split; [|split; [|split]]].
    + rewrite Hf. apply chain_frame with (s := s); [|exact C'].
      intros n Hn. to_loads. apply Hframe; [discriminate | discriminate].
    + apply Permutation_NoDup with (l := freelist s :: l' ++ held);
        [apply Permutation_middle |].
      constructor; [rewrite in_app_iff; tauto | exact N].
    + rewrite <- P. symmetry. apply Permutation_middle.
    + inversion R1 as [|x l0 Rp R1']; subst. rewrite Forall_forall in *.
      intros n Hn. specialize (R1' n Hn). to_loads.
      rewrite Hframe; [exact R1' | discriminate |].
      intros X. injection X. intros Y. apply (D n (or_introl Hn)). exact Y.
    + constructor.
      * rewrite Hc. inversion R1 as [|x l0 Rp R1']; subst. rewrite Rp. reflexivity.
      * rewrite Forall_forall in *. intros n Hn. specialize (R2 n Hn). to_loads.
        rewrite Hframe; [exact R2 | discriminate |].
        intros X. injection X. intros Y. apply (D n (or_intror Hn)). exact Y.
Qed.

Lemma pool_inv_free (cells : list gint) (s : segment) (held : list gint) (n : gint) :
  ~ In 0 cells -> pool_inv cells s held -> In n held ->
  exists s',
    returns_in 6 (free_lock n) s s' tt /\
    pool_inv cells s' (remove Z.eq_dec n held).
Proof.
  intros Z0 (l & C & N & P & R1 & R2) Hn.
  assert (Hrc : refcount (cell s n) = 2)
    by (rewrite Forall_forall in R2; auto).
  destruct (free_lock_pushes s n Hrc) as (s' & Hr & Hf & Hnc & Hc & Hframe).
  exists s'. split; [exact Hr|].
  assert (Nl : ~ In n l).
  { intros Hl. apply NoDup_app_remove_l in N as N'.
    clear - N Hl Hn. induction l as [|x l IH]; [destruct Hl|].
    simpl in N. apply NoDup_cons_iff in N. destruct N as [Nx N].
    destruct Hl as [->|Hl]; [apply Nx; rewrite in_app_iff; tauto | auto]. }
  assert (Nh : NoDup held) by (now apply NoDup_app_remove_l in N).
  assert (Pm : Permutation ((n :: l) ++ remove Z.eq_dec n held) (l ++ held)).
  { simpl. rewrite Permutation_middle. apply Permutation_app_head.
    now apply remove_perm. }
  exists (n :: l). split; [|split; [|split; [|split]]].
  - rewrite Hf. constructor.
    + intros ->. apply Z0. rewrite <- P. rewrite in_app_iff. tauto.
    + rewrite Hnc. apply chain_frame with (s := s); [|exact C].
      intros m Hm. to_loads. apply Hframe; try discriminate.
      intros X. injection X. intros ->. tauto.
  - apply Permutation_NoDup with (l := l ++ held); [now symmetry | exact N].
  - now rewrite Pm.
  - constructor; [exact Hc|]. rewrite Forall_forall in *.
    intros m Hm. specialize (R1 m Hm). to_loads.
    rewrite Hframe; [exact R1 | discriminate | | discriminate].
    intros X. injection X. intros ->. tauto.
  - rewrite Forall_forall in *. intros m Hm. apply in_remove in Hm.
    destruct Hm as [Hm D]. specialize (R2 m Hm). to_loads.
    rewrite Hframe; [exact R2 | discriminate | | discriminate].
    intros X. injection X. intros Y. tauto.
Qed.

Lemma pool_run_inv (cells : list gint) (fuel : nat) :
  (6 <= fuel)%nat -> ~ In 0 cells ->
  forall ops s held, pool_inv cells s held ->
    pool_run fuel ops s held <> Out_of_fuel /\
    forall s' held', pool_run fuel ops s held = Pool s' held' -> pool_inv cells s' held'.
Proof.
  intros Hf Z0 ops. induction ops as [|[|n] ops IH]; intros s held I.
  - split; [discriminate|]. intros s' held' E. now inversion E; subst.
  - simpl. destruct (@pool_inv_alloc cells s held I) as (s1 & t & Hr & I1).
    rewrite (Hr fuel Hf). now apply IH.
  - simpl. destruct (existsb (Z.eqb n) held) eqn:E.
    + apply existsb_exists in E. destruct E as (x & Hx & E).
      apply Z.eqb_eq in E. subst x.
      destruct (@pool_inv_free cells s held n Z0 I Hx) as (s1 & Hr & I1).
      rewrite (Hr fuel Hf). now apply IH.
    + split; discriminate.
Qed.

Section Facts.

Variable handle : Type.
Variable dbcheck : handle -> bool.
Variable SYN_VAR_PADDING : Z.

Local Abbreviation arena_ok := (Queued.arena_ok SYN_VAR_PADDING).
Local Abbreviation initialized := (Queued.initialized SYN_VAR_PADDING).

Lemma init_lock_queue_returns (db : handle) (s : segment) :
  dbcheck db = true -> arena_ok s ->
  returns (init_lock_queue dbcheck SYN_VAR_PADDING db) s (initialized s) 0.
Proof.
  intros Hv (Hp & Hm & Hs & Hw). eexists.
  unfold init_lock_queue. rewrite Hv. cbn [negb].
  do 3 exec_step. cbv zeta. exec_norm.
  assert (Hmul : 0 <= max_nodes s * SYN_VAR_PADDING) by nia.
  unfold gint_max, gint_bits in Hw. change (2 ^ (32 - 1) - 1) with 2147483647 in Hw.
  assert (G : forall z, 0 <= z <= storage s + max_nodes s * SYN_VAR_PADDING ->
                        in_gint z).
  { intros z Hz. unfold in_gint, gint_min, gint_max, gint_bits.
    change (2 ^ (32 - 1)) with 2147483648. lia. }
  change (load Max_nodes s) with (max_nodes s).
  change (load Storage s) with (storage s).
  rewrite (gint_wrap_id (z := max_nodes s * SYN_VAR_PADDING)) by (apply G; lia).
  rewrite (gint_wrap_id (z := storage s + max_nodes s * SYN_VAR_PADDING))
    by (apply G; lia).
  eapply (init_loop (pad := SYN_VAR_PADDING)
            (wall := storage s + max_nodes s * SYN_VAR_PADDING))
    with (m := Z.to_nat (max_nodes s)).
  - exact Hp.
  - unfold gint_max, gint_bits. change (2 ^ (32 - 1) - 1) with 2147483647. lia.
  - unfold gint_min, gint_bits. change (2 ^ (32 - 1)) with 2147483648. lia.
  - rewrite Z2Nat.id by lia. reflexivity.
  - destruct (Z.to_nat (max_nodes s)) eqn:E; [lia|]. rewrite <- E.
    do 3 exec_step.
    unfold initialized. cbv zeta.
    rewrite load_store_other by loc_neq.
    rewrite init_cells_frame by (intros; discriminate).
    apply returns_in_Ret.
Qed.

Lemma initialized_fields (s : segment) :
  arena_ok s ->
  tail (initialized s) = tail s /\ next_writer (initialized s) = next_writer s /\
  reader_count (initialized s) = reader_count s /\
  storage (initialized s) = storage s /\ max_nodes (initialized s) = max_nodes s /\
  freelist (initialized s) = storage s /\
  forall k, 0 <= k < max_nodes s ->
    refcount (cell (initialized s) (storage s + k * SYN_VAR_PADDING)) = 1 /\
    next_cell (cell (initialized s) (storage s + k * SYN_VAR_PADDING))
      = if k =? max_nodes s - 1 then 0
        else storage s + (k + 1) * SYN_VAR_PADDING.
Proof.
  intros (Hp & Hm & Hs & Hw).
  unfold initialized. cbv zeta. to_loads.
  repeat split; to_loads;
    try (mem_simpl; try apply init_cells_frame; intros; discriminate).
  - mem_simpl.
    replace (load Storage s + k * SYN_VAR_PADDING)
      with (load Storage s + Z.of_nat (Z.to_nat k) * SYN_VAR_PADDING)
      by (rewrite Z2Nat.id; lia).
    apply init_cells_cell; lia.
  - destruct (Z.eqb_spec k (load Max_nodes s - 1)) as [->|N].
    + replace (load Storage s + (load Max_nodes s - 1) * SYN_VAR_PADDING)
        with (load Storage s + load Max_nodes s * SYN_VAR_PADDING - SYN_VAR_PADDING)
        by lia.
      now mem_simpl.
    + rewrite load_store_other by loc_neq.
      rewrite load_store_other
        by (intro E; injection E; intros E'; apply N;
            apply (Z.mul_reg_r _ _ SYN_VAR_PADDING); lia_mem).
      replace (load Storage s + k * SYN_VAR_PADDING)
        with (load Storage s + Z.of_nat (Z.to_nat k) * SYN_VAR_PADDING)
        by (rewrite Z2Nat.id; lia).
      replace (load Storage s + (k + 1) * SYN_VAR_PADDING)
        with (load Storage s + (Z.of_nat (Z.to_nat k) + 1) * SYN_VAR_PADDING)
        by (rewrite Z2Nat.id; lia).
      apply init_cells_cell; lia.
Qed.

(** C2 (amended). On a valid handle whose arena of [max_nodes >= 1] cells
    of positive size lies at nonnegative offsets that fit a [gint],
    [init_lock_queue] returns 0, leaves [tail], [next_writer] and
    [reader_count] as they were, points [freelist] at the first cell, and
    gives every cell refcount 1 and the offset of the following cell as
    [next_cell], 0 for the last cell. *)
Theorem init_lock_queue_links_cells (db : handle) (s : segment) :
  dbcheck db = true -> arena_ok s ->
  exists s',
    returns (init_lock_queue dbcheck SYN_VAR_PADDING db) s s' 0 /\
    tail s' = tail s /\ next_writer s' = next_writer s /\
    reader_count s' = reader_count s /\
    storage s' = storage s /\ max_nodes s' = max_nodes s /\
    freelist s' = storage s /\
    forall k, 0 <= k < max_nodes s ->
      refcount (cell s' (storage s + k * SYN_VAR_PADDING)) = 1 /\
      next_cell (cell s' (storage s + k * SYN_VAR_PADDING))
        = if k =? max_nodes s - 1 then 0
          else storage s + (k + 1) * SYN_VAR_PADDING.
Proof.
  intros Hv Ha. exists (initialized s).
  split; [now apply init_lock_queue_returns | now apply initialized_fields].
Qed.

(** *** The pool after initialisation *)

Lemma arena_cells_NoDup (s : segment) :
  0 < SYN_VAR_PADDING -> NoDup (arena_cells SYN_VAR_PADDING s).
Proof.
  intros Hp. unfold arena_cells.
  generalize (Z.to_nat (max_nodes s)) as len. generalize 0%nat as j.
  intros j len. revert j. induction len as [|len IH]; intros j; simpl; constructor.
  - rewrite in_map_iff. intros (x & E & Hx). apply in_seq in Hx. nia.
  - apply IH.
Qed.

Lemma arena_cells_nonzero (s : segment) :
  0 < SYN_VAR_PADDING -> 0 < storage s -> ~ In 0 (arena_cells SYN_VAR_PADDING s).
Proof.
  intros Hp Hs. unfold arena_cells. rewrite in_map_iff. intros (x & E & _). nia.
Qed.

Lemma initialized_chain (s : segment) :
  arena_ok s -> 0 < storage s ->
  chain (initialized s) (storage s) (arena_cells SYN_VAR_PADDING s) /\
  Forall (fun n => refcount (cell (initialized s) n) = 1)
    (arena_cells SYN_VAR_PADDING s).
Proof.
  intros Ha Hs. pose proof (initialized_fields Ha) as F.
  destruct F as (_ & _ & _ & _ & _ & _ & F).
  destruct Ha as (Hp & Hm & _ & _).
  unfold arena_cells.
  assert (G : forall len j, (j + len = Z.to_nat (max_nodes s))%nat ->
    chain (initialized s)
      (match len with O => 0 | S _ => storage s + Z.of_nat j * SYN_VAR_PADDING end)
      (map (fun k => storage s + Z.of_nat k * SYN_VAR_PADDING) (seq j len)) /\
    Forall (fun n => refcount (cell (initialized s) n) = 1)
      (map (fun k => storage s + Z.of_nat k * SYN_VAR_PADDING) (seq j len))).
  { induction len as [|len IH]; intros j E; simpl.
    - split; constructor.
    - destruct (F (Z.of_nat j)) as [R N]; [lia|].
      destruct (IH (S j)) as [C Fa]; [lia|].
      split; [|constructor; auto].
      constructor; [nia|]. rewrite N.
      destruct len as [|len].
      + replace (Z.of_nat j =? max_nodes s - 1) with true
          by (symmetry; apply Z.eqb_eq; lia).
        exact C.
      + replace (Z.of_nat j =? max_nodes s - 1) with false
          by (symmetry; apply Z.eqb_neq; lia).
        replace (Z.of_nat j + 1) with (Z.of_nat (S j)) by lia. exact C. }
  destruct (G (Z.to_nat (max_nodes s)) 0%nat) as [C Fa]; [lia|].
  split; [|exact Fa].
  destruct (Z.to_nat (max_nodes s)) eqn:E; [lia|].
  replace (storage s + Z.of_nat 0 * SYN_VAR_PADDING) with (storage s) in C by lia.
  exact C.
Qed.

(** C8. Pool conservation: from a freshly initialised pool, after any run
    of [alloc_lock] and [free_lock] calls in which every allocated cell has
    been freed exactly once, the cells reached from [freelist] along
    [next_cell] are the cells of the arena, each with refcount 1.  The calls
    themselves always return. *)
Theorem pool_conservation (db : handle) (s0 sI : segment) (ops : list pool_op)
    (fuel : nat) :
  dbcheck db = true -> arena_ok s0 -> 0 < storage s0 ->
  returns (init_lock_queue dbcheck SYN_VAR_PADDING db) s0 sI 0 ->
  (6 <= fuel)%nat ->
  pool_run fuel ops sI [] <> Out_of_fuel /\
  (forall s', pool_run fuel ops sI [] = Pool s' [] ->
   exists l,
     freelist_cells (Z.to_nat (max_nodes s0)) s' (freelist s') = Some l /\
     Permutation l (arena_cells SYN_VAR_PADDING s0) /\
     Forall (fun n => refcount (cell s' n) = 1) l).
Proof.
  intros Hv Ha Hs [n Hr] Hf.
  destruct (init_lock_queue_returns Hv Ha) as [n' Hr'].
  destruct (returns_in_det Hr Hr') as [-> _].
  assert (Hp : 0 < SYN_VAR_PADDING) by apply Ha.
  assert (I : pool_inv (arena_cells SYN_VAR_PADDING s0) (initialized s0) []).
  { destruct (initialized_chain Ha Hs) as [C Fa].
    exists (arena_cells SYN_VAR_PADDING s0). rewrite app_nil_r.
    destruct (initialized_fields Ha) as (_ & _ & _ & _ & _ & -> & _).
    repeat split; auto. now apply arena_cells_NoDup. }
  destruct (@pool_run_inv (arena_cells SYN_VAR_PADDING s0) fuel Hf
              (arena_cells_nonzero s0 Hp Hs) ops _ _ I) as [Nf Inv].
  split; [exact Nf|]. intros s' E.
  destruct (Inv _ _ E) as (l & C & N & P & R1 & _). rewrite app_nil_r in *.
  exists l. repeat split; auto.
  apply chain_walk; [exact C|].
  rewrite (Permutation_length P). unfold arena_cells.
  rewrite length_map, length_seq. lia.
Qed.

(** *** Acquiring and releasing a read lock, one caller at a time *)


Lemma start_read_first (db : handle) (s : segment) (t : gint) :
  dbcheck db = true -> freelist s = t -> t <> 0 -> tail s = 0 ->
  exists s',
    returns_in 13 (wg_start_read dbcheck db) s s' t /\
    freelist s' = next_cell (cell s t) /\ tail s' = t /\
    reader_count s' = gint_wrap (reader_count s + 1) /\
    class (cell s' t) = LOCKQ_READ /\ state (cell s' t) = 0 /\
    next (cell s' t) = 0 /\
    refcount (cell s' t) = gint_wrap (gint_wrap (refcount (cell s t) + 2) + -1) /\
    (forall l, l <> Freelist -> l <> Tail -> l <> Reader_count ->
       l <> Node t f_class -> l <> Node t f_state -> l <> Node t f_next ->
       l <> Node t f_refcount -> load l s' = load l s).
Proof.
  intros Hv Hf Ht Htl. to_loads.
  assert (Bt : (t =? 0) = false) by now apply Z.eqb_neq.
  eexists. split.
  - unfold wg_start_read, alloc_lock. rewrite Hv. cbn [negb].
    do 2 exec_step. rewrite Hf, Bt. cbv iota.
    do 3 exec_step. mem_simpl. rewrite Hf, Z.eqb_refl. cbn [fst snd].
    change (truthy 1) with true. cbv iota. exec_step. cbn [loop_next bind].
    rewrite (truthy_true Ht). cbn [negb]. cbv iota.
    do 4 exec_step. mem_simpl. rewrite Htl. change (truthy 0) with false.
    cbn [negb]. cbv iota. do 3 exec_step. mem_simpl.
    change (truthy (Z.land (Z.land 1 (Z.lnot 1)) LOCKQ_READ)) with false. cbv iota.
    cbn [bind]. apply returns_in_Ret.
  - repeat split; to_loads; try (now mem_simpl).
    intros l H1 H2 H3 H4 H5 H6 H7. now mem_simpl.
Qed.

Lemma start_read_join (db : handle) (s : segment) (t p : gint) :
  dbcheck db = true -> freelist s = t -> t <> 0 -> tail s = p -> p <> 0 -> p <> t ->
  Z.land (class (cell s p)) LOCKQ_WRITE = 0 -> state (cell s p) <> 1 ->
  exists s',
    returns_in 16 (wg_start_read dbcheck db) s s' t /\
    freelist s' = next_cell (cell s t) /\ tail s' = t /\
    reader_count s' = gint_wrap (reader_count s + 1) /\
    class (cell s' t) = LOCKQ_READ /\ state (cell s' t) = 0 /\
    next (cell s' t) = 0 /\
    refcount (cell s' t) = gint_wrap (gint_wrap (refcount (cell s t) + 2) + -1) /\
    next (cell s' p) = t /\
    (forall l, l <> Freelist -> l <> Tail -> l <> Reader_count ->
       l <> Node t f_class -> l <> Node t f_state -> l <> Node t f_next ->
       l <> Node t f_refcount -> l <> Node p f_next -> load l s' = load l s).
Proof.
  intros Hv Hf Ht Htl Hp Hpt Hc Hst. to_loads.
  assert (Bt : (t =? 0) = false) by now apply Z.eqb_neq.
  assert (Bs : (load (Node p f_state) s =? 1) = false) by now apply Z.eqb_neq.
  eexists. split.
  - unfold wg_start_read, alloc_lock. rewrite Hv. cbn [negb].
    do 2 exec_step. rewrite Hf, Bt. cbv iota.
    do 3 exec_step. mem_simpl. rewrite Hf, Z.eqb_refl. cbn [fst snd].
    change (truthy 1) with true. cbv iota. exec_step. cbn [loop_next bind].
    rewrite (truthy_true Ht). cbn [negb]. cbv iota.
    do 4 exec_step. mem_simpl. rewrite Htl, (truthy_true Hp).
    cbn [negb]. cbv iota. exec_step. mem_simpl. rewrite Hc.
    change (truthy 0) with false. cbv iota. exec_step. mem_simpl. rewrite Bs.
    cbn [fst snd]. change (truthy 0) with false. cbv iota.
    do 4 exec_step. mem_simpl.
    change (truthy (Z.land (Z.land 1 (Z.lnot 1)) LOCKQ_READ)) with false. cbv iota.
    cbn [bind]. apply returns_in_Ret.
  - repeat split; to_loads; try (now mem_simpl).
    intros l H1 H2 H3 H4 H5 H6 H7 H8. now mem_simpl.
Qed.




End Facts.

Lemma demo_arena_ok (mx : Z) :
  1 <= mx <= 4 -> arena_ok 128 (Scenario.blank mx 0 0 0).
Proof.
  intros H. unfold arena_ok. cbn [storage max_nodes Scenario.blank].
  unfold gint_max, gint_bits. change (2 ^ (32 - 1) - 1) with 2147483647. lia.
Qed.

Lemma init_lock_queue_links_cells_witness :
  Scenario.any_handle tt = true /\ arena_ok 128 (Scenario.blank 4 7 8 9) /\
  exists s',
    returns (init_lock_queue Scenario.any_handle 128 tt) (Scenario.blank 4 7 8 9) s' 0 /\
    tail s' = 7 /\ next_writer s' = 8 /\ reader_count s' = 9 /\ freelist s' = 1024.
Proof.
  assert (A : arena_ok 128 (Scenario.blank 4 7 8 9)).
  { unfold arena_ok. cbn [storage max_nodes Scenario.blank].
    unfold gint_max, gint_bits. change (2 ^ (32 - 1) - 1) with 2147483647. lia. }
  split; [reflexivity | split; [exact A |]].
  destruct (@init_lock_queue_links_cells unit Scenario.any_handle 128 tt
              (Scenario.blank 4 7 8 9) eq_refl A)
    as (s' & R & T & N & C & _ & _ & F & _).
  exists s'. auto.
Defined.


Lemma pool_conservation_witness :
  Scenario.any_handle tt = true /\ arena_ok 128 (Scenario.blank 4 0 0 0) /\
  pool_run 6 Scenario.pool_demo (initialized 128 (Scenario.blank 4 0 0 0)) []
    <> Out_of_fuel /\
  forall s',
    pool_run 6 Scenario.pool_demo (initialized 128 (Scenario.blank 4 0 0 0)) []
      = Pool s' [] ->
    exists l,
      freelist_cells 4 s' (freelist s') = Some l /\
      Permutation l (arena_cells 128 (Scenario.blank 4 0 0 0)) /\
      Forall (fun n => refcount (cell s' n) = 1) l.
Proof.
  assert (A : arena_ok 128 (Scenario.blank 4 0 0 0)) by (apply demo_arena_ok; lia).
  split; [reflexivity | split; [exact A |]].
  apply (@pool_conservation unit Scenario.any_handle 128 tt
           (Scenario.blank 4 0 0 0) (initialized 128 (Scenario.blank 4 0 0 0))
           Scenario.pool_demo 6 eq_refl A).
  - reflexivity.
  - apply init_lock_queue_returns; [reflexivity | exact A].
  - lia.
Defined.

(** The demonstration run does hand every cell back. *)
Example pool_demo_completes :
  match pool_run 6 Scenario.pool_demo (initialized 128 (Scenario.blank 4 0 0 0)) [] with
  | Pool _ [] => True
  | _ => False
  end.
Proof. vm_compute. exact I. Qed.

End QueuedFacts.

(** * The queued lock: one caller alone *)

Module QueuedAlone.
Import Queued QueuedFacts.

(** A caller whose cell is blocked spins on it for ever, and a caller whose
    cell has no successor waits for one for ever. *)
Lemma spin_wait_frozen (lock : gint) (s : segment) (Q : unit -> Prop) :
  Z.land (state (cell s lock)) 1 <> 0 -> frozen (spin_wait lock) s Q.
Proof.
  intros H. apply Z.eqb_neq in H. unfold spin_wait. exec_norm.
  cbn [frozen bind fst snd]. intros ts i.
  destruct (i <? SPIN_COUNT); cbn [frozen bind fst snd].
  - split; [reflexivity|]. cbn [load segment_mem load_loc get_field].
    rewrite H. exact I.
  - split; [reflexivity | exact I].
Qed.

Lemma wait_next_frozen (lock : gint) (s : segment) (Q : unit -> Prop) :
  next (cell s lock) = 0 -> frozen (wait_next lock) s Q.
Proof.
  intros H. unfold wait_next. exec_norm. cbn [frozen bind fst snd]. intros _.
  split; [reflexivity|]. cbn [load segment_mem load_loc get_field].
  rewrite H. exact I.
Qed.

Lemma lor_land_same (x m : Z) : Z.land (Z.lor x m) m = m.
Proof.
  apply Z.bits_inj'. intros n Hn. rewrite Z.land_spec, Z.lor_spec.
  destruct (Z.testbit x n), (Z.testbit m n); reflexivity.
Qed.

Section Alone.

Variable handle : Type.
Variable dbcheck : handle -> bool.

Lemma start_write_exhausted (db : handle) (s : segment) :
  dbcheck db = true -> freelist s = 0 ->
  returns_in 2 (wg_start_write dbcheck db) s s 0.
Proof.
  intros Hv H. unfold wg_start_write, alloc_lock. rewrite Hv. cbn [negb].
  do 2 exec_step. change (load Freelist s) with (freelist s). rewrite H.
  change (0 =? 0) with true. cbv iota. cbn [loop_next bind].
  change (negb (truthy 0)) with true. cbv iota. apply returns_in_Ret.
Qed.

Lemma start_write_first (db : handle) (s : segment) (t : gint) :
  dbcheck db = true -> freelist s = t -> t <> 0 -> tail s = 0 -> reader_count s = 0 ->
  exists s',
    returns_in 15 (wg_start_write dbcheck db) s s' t /\
    freelist s' = next_cell (cell s t) /\ tail s' = t /\ next_writer s' = 0 /\
    class (cell s' t) = LOCKQ_WRITE /\ state (cell s' t) = 0 /\
    next (cell s' t) = 0 /\
    refcount (cell s' t) = gint_wrap (gint_wrap (refcount (cell s t) + 2) + -1) /\
    (forall l, l <> Freelist -> l <> Tail -> l <> Next_writer ->
       l <> Node t f_class -> l <> Node t f_state -> l <> Node t f_next ->
       l <> Node t f_refcount -> load l s' = load l s).
Proof.
  intros Hv Hf Ht Htl Hrc. to_loads.
  assert (Bt : (t =? 0) = false) by now apply Z.eqb_neq.
  eexists. split.
  - unfold wg_start_write, alloc_lock. rewrite Hv. cbn [negb].
    do 2 exec_step. rewrite Hf, Bt. cbv iota.
    do 3 exec_step. mem_simpl. rewrite Hf, Z.eqb_refl. cbn [fst snd].
    change (truthy 1) with true. cbv iota. exec_step. cbn [loop_next bind].
    rewrite (truthy_true Ht). cbn [negb]. cbv iota.
    do 4 exec_step. mem_simpl. rewrite Htl. change (truthy 0) with false.
    cbn [negb]. cbv iota. do 2 exec_step. mem_simpl. rewrite Hrc.
    change (truthy 0) with false. cbn [negb]. cbv iota.
    exec_step. mem_simpl. rewrite Z.eqb_refl. cbv iota.
    do 2 exec_step. mem_simpl.
    change (truthy (Z.land (Z.land 1 (Z.lnot 1)) 1)) with false. cbv iota.
    cbn [bind]. apply returns_in_Ret.
  - repeat split; to_loads; try (now mem_simpl).
    intros l H1 H2 H3 H4 H5 H6 H7. now mem_simpl.
Qed.

Lemma end_write_last (db : handle) (s : segment) (n : gint) :
  dbcheck db = true -> next (cell s n) = 0 -> tail s = n -> refcount (cell s n) = 2 ->
  exists s',
    returns_in 8 (wg_end_write dbcheck db n) s s' 1 /\
    tail s' = 0 /\ freelist s' = n /\ next_cell (cell s' n) = freelist s /\
    refcount (cell s' n) = 1 /\
    (forall l, l <> Freelist -> l <> Tail ->
       l <> Node n f_next_cell -> l <> Node n f_refcount -> load l s' = load l s).
Proof.
  intros Hv Hn Htl Hr. to_loads.
  eexists. split.
  - unfold wg_end_write, free_lock. rewrite Hv.
    cbn [negb]. exec_step. rewrite Hn. change (truthy 0) with false. cbv iota.
    exec_step. rewrite Htl, Z.eqb_refl. cbn [fst snd].
    change (negb (truthy 1)) with false. cbv iota.
    do 2 exec_step. mem_simpl. rewrite Hr.
    change (gint_wrap (2 + -2) =? 0) with true. cbn [fst snd].
    change (truthy 1) with true. cbv iota.
    do 4 exec_step. mem_simpl. rewrite Z.eqb_refl. cbn [fst snd].
    change (truthy 1) with true. cbv iota. cbn [loop_next bind].
    apply returns_in_Ret.
  - repeat split; to_loads; try (now mem_simpl).
    intros l H1 H2 H3 H4. now mem_simpl.
Qed.

Lemma start_write_behind (db : handle) (s : segment) (t p : gint) :
  dbcheck db = true -> freelist s = t -> t <> 0 -> tail s = p -> p <> 0 ->
  exists s1,
    waits_at 13 (wg_start_write dbcheck db) s s1 /\
    tail s1 = t /\ next (cell s1 p) = t /\
    Z.land (state (cell s1 p)) LOCKQ_WRITE = LOCKQ_WRITE /\
    Z.land (state (cell s1 t)) 1 = 1 /\
    reader_count s1 = reader_count s /\ next_writer s1 = next_writer s.
Proof.
  intros Hv Hf Ht Htl Hp. to_loads.
  assert (Bt : (t =? 0) = false) by now apply Z.eqb_neq.
  eexists. split.
  - unfold wg_start_write, alloc_lock. rewrite Hv. cbn [negb].
    do 2 wait_step. rewrite Hf, Bt. cbv iota.
    do 3 wait_step. mem_simpl. rewrite Hf, Z.eqb_refl. cbn [fst snd].
    change (truthy 1) with true. cbv iota. wait_step. cbn [loop_next bind].
    rewrite (truthy_true Ht). cbn [negb]. cbv iota.
    do 4 wait_step. mem_simpl. rewrite Htl, (truthy_true Hp).
    cbn [negb]. cbv iota. do 3 wait_step.
    apply waits_at_frozen.
    match goal with
    | |- context [truthy (Z.land ?v 1)] => assert (B : Z.land v 1 = 1)
    end.
    { destruct (Z.eq_dec p t) as [->|N]; mem_simpl; reflexivity. }
    rewrite B. change (truthy 1) with true. cbv iota.
    apply frozen_bind. apply spin_wait_frozen.
    to_loads. rewrite B. discriminate.
  - to_loads. split; [|split; [|split; [|split; [|split]]]].
    + now mem_simpl.
    + apply load_store_same.
    + rewrite load_store_other by loc_neq. rewrite load_store_same.
      apply lor_land_same.
    + destruct (Z.eq_dec p t) as [->|N]; mem_simpl; reflexivity.
    + now mem_simpl.
    + now mem_simpl.
Qed.

Lemma start_write_readers (db : handle) (s : segment) (t : gint) :
  dbcheck db = true -> freelist s = t -> t <> 0 -> tail s = 0 ->
  reader_count s <> 0 ->
  exists s1,
    waits_at 13 (wg_start_write dbcheck db) s s1 /\
    tail s1 = t /\ next_writer s1 = t /\ state (cell s1 t) = 1 /\
    reader_count s1 = reader_count s.
Proof.
  intros Hv Hf Ht Htl Hrc. to_loads.
  assert (Bt : (t =? 0) = false) by now apply Z.eqb_neq.
  eexists. split.
  - unfold wg_start_write, alloc_lock. rewrite Hv. cbn [negb].
    do 2 wait_step. rewrite Hf, Bt. cbv iota.
    do 3 wait_step. mem_simpl. rewrite Hf, Z.eqb_refl. cbn [fst snd].
    change (truthy 1) with true. cbv iota. wait_step. cbn [loop_next bind].
    rewrite (truthy_true Ht). cbn [negb]. cbv iota.
    do 4 wait_step. mem_simpl. rewrite Htl. change (truthy 0) with false.
    cbn [negb]. cbv iota. do 2 wait_step. mem_simpl.
    rewrite (truthy_true Hrc). cbn [negb]. cbv iota. cbn [bind].
    wait_step. mem_simpl. change (truthy (Z.land 1 1)) with true. cbv iota.
    apply waits_at_frozen. apply frozen_bind. apply spin_wait_frozen.
    to_loads. mem_simpl. discriminate.
  - to_loads. split; [|split; [|split]]; now mem_simpl.
Qed.

(** X8. A lone writer on an idle queue.  With no free cell [wg_start_write]
    returns 0 and touches nothing.  Otherwise, when the queue is empty and
    no reader is counted, it returns the cell at the head of the freelist
    as the token, unblocked and at the tail; [wg_end_write] then empties the
    queue and hands the cell back: the header and every cell are as before
    but for [next_writer] (now 0) and the token cell's queue fields. *)
Theorem queued_write_round_trip (db : handle) (s : segment) (t : gint) :
  dbcheck db = true ->
  (freelist s = 0 -> returns_in 2 (wg_start_write dbcheck db) s s 0) /\
  (freelist s = t -> t <> 0 -> tail s = 0 -> reader_count s = 0 ->
   refcount (cell s t) = 1 ->
   exists s1 s2,
     returns_in 15 (wg_start_write dbcheck db) s s1 t /\
     tail s1 = t /\ next_writer s1 = 0 /\ reader_count s1 = 0 /\
     class (cell s1 t) = LOCKQ_WRITE /\ state (cell s1 t) = 0 /\
     freelist s1 = next_cell (cell s t) /\
     returns_in 8 (wg_end_write dbcheck db t) s1 s2 1 /\
     next_writer s2 = 0 /\
     forall l, l <> Next_writer -> l <> Node t f_class -> l <> Node t f_state ->
               l <> Node t f_next -> load l s2 = load l s).
Proof.
  intros Hv. split; [now apply start_write_exhausted|].
  intros Hf Ht Htl Hrc Hr.
  destruct (@start_write_first db s t Hv Hf Ht Htl Hrc)
    as (s1 & E1 & F1 & Tl1 & Nw1 & C1 & S1 & Nx1 & Rf1 & Fr1).
  rewrite Hr in Rf1. change (gint_wrap (gint_wrap (1 + 2) + -1)) with 2 in Rf1.
  destruct (@end_write_last db s1 t Hv Nx1 Tl1 Rf1)
    as (s2 & E2 & Tl2 & F2 & Nc2 & Rf2 & Fr2).
  exists s1, s2. split; [exact E1|]. split; [exact Tl1|]. split; [exact Nw1|].
  split; [to_loads; rewrite Fr1 by loc_neq; exact Hrc|].
  split; [exact C1|]. split; [exact S1|]. split; [exact F1|].
  split; [exact E2|].
  split; [to_loads; rewrite Fr2 by loc_neq; exact Nw1|].
  intros l H1 H2 H3 H4. to_loads.
  destruct (loc_eq_dec l Freelist) as [->|N1]; [congruence|].
  destruct (loc_eq_dec l Tail) as [->|N2]; [congruence|].
  destruct (loc_eq_dec l (Node t f_next_cell)) as [->|N3].
  { rewrite Nc2, F1. reflexivity. }
  destruct (loc_eq_dec l (Node t f_refcount)) as [->|N4]; [congruence|].
  rewrite Fr2 by assumption. now apply Fr1.
Qed.

(** X10. A lone [wg_start_write] returns exactly when the queue is empty and no
    reader is counted.  Behind a tail cell it marks the predecessor with
    [LOCKQ_WRITE], links itself after it and spins on its own blocked bit;
    with readers counted it leaves itself in [next_writer] and spins. *)
Theorem queued_start_write_returns_iff (db : handle) (s : segment) (t : gint) :
  dbcheck db = true -> freelist s = t -> t <> 0 ->
  (tail s <> 0 ->
   exists s1,
     never_returns (wg_start_write dbcheck db) s /\
     rests_at 13 (wg_start_write dbcheck db) s s1 /\
     tail s1 = t /\ next (cell s1 (tail s)) = t /\
     Z.land (state (cell s1 (tail s))) LOCKQ_WRITE = LOCKQ_WRITE /\
     Z.land (state (cell s1 t)) 1 = 1 /\ reader_count s1 = reader_count s) /\
  (tail s = 0 -> reader_count s <> 0 ->
   exists s1,
     never_returns (wg_start_write dbcheck db) s /\
     rests_at 13 (wg_start_write dbcheck db) s s1 /\
     tail s1 = t /\ next_writer s1 = t /\ state (cell s1 t) = 1 /\
     reader_count s1 = reader_count s) /\
  ((exists s1 v, returns (wg_start_write dbcheck db) s s1 v)
   <-> tail s = 0 /\ reader_count s = 0).
Proof.
  intros Hv Hf Ht.
  assert (W1 : tail s <> 0 -> never_returns (wg_start_write dbcheck db) s /\
    exists s1, rests_at 13 (wg_start_write dbcheck db) s s1 /\
     tail s1 = t /\ next (cell s1 (tail s)) = t /\
     Z.land (state (cell s1 (tail s))) LOCKQ_WRITE = LOCKQ_WRITE /\
     Z.land (state (cell s1 t)) 1 = 1 /\ reader_count s1 = reader_count s).
  { intros Hp.
    destruct (@start_write_behind db s t (tail s) Hv Hf Ht eq_refl Hp)
      as (s1 & W & A & B & C & D & E & _).
    destruct (waits_at_alone W) as [N R]. split; [exact N|].
    exists s1. auto 10. }
  assert (W2 : tail s = 0 -> reader_count s <> 0 ->
    never_returns (wg_start_write dbcheck db) s /\
    exists s1, rests_at 13 (wg_start_write dbcheck db) s s1 /\
     tail s1 = t /\ next_writer s1 = t /\ state (cell s1 t) = 1 /\
     reader_count s1 = reader_count s).
  { intros Htl Hrc.
    destruct (@start_write_readers db s t Hv Hf Ht Htl Hrc)
      as (s1 & W & A & B & C & D).
    destruct (waits_at_alone W) as [N R]. split; [exact N|].
    exists s1. auto 10. }
  split; [|split; [|split]].
  - intros Hp. destruct (W1 Hp) as [N (s1 & R)]. exists s1. auto.
  - intros Htl Hrc. destruct (W2 Htl Hrc) as [N (s1 & R)]. exists s1. auto.
  - intros (s1 & v & R).
    destruct (Z.eq_dec (tail s) 0) as [Htl|Hp].
    + split; [exact Htl|].
      destruct (Z.eq_dec (reader_count s) 0) as [Hrc|Hrc]; [exact Hrc|].
      destruct (W2 Htl Hrc) as [N _]. now elim (never_returns_not N R).
    + destruct (W1 Hp) as [N _]. now elim (never_returns_not N R).
  - intros [Htl Hrc].
    destruct (@start_write_first db s t Hv Hf Ht Htl Hrc) as (s1 & E1 & _).
    exists s1, t. now exists 15%nat.
Qed.

Lemma start_read_behind_writer (db : handle) (s : segment) (t p : gint) :
  dbcheck db = true -> freelist s = t -> t <> 0 -> tail s = p -> p <> 0 -> p <> t ->
  Z.land (class (cell s p)) LOCKQ_WRITE <> 0 ->
  exists s1,
    waits_at 14 (wg_start_read dbcheck db) s s1 /\
    tail s1 = t /\ next (cell s1 p) = t /\ state (cell s1 t) = 1 /\
    state (cell s1 p) = state (cell s p) /\ reader_count s1 = reader_count s.
Proof.
  intros Hv Hf Ht Htl Hp Hpt Hc. to_loads.
  assert (Bt : (t =? 0) = false) by now apply Z.eqb_neq.
  eexists. split.
  - apply waits_at_le with (n := 13%nat); [|lia].
    unfold wg_start_read, alloc_lock. rewrite Hv. cbn [negb].
    do 2 wait_step. rewrite Hf, Bt. cbv iota.
    do 3 wait_step. mem_simpl. rewrite Hf, Z.eqb_refl. cbn [fst snd].
    change (truthy 1) with true. cbv iota. wait_step. cbn [loop_next bind].
    rewrite (truthy_true Ht). cbn [negb]. cbv iota.
    do 4 wait_step. mem_simpl. rewrite Htl, (truthy_true Hp).
    cbn [negb]. cbv iota. wait_step. mem_simpl. rewrite (truthy_true Hc).
    cbv iota. cbn [bind]. do 2 wait_step. mem_simpl.
    change (truthy (Z.land 1 1)) with true. cbv iota.
    apply waits_at_frozen. apply frozen_bind. apply spin_wait_frozen.
    to_loads. mem_simpl. discriminate.
  - to_loads. split; [|split; [|split; [|split]]]; now mem_simpl.
Qed.

Lemma start_read_behind_blocked (db : handle) (s : segment) (t p : gint) :
  dbcheck db = true -> freelist s = t -> t <> 0 -> tail s = p -> p <> 0 -> p <> t ->
  Z.land (class (cell s p)) LOCKQ_WRITE = 0 -> state (cell s p) = 1 ->
  exists s1,
    waits_at 14 (wg_start_read dbcheck db) s s1 /\
    tail s1 = t /\ next (cell s1 p) = t /\ state (cell s1 t) = 1 /\
    state (cell s1 p) = Z.lor 1 LOCKQ_READ /\ reader_count s1 = reader_count s.
Proof.
  intros Hv Hf Ht Htl Hp Hpt Hc Hst. to_loads.
  assert (Bt : (t =? 0) = false) by now apply Z.eqb_neq.
  eexists. split.
  - unfold wg_start_read, alloc_lock. rewrite Hv. cbn [negb].
    do 2 wait_step. rewrite Hf, Bt. cbv iota.
    do 3 wait_step. mem_simpl. rewrite Hf, Z.eqb_refl. cbn [fst snd].
    change (truthy 1) with true. cbv iota. wait_step. cbn [loop_next bind].
    rewrite (truthy_true Ht). cbn [negb]. cbv iota.
    do 4 wait_step. mem_simpl. rewrite Htl, (truthy_true Hp).
    cbn [negb]. cbv iota. wait_step. mem_simpl. rewrite Hc.
    change (truthy 0) with false. cbv iota. wait_step. mem_simpl.
    rewrite Hst, Z.eqb_refl. cbn [fst snd]. change (truthy 1) with true.
    cbv iota. cbn [bind]. do 2 wait_step. mem_simpl.
    change (truthy (Z.land 1 1)) with true. cbv iota.
    apply waits_at_frozen. apply frozen_bind. apply spin_wait_frozen.
    to_loads. mem_simpl. discriminate.
  - to_loads. split; [|split; [|split; [|split]]]; now mem_simpl.
Qed.

(** X11. A lone [wg_start_read] with a free cell returns exactly when the queue
    is empty or its predecessor is a reader that is not blocked.  Behind a
    writer, or behind a blocked reader, it links itself after the
    predecessor and spins on its own blocked bit; the reader count is not
    touched. *)
Theorem queued_start_read_returns_iff (db : handle) (s : segment) (t : gint) :
  dbcheck db = true -> freelist s = t -> t <> 0 -> tail s <> t ->
  let p := tail s in
  let behind := p <> 0 /\
    (Z.land (class (cell s p)) LOCKQ_WRITE <> 0 \/ state (cell s p) = 1) in
  (behind ->
   exists s1,
     never_returns (wg_start_read dbcheck db) s /\
     rests_at 14 (wg_start_read dbcheck db) s s1 /\
     tail s1 = t /\ next (cell s1 p) = t /\ state (cell s1 t) = 1 /\
     reader_count s1 = reader_count s) /\
  ((exists s1 v, returns (wg_start_read dbcheck db) s s1 v) <-> ~ behind).
Proof.
  intros Hv Hf Ht Hpt p behind.
  assert (W : behind ->
   never_returns (wg_start_read dbcheck db) s /\
   exists s1,
     rests_at 14 (wg_start_read dbcheck db) s s1 /\
     tail s1 = t /\ next (cell s1 p) = t /\ state (cell s1 t) = 1 /\
     reader_count s1 = reader_count s).
  { intros [Hp Hb].
    destruct (Z.eq_dec (Z.land (class (cell s p)) LOCKQ_WRITE) 0) as [Hc|Hc].
    - destruct Hb as [Hb|Hb]; [now elim Hb|].
      destruct (@start_read_behind_blocked db s t p Hv Hf Ht eq_refl Hp Hpt Hc Hb)
        as (s1 & W & A & B & C & _ & E).
      destruct (waits_at_alone W) as [N R]. split; [exact N|]. exists s1. auto.
    - destruct (@start_read_behind_writer db s t p Hv Hf Ht eq_refl Hp Hpt Hc)
        as (s1 & W & A & B & C & _ & E).
      destruct (waits_at_alone W) as [N R]. split; [exact N|]. exists s1. auto. }
  split; [|split].
  - intros Hb. destruct (W Hb) as [N (s1 & R)]. exists s1. auto.
  - intros (s1 & v & R) Hb. destruct (W Hb) as [N _].
    now elim (never_returns_not N R).
  - intros Hn. destruct (Z.eq_dec p 0) as [Hp|Hp].
    + destruct (@start_read_first _ dbcheck db s t Hv Hf Ht Hp) as (s1 & E1 & _).
      exists s1, t. now exists 13%nat.
    + destruct (@start_read_join _ dbcheck db s t p Hv Hf Ht eq_refl Hp Hpt)
        as (s1 & E1 & _).
      * destruct (Z.eq_dec (Z.land (class (cell s p)) LOCKQ_WRITE) 0) as [Hc|Hc];
          [exact Hc|]. elim Hn. split; auto.
      * intros Hst. elim Hn. split; auto.
      * exists s1, t. now exists 16%nat.
Qed.

Lemma end_write_linked (db : handle) (s : segment) (t n : gint) :
  dbcheck db = true -> next (cell s t) = n -> n <> 0 -> refcount (cell s t) = 2 ->
  exists s',
    returns_in 14 (wg_end_write dbcheck db t) s s' 1 /\
    state (cell s' n) = Z.land (state (cell s n)) (Z.lnot 1) /\
    reader_count s' =
      (if Z.land (class (cell s n)) LOCKQ_READ =? 0 then reader_count s
       else gint_wrap (reader_count s + 1)) /\
    tail s' = tail s /\ next_writer s' = next_writer s /\
    freelist s' = t /\ next_cell (cell s' t) = freelist s /\
    refcount (cell s' t) = 1 /\
    (forall l, l <> Freelist -> l <> Reader_count -> l <> Node n f_state ->
       l <> Node t f_next_cell -> l <> Node t f_refcount -> load l s' = load l s).
Proof.
  intros Hv Hn Hn0 Hr. to_loads.
  destruct (Z.land (load (Node n f_class) s) LOCKQ_READ =? 0) eqn:Bc.
  - eexists. split.
    + unfold wg_end_write, wait_next, free_lock. rewrite Hv.
      cbn [negb]. exec_step. rewrite Hn, (truthy_true Hn0). cbv iota. cbn [bind].
      do 2 exec_step. rewrite Hn, (truthy_true Hn0). cbv iota. cbn [loop_next bind].
      do 2 exec_step. rewrite Hn. unfold truthy at 1. rewrite Bc. cbn [negb].
      cbv iota. cbn [bind].
      do 3 exec_step. mem_simpl. rewrite Hr.
      change (gint_wrap (2 + -2) =? 0) with true. cbn [fst snd].
      change (truthy 1) with true. cbv iota.
      do 4 exec_step. mem_simpl. rewrite Z.eqb_refl. cbn [fst snd].
      change (truthy 1) with true. cbv iota. cbn [loop_next bind].
      eapply returns_in_le; [apply returns_in_Ret | lia].
    + to_loads. repeat (split; [now mem_simpl|]).
      intros l H1 H2 H3 H4 H5. now mem_simpl.
  - eexists. split.
    + unfold wg_end_write, wait_next, free_lock. rewrite Hv.
      cbn [negb]. exec_step. rewrite Hn, (truthy_true Hn0). cbv iota. cbn [bind].
      do 2 exec_step. rewrite Hn, (truthy_true Hn0). cbv iota. cbn [loop_next bind].
      do 2 exec_step. rewrite Hn. unfold truthy at 1. rewrite Bc. cbn [negb].
      cbv iota. cbn [bind].
      do 4 exec_step. mem_simpl. rewrite Hr.
      change (gint_wrap (2 + -2) =? 0) with true. cbn [fst snd].
      change (truthy 1) with true. cbv iota.
      do 4 exec_step. mem_simpl. rewrite Z.eqb_refl. cbn [fst snd].
      change (truthy 1) with true. cbv iota. cbn [loop_next bind].
      eapply returns_in_le; [apply returns_in_Ret | lia].
    + to_loads. repeat (split; [now mem_simpl|]).
      intros l H1 H2 H3 H4 H5. now mem_simpl.
Qed.

(** X12. [wg_end_write] with a successor in the queue: the successor's blocked
    bit is cleared (its other state bits stay), the reader count goes up by
    one exactly when the successor is a reader, the tail is not touched and
    the token cell goes back on the freelist. *)
Theorem end_write_hands_over (db : handle) (s : segment) (t n : gint) :
  dbcheck db = true -> next (cell s t) = n -> n <> 0 -> refcount (cell s t) = 2 ->
  exists s',
    returns_in 14 (wg_end_write dbcheck db t) s s' 1 /\
    state (cell s' n) = Z.land (state (cell s n)) (Z.lnot 1) /\
    reader_count s' =
      (if Z.land (class (cell s n)) LOCKQ_READ =? 0 then reader_count s
       else gint_wrap (reader_count s + 1)) /\
    tail s' = tail s /\ next_writer s' = next_writer s /\
    freelist s' = t /\ next_cell (cell s' t) = freelist s /\
    refcount (cell s' t) = 1 /\
    (forall l, l <> Freelist -> l <> Reader_count -> l <> Node n f_state ->
       l <> Node t f_next_cell -> l <> Node t f_refcount -> load l s' = load l s).
Proof. exact (@end_write_linked db s t n). Qed.

Lemma end_read_linked_writer (db : handle) (s : segment) (t w : gint) :
  dbcheck db = true -> next (cell s t) = w -> w <> 0 ->
  Z.land (state (cell s t)) LOCKQ_WRITE <> 0 -> refcount (cell s t) = 2 ->
  exists s',
    returns_in 15 (wg_end_read dbcheck db t) s s' 1 /\
    reader_count s' = gint_wrap (reader_count s + -1) /\
    next_writer s' = (if reader_count s =? 1 then 0 else w) /\
    state (cell s' w) =
      (if reader_count s =? 1 then Z.land (state (cell s w)) (Z.lnot 1)
       else state (cell s w)) /\
    tail s' = tail s /\ freelist s' = t /\ next_cell (cell s' t) = freelist s /\
    refcount (cell s' t) = 1.
Proof.
  intros Hv Hn Hw Hst Hr. to_loads.
  destruct (load Reader_count s =? 1) eqn:B1.
  - eexists. split.
    + unfold wg_end_read, wait_next, end_read_handoff, free_lock. rewrite Hv.
      cbn [negb]. exec_step. rewrite Hn, (truthy_true Hw). cbv iota. cbn [bind].
      do 2 exec_step. rewrite Hn, (truthy_true Hw). cbv iota. cbn [loop_next bind].
      exec_step. rewrite (truthy_true Hst). cbv iota. cbn [bind].
      do 3 exec_step. mem_simpl. rewrite B1. cbv iota. cbn [bind].
      exec_step. mem_simpl. rewrite Hn, (truthy_true Hw). cbv iota. cbn [bind].
      do 3 exec_step. mem_simpl. rewrite Hr.
      change (gint_wrap (2 + -2) =? 0) with true. cbn [fst snd].
      change (truthy 1) with true. cbv iota.
      do 4 exec_step. mem_simpl. rewrite Z.eqb_refl. cbn [fst snd].
      change (truthy 1) with true. cbv iota. cbn [loop_next bind].
      eapply returns_in_le; [apply returns_in_Ret | lia].
    + to_loads. rewrite ?Hn. repeat (split; [now mem_simpl|]). now mem_simpl.
  - eexists. split.
    + unfold wg_end_read, wait_next, end_read_handoff, free_lock. rewrite Hv.
      cbn [negb]. exec_step. rewrite Hn, (truthy_true Hw). cbv iota. cbn [bind].
      do 2 exec_step. rewrite Hn, (truthy_true Hw). cbv iota. cbn [loop_next bind].
      exec_step. rewrite (truthy_true Hst). cbv iota. cbn [bind].
      do 3 exec_step. mem_simpl. rewrite B1. cbv iota. cbn [bind].
      do 2 exec_step. mem_simpl. rewrite Hr.
      change (gint_wrap (2 + -2) =? 0) with true. cbn [fst snd].
      change (truthy 1) with true. cbv iota.
      do 4 exec_step. mem_simpl. rewrite Z.eqb_refl. cbn [fst snd].
      change (truthy 1) with true. cbv iota. cbn [loop_next bind].
      eapply returns_in_le; [apply returns_in_Ret | lia].
    + to_loads. rewrite ?Hn. repeat (split; [now mem_simpl|]). now mem_simpl.
Qed.

(** X13. [wg_end_read] of a reader whose successor is a writer: the successor
    becomes [next_writer]; the caller that takes the reader count from 1 to 0
    then takes it out again and clears its blocked bit, any other caller
    leaves it registered and blocked. *)
Theorem end_read_hands_over_to_writer (db : handle) (s : segment) (t w : gint) :
  dbcheck db = true -> next (cell s t) = w -> w <> 0 ->
  Z.land (state (cell s t)) LOCKQ_WRITE <> 0 -> refcount (cell s t) = 2 ->
  exists s',
    returns_in 15 (wg_end_read dbcheck db t) s s' 1 /\
    reader_count s' = gint_wrap (reader_count s + -1) /\
    next_writer s' = (if reader_count s =? 1 then 0 else w) /\
    state (cell s' w) =
      (if reader_count s =? 1 then Z.land (state (cell s w)) (Z.lnot 1)
       else state (cell s w)) /\
    tail s' = tail s /\ freelist s' = t /\ next_cell (cell s' t) = freelist s /\
    refcount (cell s' t) = 1.
Proof. exact (@end_read_linked_writer db s t w). Qed.

Lemma end_write_stale (db : handle) (s : segment) (t : gint) :
  dbcheck db = true -> next (cell s t) = 0 -> tail s <> t ->
  frozen (wg_end_write dbcheck db t) s (fun _ => False).
Proof.
  intros Hv Hn Htl. to_loads. apply Z.eqb_neq in Htl.
  unfold wg_end_write. rewrite Hv. cbn [negb]. exec_norm.
  cbn [frozen fst snd]. split; [reflexivity|]. rewrite Hn.
  change (truthy 0) with false. cbv iota. cbn [bind frozen fst snd].
  rewrite Htl. cbn [fst snd]. split; [reflexivity|].
  change (negb (truthy 0)) with true. cbv iota.
  apply frozen_bind. apply wait_next_frozen. exact Hn.
Qed.

Lemma end_read_stale (db : handle) (s : segment) (t : gint) :
  dbcheck db = true -> next (cell s t) = 0 -> tail s <> t ->
  frozen (wg_end_read dbcheck db t) s (fun _ => False).
Proof.
  intros Hv Hn Htl. to_loads. apply Z.eqb_neq in Htl.
  unfold wg_end_read. rewrite Hv. cbn [negb]. exec_norm.
  cbn [frozen fst snd]. split; [reflexivity|]. rewrite Hn.
  change (truthy 0) with false. cbv iota. cbn [bind frozen fst snd].
  rewrite Htl. cbn [fst snd]. split; [reflexivity|].
  change (negb (truthy 0)) with true. cbv iota.
  apply frozen_bind. apply wait_next_frozen. exact Hn.
Qed.

(** X14. A release with a token that is not in the queue: the cell has no
    successor and is not the tail, so the release waits for a successor
    that never comes.  This is what a second release of the same token
    does.  Nothing is written. *)
Theorem queued_release_of_stale_token_waits (db : handle) (s : segment) (t : gint) :
  dbcheck db = true -> next (cell s t) = 0 -> tail s <> t ->
  (never_returns (wg_end_write dbcheck db t) s /\
   rests_at 0 (wg_end_write dbcheck db t) s s) /\
  (never_returns (wg_end_read dbcheck db t) s /\
   rests_at 0 (wg_end_read dbcheck db t) s s).
Proof.
  intros Hv Hn Htl. split; apply waits_at_alone; apply waits_at_frozen.
  - now apply end_write_stale.
  - now apply end_read_stale.
Qed.

Lemma end_read_sole (db : handle) (s : segment) (n : gint) :
  dbcheck db = true -> next (cell s n) = 0 -> tail s = n ->
  reader_count s = 1 -> next_writer s = 0 -> refcount (cell s n) = 2 ->
  exists s',
    returns_in 10 (wg_end_read dbcheck db n) s s' 1 /\
    tail s' = 0 /\ reader_count s' = 0 /\ next_writer s' = 0 /\
    freelist s' = n /\ next_cell (cell s' n) = freelist s /\
    refcount (cell s' n) = 1 /\
    (forall l, l <> Freelist -> l <> Tail -> l <> Reader_count -> l <> Next_writer ->
       l <> Node n f_next_cell -> l <> Node n f_refcount -> load l s' = load l s).
Proof.
  intros Hv Hn Htl Hrc Hnw Hr. to_loads.
  eexists. split.
  - unfold wg_end_read, end_read_handoff, free_lock. rewrite Hv.
    cbn [negb]. exec_step. rewrite Hn. change (truthy 0) with false. cbv iota.
    exec_step. rewrite Htl, Z.eqb_refl. cbn [fst snd].
    change (negb (truthy 1)) with false. cbv iota.
    exec_step. mem_simpl. rewrite Hrc. change (1 =? 1) with true. cbv iota.
    cbn [bind]. exec_step. mem_simpl. rewrite Hnw.
    change (truthy 0) with false. cbv iota. cbn [bind].
    do 2 exec_step. mem_simpl. rewrite Hr.
    change (gint_wrap (2 + -2) =? 0) with true. cbn [fst snd].
    change (truthy 1) with true. cbv iota.
    do 4 exec_step. mem_simpl. rewrite Z.eqb_refl. cbn [fst snd].
    change (truthy 1) with true. cbv iota. cbn [loop_next bind].
    eapply returns_in_le; [apply returns_in_Ret | lia].
  - to_loads. repeat (split; [now mem_simpl|]).
    intros l H1 H2 H3 H4 H5 H6. now mem_simpl.
Qed.

(** X9. A lone reader on an idle queue: [wg_start_read] returns the cell at
    the head of the freelist as the token and counts one reader;
    [wg_end_read] then empties the queue, takes the count back to 0 and
    hands the cell back: the header and every cell are as before but for
    the token cell's queue fields. *)
Theorem queued_read_round_trip (db : handle) (s : segment) (t : gint) :
  dbcheck db = true -> freelist s = t -> t <> 0 -> tail s = 0 ->
  reader_count s = 0 -> next_writer s = 0 -> refcount (cell s t) = 1 ->
  exists s1 s2,
    returns_in 13 (wg_start_read dbcheck db) s s1 t /\
    tail s1 = t /\ reader_count s1 = 1 /\
    class (cell s1 t) = LOCKQ_READ /\ state (cell s1 t) = 0 /\
    freelist s1 = next_cell (cell s t) /\
    returns_in 10 (wg_end_read dbcheck db t) s1 s2 1 /\
    forall l, l <> Node t f_class -> l <> Node t f_state -> l <> Node t f_next ->
              load l s2 = load l s.
Proof.
  intros Hv Hf Ht Htl Hrc Hnw Hr.
  destruct (@start_read_first _ dbcheck db s t Hv Hf Ht Htl)
    as (s1 & E1 & F1 & Tl1 & Rc1 & C1 & S1 & Nx1 & Rf1 & Fr1).
  rewrite Hrc in Rc1. change (gint_wrap (0 + 1)) with 1 in Rc1.
  rewrite Hr in Rf1. change (gint_wrap (gint_wrap (1 + 2) + -1)) with 2 in Rf1.
  assert (Nw1 : next_writer s1 = 0)
    by (to_loads; rewrite Fr1 by loc_neq; exact Hnw).
  destruct (@end_read_sole db s1 t Hv Nx1 Tl1 Rc1 Nw1 Rf1)
    as (s2 & E2 & Tl2 & Rc2 & Nw2 & F2 & Nc2 & Rf2 & Fr2).
  exists s1, s2. repeat (split; [assumption|]).
  intros l H1 H2 H3. to_loads.
  destruct (loc_eq_dec l Freelist) as [->|N1]; [congruence|].
  destruct (loc_eq_dec l Tail) as [->|N2]; [congruence|].
  destruct (loc_eq_dec l Reader_count) as [->|N3]; [congruence|].
  destruct (loc_eq_dec l Next_writer) as [->|N4]; [congruence|].
  destruct (loc_eq_dec l (Node t f_next_cell)) as [->|N5].
  { rewrite Nc2, F1. reflexivity. }
  destruct (loc_eq_dec l (Node t f_refcount)) as [->|N6]; [congruence|].
  rewrite Fr2 by assumption. now apply Fr1.
Qed.

End Alone.

(** X15. [free_lock] takes 2 from the reference count; the cell goes back on
    the freelist, with the count set to 1, exactly when that leaves 0.
    Otherwise the count is all that changes. *)
Theorem free_lock_last_reference (s : segment) (n : gint) :
  let r := gint_wrap (refcount (cell s n) + -2) in
  exists s',
    returns_in 6 (free_lock n) s s' tt /\
    refcount (cell s' n) = (if r =? 0 then 1 else r) /\
    freelist s' = (if r =? 0 then n else freelist s) /\
    next_cell (cell s' n) = (if r =? 0 then freelist s else next_cell (cell s n)) /\
    (forall l, l <> Freelist -> l <> Node n f_refcount -> l <> Node n f_next_cell ->
       load l s' = load l s).
Proof.
  intros r. unfold r. to_loads.
  destruct (gint_wrap (load (Node n f_refcount) s + -2) =? 0) eqn:B.
  - eexists. split.
    + unfold free_lock. do 2 exec_step. mem_simpl. rewrite B. cbn [fst snd].
      change (truthy 1) with true. cbv iota.
      do 4 exec_step. mem_simpl. rewrite Z.eqb_refl. cbn [fst snd].
      change (truthy 1) with true. cbv iota. cbn [loop_next].
      eapply returns_in_le; [apply returns_in_Ret | lia].
    + to_loads. repeat (split; [now mem_simpl|]).
      intros l H1 H2 H3. now mem_simpl.
  - eexists. split.
    + unfold free_lock. do 2 exec_step. mem_simpl. rewrite B. cbn [fst snd].
      change (truthy 0) with false. cbv iota.
      eapply returns_in_le; [apply returns_in_Ret | lia].
    + to_loads. repeat (split; [now mem_simpl|]).
      intros l H1 H2 H3. now mem_simpl.
Qed.

(** X16. Taking the head cell of the freelist and giving it back leaves the
    whole segment as it was. *)
Theorem alloc_free_round_trip (s : segment) (t : gint) :
  freelist s = t -> t <> 0 -> refcount (cell s t) = 1 ->
  exists s1 s2,
    returns_in 6 alloc_lock s s1 t /\
    refcount (cell s1 t) = 2 /\ freelist s1 = next_cell (cell s t) /\
    returns_in 6 (free_lock t) s1 s2 tt /\
    forall l, load l s2 = load l s.
Proof.
  intros Hf Ht Hr.
  assert (Hf' : freelist s <> 0) by congruence.
  destruct (alloc_lock_takes s Hf') as (s1 & E1 & F1 & R1 & Fr1).
  rewrite Hf in E1, F1, R1, Fr1. rewrite Hr in R1.
  change (gint_wrap (gint_wrap (1 + 2) + -1)) with 2 in R1.
  destruct (free_lock_pushes s1 t R1) as (s2 & E2 & F2 & N2 & R2 & Fr2).
  exists s1, s2. repeat (split; [assumption|]).
  intros l. to_loads.
  destruct (loc_eq_dec l Freelist) as [->|N1]; [congruence|].
  destruct (loc_eq_dec l (Node t f_refcount)) as [->|N3]; [congruence|].
  destruct (loc_eq_dec l (Node t f_next_cell)) as [->|N4]; [congruence|].
  rewrite Fr2 by assumption. now apply Fr1.
Qed.

(** X17. [deref_link] returns 0 for an empty link and touches nothing.  For a
    link to a cell it returns the cell and adds 2 to the cell's reference
    count; a [free_lock] of the cell then takes the reference back and
    leaves the segment as it was, provided the cell was referenced before
    (a count of 0 would put the cell on the freelist). *)
Theorem deref_link_takes_a_reference (s : segment) (link : loc) (t : gint) :
  (load link s = 0 -> returns_in 2 (deref_link link) s s 0) /\
  (load link s = t -> t <> 0 -> link <> Node t f_refcount ->
   exists s1,
     returns_in 4 (deref_link link) s s1 t /\
     refcount (cell s1 t) = gint_wrap (refcount (cell s t) + 2) /\
     (forall l, l <> Node t f_refcount -> load l s1 = load l s) /\
     (in_gint (refcount (cell s t)) -> refcount (cell s t) <> 0 ->
      exists s2,
        returns_in 2 (free_lock t) s1 s2 tt /\ forall l, load l s2 = load l s)).
Proof.
  split.
  - intros H0. unfold deref_link. do 2 exec_step. rewrite H0.
    change (0 =? 0) with true. cbv iota. cbn [loop_next].
    apply returns_in_Ret.
  - intros Hl Ht Hn. to_loads.
    assert (Bt : (t =? 0) = false) by now apply Z.eqb_neq.
    eexists. split; [|split; [|split]].
    + unfold deref_link. do 2 exec_step. rewrite Hl, Bt. cbv iota.
      do 2 exec_step. mem_simpl. rewrite Hl, Z.eqb_refl. cbv iota.
      cbn [loop_next]. apply returns_in_Ret.
    + to_loads. now mem_simpl.
    + intros l H1. now mem_simpl.
    + intros Hr Hr0. to_loads.
      assert (E : gint_wrap (gint_wrap (load (Node t f_refcount) s + 2) + -2)
                  = load (Node t f_refcount) s)
        by (apply (SimpleAlone.gint_wrap_back 2 Hr)).
      eexists. split.
      * unfold free_lock. do 2 exec_step. mem_simpl. rewrite E.
        replace (load (Node t f_refcount) s =? 0) with false
          by (symmetry; now apply Z.eqb_neq).
        cbn [fst snd]. change (truthy 0) with false. cbv iota.
        apply returns_in_Ret.
      * intros l. destruct (loc_eq_dec l (Node t f_refcount)) as [->|N].
        -- mem_simpl. reflexivity.
        -- now mem_simpl.
Qed.


Lemma booted_idle :
  freelist Scenario.booted = 1024 /\ tail Scenario.booted = 0 /\
  reader_count Scenario.booted = 0 /\ next_writer Scenario.booted = 0 /\
  refcount (cell Scenario.booted 1024) = 1 /\ next (cell Scenario.booted 1024) = 0.
Proof. vm_compute. repeat split. Qed.

Lemma writer_queue_held :
  freelist Scenario.writer_queue = 1280 /\ tail Scenario.writer_queue = 1152 /\
  next (cell Scenario.writer_queue 1024) = 1152 /\
  refcount (cell Scenario.writer_queue 1024) = 2 /\
  class (cell Scenario.writer_queue 1152) = LOCKQ_WRITE /\
  state (cell Scenario.writer_queue 1152) = 1.
Proof. vm_compute. repeat split. Qed.

Lemma reader_queue_held :
  next (cell Scenario.reader_queue 1024) = 1152 /\
  state (cell Scenario.reader_queue 1024) = LOCKQ_WRITE /\
  refcount (cell Scenario.reader_queue 1024) = 2 /\
  reader_count Scenario.reader_queue = 1 /\
  state (cell Scenario.reader_queue 1152) = 1.
Proof. vm_compute. repeat split. Qed.

Lemma queued_write_round_trip_witness :
  Scenario.any_handle tt = true /\
  exists s1 s2,
    returns_in 15 (wg_start_write Scenario.any_handle tt) Scenario.booted s1 1024 /\
    returns_in 8 (wg_end_write Scenario.any_handle tt 1024) s1 s2 1.
Proof.
  split; [reflexivity|].
  destruct booted_idle as (F & T & R & N & Rf & Nx).
  destruct (proj2 (@queued_write_round_trip unit Scenario.any_handle tt
                     Scenario.booted 1024 eq_refl)
              F ltac:(discriminate) T R Rf)
    as (s1 & s2 & H1 & _ & _ & _ & _ & _ & _ & H2 & _).
  exists s1, s2. split; assumption.
Defined.

Lemma queued_read_round_trip_witness :
  Scenario.any_handle tt = true /\
  exists s1 s2,
    returns_in 13 (wg_start_read Scenario.any_handle tt) Scenario.booted s1 1024 /\
    returns_in 10 (wg_end_read Scenario.any_handle tt 1024) s1 s2 1.
Proof.
  split; [reflexivity|].
  destruct booted_idle as (F & T & R & N & Rf & Nx).
  destruct (@queued_read_round_trip unit Scenario.any_handle tt
              Scenario.booted 1024 eq_refl F ltac:(discriminate) T R N Rf)
    as (s1 & s2 & H1 & _ & _ & _ & _ & _ & H2 & _).
  exists s1, s2. split; assumption.
Defined.

Lemma queued_start_write_returns_iff_witness :
  Scenario.any_handle tt = true /\ freelist Scenario.writer_queue = 1280 /\
  never_returns (wg_start_write Scenario.any_handle tt) Scenario.writer_queue.
Proof.
  destruct writer_queue_held as (F & T & _).
  split; [reflexivity|]. split; [exact F|].
  destruct (@queued_start_write_returns_iff unit Scenario.any_handle tt
              Scenario.writer_queue 1280 eq_refl F ltac:(discriminate)) as [W _].
  destruct W as (s1 & N & _); [rewrite T; discriminate | exact N].
Defined.

Lemma queued_start_read_returns_iff_witness :
  Scenario.any_handle tt = true /\ freelist Scenario.writer_queue = 1280 /\
  tail Scenario.writer_queue <> 1280 /\
  never_returns (wg_start_read Scenario.any_handle tt) Scenario.writer_queue.
Proof.
  destruct writer_queue_held as (F & T & _ & _ & C & _).
  assert (T' : tail Scenario.writer_queue <> 1280) by (rewrite T; discriminate).
  split; [reflexivity|]. split; [exact F|]. split; [exact T'|].
  destruct (@queued_start_read_returns_iff unit Scenario.any_handle tt
              Scenario.writer_queue 1280 eq_refl F ltac:(discriminate) T') as [W _].
  destruct W as (s1 & N & _); [|exact N].
  rewrite T. split; [discriminate | left; rewrite C; discriminate].
Defined.

Lemma end_write_hands_over_witness :
  Scenario.any_handle tt = true /\
  next (cell Scenario.writer_queue 1024) = 1152 /\
  refcount (cell Scenario.writer_queue 1024) = 2 /\
  exists s',
    returns_in 14 (wg_end_write Scenario.any_handle tt 1024) Scenario.writer_queue s' 1 /\
    state (cell s' 1152) = 0.
Proof.
  destruct writer_queue_held as (_ & _ & Nx & Rf & _ & St).
  split; [reflexivity|]. split; [exact Nx|]. split; [exact Rf|].
  destruct (@end_write_hands_over unit Scenario.any_handle tt
              Scenario.writer_queue 1024 1152 eq_refl Nx ltac:(discriminate) Rf)
    as (s' & H1 & H2 & _).
  exists s'. split; [exact H1|]. rewrite H2, St. reflexivity.
Defined.

Lemma end_read_hands_over_to_writer_witness :
  Scenario.any_handle tt = true /\
  next (cell Scenario.reader_queue 1024) = 1152 /\
  Z.land (state (cell Scenario.reader_queue 1024)) LOCKQ_WRITE <> 0 /\
  refcount (cell Scenario.reader_queue 1024) = 2 /\
  reader_count Scenario.reader_queue = 1 /\
  exists s',
    returns_in 15 (wg_end_read Scenario.any_handle tt 1024) Scenario.reader_queue s' 1 /\
    next_writer s' = 0 /\ state (cell s' 1152) = 0.
Proof.
  destruct reader_queue_held as (Nx & St & Rf & Rc & St').
  assert (W : Z.land (state (cell Scenario.reader_queue 1024)) LOCKQ_WRITE <> 0)
    by (rewrite St; discriminate).
  split; [reflexivity|]. split; [exact Nx|]. split; [exact W|].
  split; [exact Rf|]. split; [exact Rc|].
  destruct (@end_read_hands_over_to_writer unit Scenario.any_handle tt
              Scenario.reader_queue 1024 1152 eq_refl Nx ltac:(discriminate) W Rf)
    as (s' & H1 & _ & H2 & H3 & _).
  exists s'. split; [exact H1|]. split.
  - rewrite H2, Rc. reflexivity.
  - rewrite H3, Rc, St'. reflexivity.
Defined.

Lemma queued_release_of_stale_token_waits_witness :
  Scenario.any_handle tt = true /\ next (cell Scenario.booted 1024) = 0 /\
  tail Scenario.booted <> 1024 /\
  never_returns (wg_end_write Scenario.any_handle tt 1024) Scenario.booted /\
  never_returns (wg_end_read Scenario.any_handle tt 1024) Scenario.booted.
Proof.
  destruct booted_idle as (_ & T & _ & _ & _ & N).
  assert (T' : tail Scenario.booted <> 1024) by (rewrite T; discriminate).
  split; [reflexivity|]. split; [exact N|]. split; [exact T'|].
  destruct (@queued_release_of_stale_token_waits unit Scenario.any_handle tt
              Scenario.booted 1024 eq_refl N T') as [[A _] [B _]].
  split; assumption.
Defined.

Lemma alloc_free_round_trip_witness :
  freelist Scenario.booted = 1024 /\ refcount (cell Scenario.booted 1024) = 1 /\
  exists s1 s2,
    returns_in 6 alloc_lock Scenario.booted s1 1024 /\
    returns_in 6 (free_lock 1024) s1 s2 tt /\
    forall l, load l s2 = load l Scenario.booted.
Proof.
  destruct booted_idle as (F & _ & _ & _ & Rf & _).
  split; [exact F|]. split; [exact Rf|].
  destruct (@alloc_free_round_trip Scenario.booted 1024 F ltac:(discriminate) Rf)
    as (s1 & s2 & H1 & _ & _ & H2 & H3).
  exists s1, s2. repeat split; assumption.
Defined.


Lemma writer_queue_waiter :
  load (Node 1024 f_next) Scenario.writer_queue = 1152 /\
  refcount (cell Scenario.writer_queue 1152) = 2.
Proof. vm_compute. split; reflexivity. Qed.

Lemma deref_link_takes_a_reference_witness :
  load (Node 1024 f_next) Scenario.writer_queue = 1152 /\
  exists s1 s2,
    returns_in 4 (deref_link (Node 1024 f_next)) Scenario.writer_queue s1 1152 /\
    refcount (cell s1 1152) = 4 /\
    returns_in 2 (free_lock 1152) s1 s2 tt /\
    forall l, load l s2 = load l Scenario.writer_queue.
Proof.
  destruct writer_queue_waiter as (L & Rf).
  split; [exact L|].
  destruct (@deref_link_takes_a_reference Scenario.writer_queue (Node 1024 f_next) 1152)
    as (_ & H).
  destruct (H L ltac:(discriminate) ltac:(discriminate)) as (s1 & H1 & H2 & _ & H4).
  assert (G : in_gint (refcount (cell Scenario.writer_queue 1152))).
  { rewrite Rf. split; discriminate. }
  assert (Nz : refcount (cell Scenario.writer_queue 1152) <> 0).
  { rewrite Rf. discriminate. }
  destruct (H4 G Nz) as (s2 & H5 & H6).
  exists s1, s2. split; [exact H1|]. split; [rewrite H2, Rf; reflexivity|].
  split; [exact H5 | exact H6].
Defined.
End QueuedAlone.

(** * The queued lock: the last reader's hand-off *)

Module QueuedEndRead.
Import Queued QueuedFacts.

Lemma same_readers_refl (e : segment) : same_readers e e.
Proof. split; reflexivity. Qed.

Lemma leaving_result (lock : gint) (p : prog segment gint) :
  leaving lock p -> result p = None.
Proof. intros H. destruct H; reflexivity. Qed.

Lemma leaving_step (lock : gint) (p : prog segment gint) (e : segment) :
  leaving lock p ->
  same_readers e (fst (step p e)) /\
  (leaving lock (snd (step p e)) \/ snd (step p e) = end_read_finish lock).
Proof.
  intros H. destruct H as [ | | | | | nx].
  - unfold compare_and_swap. cbn [bind step].
    destruct (load Tail e =? lock) eqn:B; cbn [fst snd].
    + split; [split; reflexivity|]. right. reflexivity.
    + split; [apply same_readers_refl|]. left.
      change (negb (truthy 0)) with true. cbv iota. apply lv_loop.
  - cbn [step fst snd]. split; [apply same_readers_refl|]. left. apply lv_look.
  - unfold wait_next_body, read. cbn [bind step fst snd].
    split; [apply same_readers_refl|].
    destruct (truthy (load (Node lock f_next) e)); cbn [bind loop_next].
    + left. apply lv_mark.
    + left. apply lv_loop.
  - unfold end_read_mark, read. cbn [bind step fst snd].
    split; [apply same_readers_refl|].
    destruct (truthy (Z.land (load (Node lock f_state) e) LOCKQ_WRITE)).
    + left. apply lv_nx.
    + right. reflexivity.
  - unfold read. cbn [bind step fst snd].
    split; [apply same_readers_refl|]. left. apply lv_set.
  - unfold write. cbn [bind step fst snd].
    split; [split; reflexivity|]. right. reflexivity.
Qed.

Lemma leaving_trace (lock : gint) (envs : list segment) :
  forall p : prog segment gint,
    leaving lock p -> result (snd (trace p envs)) <> None ->
    exists n, (n <= length envs)%nat /\
      snd (trace p (firstn n envs)) = end_read_finish lock /\
      Forall (fun x => same_readers (fst x) (snd x)) (fst (trace p (firstn n envs))).
Proof.
  induction envs as [|e es IH]; intros p H R.
  - simpl in R. now rewrite (leaving_result H) in R.
  - rewrite trace_cons in R. cbn [snd] in R.
    destruct (leaving_step e H) as [F [L|E]].
    + destruct (IH _ L R) as (n & Hn & E & G). exists (S n).
      split; [simpl; lia|]. cbn [firstn]. rewrite trace_cons. cbn [fst snd].
      split; [exact E|]. constructor; [exact F | exact G].
    + exists 1%nat. split; [simpl; lia|]. cbn [firstn]. rewrite trace_one.
      cbn [fst snd]. split; [exact E|]. constructor; [exact F | constructor].
Qed.

Lemma free_lock_alone (s : segment) (n : gint) :
  exists s',
    returns_in 6 (free_lock n) s s' tt /\
    (forall l, l <> Freelist -> l <> Node n f_refcount -> l <> Node n f_next_cell ->
       load l s' = load l s).
Proof.
  destruct (gint_wrap (load (Node n f_refcount) s + -2) =? 0) eqn:B.
  - eexists. split.
    + unfold free_lock. do 2 exec_step. mem_simpl. rewrite B. cbn [fst snd].
      change (truthy 1) with true. cbv iota.
      do 4 exec_step. mem_simpl. rewrite Z.eqb_refl. cbn [fst snd].
      change (truthy 1) with true. cbv iota. cbn [loop_next].
      eapply returns_in_le; [apply returns_in_Ret | lia].
    + intros l H1 H2 H3. now mem_simpl.
  - eexists. split.
    + unfold free_lock. do 2 exec_step. mem_simpl. rewrite B. cbn [fst snd].
      change (truthy 0) with false. cbv iota.
      eapply returns_in_le; [apply returns_in_Ret | lia].
    + intros l H1 H2 H3. now mem_simpl.
Qed.

Lemma same_line_refl (e : segment) : same_line e e.
Proof. repeat split. Qed.

Lemma same_line_node (e : segment) (n v : gint) (f : field) :
  f <> f_state -> same_line e (store (Node n f) v e).
Proof.
  intros Hf. split; [reflexivity|]. split; [reflexivity|].
  intros off. cbn. destruct (off =? n); [|reflexivity].
  destruct f; try reflexivity. now elim Hf.
Qed.

Lemma same_line_freelist (e : segment) (v : gint) : same_line e (store Freelist v e).
Proof. repeat split. Qed.

Ltac line_tac :=
  repeat (cbn [keeps bind fst snd];
    first
      [ exact Logic.I
      | apply same_line_refl
      | apply same_line_freelist
      | apply same_line_node; discriminate
      | match goal with
        | |- _ /\ _ => split
        | |- forall _, _ => intro
        | |- context [if ?c then _ else _] => destruct c
        end ]).

Lemma end_read_free_keeps (lock : gint) :
  keeps (fun _ => True) same_line (end_read_free lock).
Proof. unfold end_read_free, free_lock. exec_norm. line_tac. Qed.

Section EndRead.

Variable handle : Type.
Variable dbcheck : handle -> bool.

Lemma end_read_first_step (db : handle) (lock : gint) (e : segment) :
  dbcheck db = true ->
  fst (step (wg_end_read dbcheck db lock) e) = e /\
  leaving lock (snd (step (wg_end_read dbcheck db lock) e)).
Proof.
  intros Hv. unfold wg_end_read. rewrite Hv. unfold read. cbn [negb bind step fst snd].
  split; [reflexivity|].
  destruct (truthy (load (Node lock f_next) e)); cbn [bind].
  - apply lv_loop.
  - apply lv_cas.
Qed.

(** The call up to the decrement of the reader count, one caller alone. *)
Lemma end_read_reaches_finish (db : handle) (lock : gint) (s : segment) :
  dbcheck db = true -> next (cell s lock) <> 0 \/ tail s = lock ->
  exists j s1,
    (j <= 7)%nat /\
    steps j (wg_end_read dbcheck db lock) s = (s1, end_read_finish lock) /\
    reader_count s1 = reader_count s /\
    next_writer s1 =
      (if truthy (next (cell s lock)) && truthy (Z.land (state (cell s lock)) LOCKQ_WRITE)
       then next (cell s lock) else next_writer s) /\
    (forall off, state (cell s1 off) = state (cell s off)).
Proof.
  intros Hv H. to_loads.
  destruct (truthy (load (Node lock f_next) s)) eqn:Bn.
  - destruct (truthy (Z.land (load (Node lock f_state) s) LOCKQ_WRITE)) eqn:Bw.
    + exists 6%nat. eexists. split; [lia|]. split.
      * unfold wg_end_read, wait_next. rewrite Hv. cbn [negb].
        steps_step. rewrite Bn. cbv iota. cbn [bind].
        do 2 steps_step. rewrite Bn. cbv iota. cbn [loop_next bind].
        steps_step. rewrite Bw. cbv iota. cbn [bind].
        do 2 steps_step. reflexivity.
      * cbn [andb]. repeat split.
    + exists 4%nat. eexists. split; [lia|]. split.
      * unfold wg_end_read, wait_next. rewrite Hv. cbn [negb].
        steps_step. rewrite Bn. cbv iota. cbn [bind].
        do 2 steps_step. rewrite Bn. cbv iota. cbn [loop_next bind].
        steps_step. rewrite Bw. cbv iota. cbn [bind]. reflexivity.
      * cbn [andb]. repeat split.
  - assert (Hn : load (Node lock f_next) s = 0).
    { unfold truthy in Bn. apply negb_false_iff in Bn. now apply Z.eqb_eq. }
    destruct H as [H|H]; [now elim H|].
    exists 2%nat. eexists. split; [lia|]. split.
    + unfold wg_end_read. rewrite Hv. cbn [negb].
      steps_step. rewrite Bn. cbv iota. cbn [bind].
      steps_step. rewrite H, Z.eqb_refl.
      cbn [fst snd]. change (negb (truthy 1)) with false. cbv iota. cbn [bind].
      reflexivity.
    + cbn [andb]. repeat split.
Qed.

(** C6. Last-reader handoff.  Whatever the other callers do between its
    steps, a [wg_end_read] that returns has reached its decrement of the
    reader count, with the count and every state word untouched by its
    own steps until then.  The decrement is a fetch-and-add of -1.
    Exactly when it finds the count at 1 the next step exchanges
    [next_writer] with 0 and, when the value [w] taken out is nonzero,
    the step after clears bit 0 of the state word of cell [w]; otherwise
    [free_lock] follows at once.  From [free_lock] on no step touches
    [next_writer], the count or a state word.  One caller alone, with a
    successor or at the tail, returns 1 with the count one less and
    [next_writer] and the state words as this hand-off leaves them. *)
Theorem wg_end_read_last_reader_hands_over (db : handle) (lock : gint) :
  dbcheck db = true ->
  (forall envs,
     result (snd (trace (wg_end_read dbcheck db lock) envs)) <> None ->
     exists n, (n <= length envs)%nat /\
       snd (trace (wg_end_read dbcheck db lock) (firstn n envs)) = end_read_finish lock /\
       Forall (fun x => same_readers (fst x) (snd x))
         (fst (trace (wg_end_read dbcheck db lock) (firstn n envs)))) /\
  (forall e1, reader_count e1 <> 1 ->
     trace (end_read_finish lock) [e1]
     = ([(e1, store Reader_count (gint_wrap (reader_count e1 + -1)) e1)],
        end_read_free lock)) /\
  (forall e1 e2, reader_count e1 = 1 -> next_writer e2 = 0 ->
     trace (end_read_finish lock) [e1; e2]
     = ([(e1, store Reader_count (gint_wrap (reader_count e1 + -1)) e1);
         (e2, store Next_writer 0 e2)],
        end_read_free lock)) /\
  (forall e1 e2 e3, reader_count e1 = 1 -> next_writer e2 <> 0 ->
     trace (end_read_finish lock) [e1; e2; e3]
     = ([(e1, store Reader_count (gint_wrap (reader_count e1 + -1)) e1);
         (e2, store Next_writer 0 e2);
         (e3, store (Node (next_writer e2) f_state)
                (Z.land (state (cell e3 (next_writer e2))) (Z.lnot 1)) e3)],
        end_read_free lock)) /\
  (forall envs,
     Forall (fun x => same_line (fst x) (snd x)) (fst (trace (end_read_free lock) envs))) /\
  (forall s, next (cell s lock) <> 0 \/ tail s = lock ->
     let nw := if truthy (next (cell s lock))
                  && truthy (Z.land (state (cell s lock)) LOCKQ_WRITE)
               then next (cell s lock) else next_writer s in
     exists s',
       returns_in 16 (wg_end_read dbcheck db lock) s s' 1 /\
       reader_count s' = gint_wrap (reader_count s + -1) /\
       next_writer s' = (if reader_count s =? 1 then 0 else nw) /\
       forall off,
         state (cell s' off) =
           if (reader_count s =? 1) && negb (nw =? 0) && (off =? nw)
           then Z.land (state (cell s off)) (Z.lnot 1)
           else state (cell s off)).
Proof.
  intros Hv. split; [|split; [|split; [|split; [|split]]]].
  - intros envs R. destruct envs as [|e es].
    + simpl in R. unfold wg_end_read in R. rewrite Hv in R. now elim R.
    + rewrite trace_cons in R. cbn [snd] in R.
      destruct (@end_read_first_step db lock e Hv) as [E L].
      destruct (leaving_trace es L R) as (n & Hn & F & G).
      exists (S n). split; [simpl; lia|]. cbn [firstn]. rewrite trace_cons.
      cbn [fst snd]. split; [exact F|].
      constructor; [|exact G]. cbn [fst snd]. rewrite E. apply same_readers_refl.
  - intros e1 H. apply Z.eqb_neq in H. rewrite trace_one.
    unfold end_read_finish, end_read_handoff, fetch_and_add.
    cbn [bind step fst snd]. change (load Reader_count e1) with (reader_count e1).
    rewrite H. reflexivity.
  - intros e1 e2 H1 H2. rewrite trace_cons.
    unfold end_read_finish, end_read_handoff, fetch_and_add, fetch_and_store.
    cbn [bind step fst snd]. change (load Reader_count e1) with (reader_count e1).
    rewrite H1. change (1 =? 1) with true. cbv iota. cbn [bind].
    rewrite trace_one. cbn [step fst snd].
    change (load Next_writer e2) with (next_writer e2). rewrite H2.
    reflexivity.
  - intros e1 e2 e3 H1 H2. rewrite trace_cons.
    unfold end_read_finish, end_read_handoff, fetch_and_add, fetch_and_store, atomic_and.
    cbn [bind step fst snd]. change (load Reader_count e1) with (reader_count e1).
    rewrite H1. change (1 =? 1) with true. cbv iota. cbn [bind].
    rewrite trace_cons. cbn [step fst snd].
    change (load Next_writer e2) with (next_writer e2).
    rewrite (truthy_true H2). cbv iota. cbn [bind].
    rewrite trace_one. reflexivity.
  - intros envs. apply keeps_trace; [apply same_line_refl | apply end_read_free_keeps].
  - intros s H nw.
    destruct (@end_read_reaches_finish db lock s Hv H) as (j & s1 & Hj & St & E1 & E2 & E3).
    fold nw in E2.
    destruct (end_read_handoff_alone s1) as (s2 & R2 & F1 & F2 & F3 & _).
    destruct (free_lock_alone s2 lock) as (s3 & R3 & F4).
    exists s3. split.
    + eapply returns_in_le; [apply (@returns_in_steps _ j 9)|lia].
      rewrite St. cbn [fst snd]. unfold end_read_finish.
      apply (@returns_in_bind _ 3 6 _ _ _ _ s1 s2 s3 tt 1 R2).
      apply (@returns_in_bind _ 6 0 _ _ _ _ s2 s3 s3 tt 1 R3).
      apply returns_in_Ret.
    + split; [|split].
      * change (reader_count s3) with (load Reader_count s3).
        rewrite F4 by discriminate. change (load Reader_count s2) with (reader_count s2).
        now rewrite F1, E1.
      * change (next_writer s3) with (load Next_writer s3).
        rewrite F4 by discriminate. change (load Next_writer s2) with (next_writer s2).
        now rewrite F2, E1, E2.
      * intros off. change (state (cell s3 off)) with (load (Node off f_state) s3).
        rewrite F4 by discriminate.
        change (load (Node off f_state) s2) with (state (cell s2 off)).
        now rewrite F3, E1, E2, E3.
Qed.

End EndRead.

Lemma wg_end_read_last_reader_hands_over_witness :
  Scenario.any_handle tt = true /\
  next (cell Scenario.reader_queue 1024) = 1152 /\
  state (cell Scenario.reader_queue 1024) = LOCKQ_WRITE /\
  reader_count Scenario.reader_queue = 1 /\
  exists s',
    returns_in 16 (wg_end_read Scenario.any_handle tt 1024) Scenario.reader_queue s' 1 /\
    reader_count s' = 0 /\ next_writer s' = 0 /\ state (cell s' 1152) = 0.
Proof.
  destruct QueuedAlone.reader_queue_held as (Nx & St & Rf & Rc & St').
  split; [reflexivity|]. split; [exact Nx|]. split; [exact St|]. split; [exact Rc|].
  destruct (@wg_end_read_last_reader_hands_over unit Scenario.any_handle tt 1024 eq_refl)
    as (_ & _ & _ & _ & _ & H).
  assert (N : next (cell Scenario.reader_queue 1024) <> 0) by (rewrite Nx; discriminate).
  destruct (H Scenario.reader_queue (or_introl N)) as (s' & H1 & H2 & H3 & H4).
  exists s'. split; [exact H1|]. split; [|split].
  - rewrite H2, Rc. reflexivity.
  - rewrite H3, Rc. reflexivity.
  - rewrite H4, Rc, Nx, St, St'. reflexivity.
Defined.

End QueuedEndRead.

(** * The queued lock: hand-over *)

Module QueuedHandOver.
Import Queued QueuedFacts.

Lemma spin_wait_loops (lock : gint) : spin_wait lock = loop (spin_outer lock) SLEEP_NSEC.
Proof. reflexivity. Qed.

Lemma spinning_start (A : Type) (lock : gint) (k : unit -> prog segment A) :
  spinning lock k (bind (spin_wait lock) k).
Proof. apply (sp_outer lock k SLEEP_NSEC). Qed.

Lemma spinning_result (A : Type) (lock : gint) (k : unit -> prog segment A)
    (p : prog segment A) :
  spinning lock k p -> result p = None.
Proof.
  intros H. destruct H as [ts | ts i | ts i]; try reflexivity.
  unfold spin_inner. destruct (i <? SPIN_COUNT); reflexivity.
Qed.

Lemma spinning_step (A : Type) (lock : gint) (k : unit -> prog segment A)
    (p : prog segment A) (s : segment) :
  Z.land (state (cell s lock)) 1 <> 0 -> spinning lock k p ->
  fst (step p s) = s /\ spinning lock k (snd (step p s)).
Proof.
  intros Hb H. apply Z.eqb_neq in Hb. destruct H as [ts | ts i | ts i].
  - split; [reflexivity|]. apply (sp_inner lock k ts 0).
  - split; [reflexivity|]. apply (sp_look lock k ts i).
  - unfold spin_inner. destruct (i <? SPIN_COUNT) eqn:Ei.
    + cbn [bind read step fst snd load segment_mem load_loc get_field].
      split; [reflexivity|]. rewrite Hb. apply (sp_inner lock k ts (i + 1)).
    + cbn. split; [reflexivity|]. apply (sp_outer lock k (ts + SLEEP_NSEC)).
Qed.

Lemma spinning_steps (A : Type) (lock : gint) (k : unit -> prog segment A)
    (s : segment) (m : nat) : forall p : prog segment A,
  Z.land (state (cell s lock)) 1 <> 0 -> spinning lock k p ->
  fst (steps m p s) = s /\ spinning lock k (snd (steps m p s)).
Proof.
  induction m as [|m IH]; intros p Hb H; [split; [reflexivity | exact H]|].
  destruct (spinning_step s Hb H) as [E H'].
  simpl. destruct (step p s) as [s' p']. simpl in *. subst s'. now apply IH.
Qed.

Lemma spinning_exit (A : Type) (lock : gint) (k : unit -> prog segment A)
    (p : prog segment A) (s : segment) :
  Z.land (state (cell s lock)) 1 = 0 -> spinning lock k p ->
  exists j, (j <= 5)%nat /\ steps j p s = (s, k tt).
Proof.
  intros Hu H. apply Z.eqb_eq in Hu.
  assert (L : forall ts, steps 1
     (bind (spin_inner lock 0) (loop_next (spin_inner lock) (spin_pass lock k ts))) s
     = (s, k tt)).
  { intros ts. unfold spin_inner. change (0 <? SPIN_COUNT) with true. cbv iota.
    cbn [bind read steps step fst snd load segment_mem load_loc get_field].
    rewrite Hu. reflexivity. }
  assert (O : forall ts, steps 3 (Loop (spin_outer lock) ts k) s = (s, k tt)).
  { intros ts. rewrite steps_Loop.
    change (bind (spin_outer lock ts) (loop_next (spin_outer lock) k))
      with (Loop (spin_inner lock) 0 (spin_pass lock k ts)).
    rewrite steps_Loop. apply L. }
  destruct H as [ts | ts i | ts i].
  - exists 3%nat. split; [lia | apply O].
  - destruct (i <? SPIN_COUNT) eqn:Ei.
    + exists 2%nat. split; [lia|]. rewrite steps_Loop. unfold spin_inner. rewrite Ei.
      cbn [bind read steps step fst snd load segment_mem load_loc get_field].
      rewrite Hu. reflexivity.
    + exists 5%nat. split; [lia|]. rewrite steps_Loop. unfold spin_inner at 1.
      rewrite Ei. change (steps 4 ?p s) with (steps 3 (snd (step p s)) (fst (step p s))).
      cbn [bind loop_next spin_pass nanosleep step fst snd]. apply O.
  - destruct (i <? SPIN_COUNT) eqn:Ei.
    + exists 1%nat. split; [lia|]. unfold spin_inner. rewrite Ei.
      cbn [bind read steps step fst snd load segment_mem load_loc get_field].
      rewrite Hu. reflexivity.
    + exists 4%nat. split; [lia|]. unfold spin_inner at 1. rewrite Ei.
      change (steps 4 ?p s) with (steps 3 (snd (step p s)) (fst (step p s))).
      cbn [bind loop_next spin_pass nanosleep step fst snd]. apply O.
Qed.

Section HandOver.

Variable handle : Type.
Variable dbcheck : handle -> bool.

(** A writer that finds a predecessor links itself behind it and parks. *)
Lemma start_write_parks (db : handle) (s : segment) (t p : gint) :
  dbcheck db = true -> freelist s = t -> t <> 0 -> tail s = p -> p <> 0 -> p <> t ->
  exists s2,
    steps 13 (wg_start_write dbcheck db) s
      = (s2, bind (spin_wait t) (fun _ => Ret t)) /\
    Z.land (state (cell s2 t)) 1 <> 0 /\
    tail s2 = t /\ next (cell s2 p) = t /\
    state (cell s2 p) = Z.lor (state (cell s p)) LOCKQ_WRITE /\
    class (cell s2 t) = LOCKQ_WRITE /\ state (cell s2 t) = 1 /\ next (cell s2 t) = 0 /\
    freelist s2 = next_cell (cell s t) /\
    refcount (cell s2 t) = gint_wrap (gint_wrap (refcount (cell s t) + 2) + -1) /\
    (forall l, l <> Freelist -> l <> Tail -> l <> Node p f_state -> l <> Node p f_next ->
       l <> Node t f_class -> l <> Node t f_state -> l <> Node t f_next ->
       l <> Node t f_refcount -> load l s2 = load l s).
Proof.
  intros Hv Hf Ht Htl Hp Hpt. to_loads.
  assert (Bt : (t =? 0) = false) by now apply Z.eqb_neq.
  eexists. split.
  - unfold wg_start_write, alloc_lock. rewrite Hv. cbn [negb].
    do 2 steps_step. rewrite Hf, Bt. cbv iota.
    do 3 steps_step. mem_simpl. rewrite Hf, Z.eqb_refl. cbn [fst snd].
    change (truthy 1) with true. cbv iota. steps_step. cbn [loop_next bind].
    rewrite (truthy_true Ht). cbn [negb]. cbv iota.
    do 4 steps_step. mem_simpl. rewrite Htl, (truthy_true Hp).
    cbn [negb]. cbv iota. do 3 steps_step. mem_simpl.
    change (truthy (Z.land 1 1)) with true. cbv iota. reflexivity.
  - to_loads. split; [mem_simpl; discriminate|].
    repeat (split; [now mem_simpl|]).
    intros l H1 H2 H3 H4 H5 H6 H7 H8. now mem_simpl.
Qed.

(** A reader that finds a writer at the tail links itself behind it and
    parks. *)
Lemma start_read_parks (db : handle) (s : segment) (t p : gint) :
  dbcheck db = true -> freelist s = t -> t <> 0 -> tail s = p -> p <> 0 -> p <> t ->
  Z.land (class (cell s p)) LOCKQ_WRITE <> 0 ->
  exists s2,
    steps 13 (wg_start_read dbcheck db) s
      = (s2, bind (spin_wait t) (fun _ => rd_lock_cont t)) /\
    Z.land (state (cell s2 t)) 1 <> 0 /\
    tail s2 = t /\ next (cell s2 p) = t /\
    class (cell s2 t) = LOCKQ_READ /\ state (cell s2 t) = 1 /\ next (cell s2 t) = 0 /\
    freelist s2 = next_cell (cell s t) /\
    refcount (cell s2 t) = gint_wrap (gint_wrap (refcount (cell s t) + 2) + -1) /\
    (forall l, l <> Freelist -> l <> Tail -> l <> Node p f_next ->
       l <> Node t f_class -> l <> Node t f_state -> l <> Node t f_next ->
       l <> Node t f_refcount -> load l s2 = load l s).
Proof.
  intros Hv Hf Ht Htl Hp Hpt Hc. to_loads.
  assert (Bt : (t =? 0) = false) by now apply Z.eqb_neq.
  eexists. split.
  - unfold wg_start_read, alloc_lock. rewrite Hv. cbn [negb].
    do 2 steps_step. rewrite Hf, Bt. cbv iota.
    do 3 steps_step. mem_simpl. rewrite Hf, Z.eqb_refl. cbn [fst snd].
    change (truthy 1) with true. cbv iota. steps_step. cbn [loop_next bind].
    rewrite (truthy_true Ht). cbn [negb]. cbv iota.
    do 4 steps_step. mem_simpl. rewrite Htl, (truthy_true Hp).
    cbn [negb]. cbv iota. steps_step. mem_simpl. rewrite (truthy_true Hc).
    cbv iota. cbn [bind]. do 2 steps_step. mem_simpl.
    change (truthy (Z.land 1 1)) with true. cbv iota. reflexivity.
  - to_loads. split; [mem_simpl; discriminate|].
    repeat (split; [now mem_simpl|]).
    intros l H1 H2 H3 H4 H5 H6 H7. now mem_simpl.
Qed.

(** A parked caller stays parked while its cell is blocked, and leaves
    its spin within five steps once it is not. *)
Lemma parked_waits (A : Type) (p : prog segment A) (lock : gint)
    (k : unit -> prog segment A) (s s2 : segment) (n m : nat) :
  steps n p s = (s2, bind (spin_wait lock) k) ->
  Z.land (state (cell s2 lock)) 1 <> 0 -> (n <= m)%nat ->
  fst (steps m p s) = s2 /\ spinning lock k (snd (steps m p s)).
Proof.
  intros E Hb Hm. replace m with (n + (m - n))%nat by lia.
  rewrite steps_add, E. cbn [fst snd].
  apply spinning_steps; [exact Hb | apply spinning_start].
Qed.

Lemma parked_resumes (A : Type) (q : prog segment A) (lock : gint)
    (k : unit -> prog segment A) (s3 s4 : segment) (n : nat) (a : A) :
  spinning lock k q -> Z.land (state (cell s3 lock)) 1 = 0 ->
  returns_in n (k tt) s3 s4 a -> returns_in (5 + n) q s3 s4 a.
Proof.
  intros H Hu R. destruct (spinning_exit s3 Hu H) as (j & Hj & E).
  apply returns_in_le with (n := (j + n)%nat); [|lia].
  apply returns_in_steps. rewrite E. exact R.
Qed.

(** X21. Hand-over from a writer to a writer.  On an idle queue with two
    free cells, a first [wg_start_write] returns [t1].  A second caller's
    [wg_start_write], run for any number [m >= 13] of steps, has put [t2]
    behind [t1] and is spinning, the segment resting at one state [s2].
    The holder's [wg_end_write] then unblocks it, and from whatever point
    of its spin the second caller is at, the rest of its call returns
    [t2] within 5 steps without writing.  It is then alone in the queue. *)
Theorem write_hand_over (db : handle) (s : segment) (t1 t2 : gint) :
  dbcheck db = true -> freelist s = t1 -> t1 <> 0 ->
  next_cell (cell s t1) = t2 -> t2 <> 0 -> t1 <> t2 ->
  tail s = 0 -> reader_count s = 0 -> refcount (cell s t1) = 1 ->
  exists s1 s2 s3,
    returns_in 15 (wg_start_write dbcheck db) s s1 t1 /\
    (forall m, (13 <= m)%nat ->
       fst (steps m (wg_start_write dbcheck db) s1) = s2 /\
       result (snd (steps m (wg_start_write dbcheck db) s1)) = None) /\
    returns_in 14 (wg_end_write dbcheck db t1) s2 s3 1 /\
    (forall m, (13 <= m)%nat ->
       returns_in 5 (snd (steps m (wg_start_write dbcheck db) s1)) s3 s3 t2) /\
    tail s3 = t2 /\ reader_count s3 = 0 /\ freelist s3 = t1 /\
    state (cell s3 t2) = 0.
Proof.
  intros Hv Hf Ht1 Hn Ht2 Ht12 Htl Hrc Hr.
  destruct (@QueuedAlone.start_write_first _ dbcheck db s t1 Hv Hf Ht1 Htl Hrc)
    as (s1 & E1 & F1 & Tl1 & Nw1 & C1 & S1 & Nx1 & Rf1 & Fr1).
  rewrite Hn in F1. rewrite Hr in Rf1.
  change (gint_wrap (gint_wrap (1 + 2) + -1)) with 2 in Rf1.
  destruct (@start_write_parks db s1 t2 t1 Hv F1 Ht2 Tl1 Ht1 Ht12)
    as (s2 & E2 & B2 & Tl2 & Nx2 & Sp2 & C2 & S2 & Nt2 & F2 & Rf2 & Fr2).
  assert (Rf2' : refcount (cell s2 t1) = 2)
    by (to_loads; rewrite Fr2 by loc_neq; exact Rf1).
  destruct (@QueuedAlone.end_write_linked _ dbcheck db s2 t1 t2 Hv Nx2 Ht2 Rf2')
    as (s3 & E3 & S3 & Rc3 & Tl3 & Nw3 & F3 & _).
  rewrite C2 in Rc3. change (Z.land LOCKQ_WRITE LOCKQ_READ =? 0) with true in Rc3.
  cbv iota in Rc3. rewrite S2 in S3. change (Z.land 1 (Z.lnot 1)) with 0 in S3.
  exists s1, s2, s3. split; [exact E1|]. split.
  { intros m Hm. destruct (@parked_waits _ _ _ _ _ _ _ _ E2 B2 Hm) as [A B].
    split; [exact A | exact (@spinning_result _ _ _ _ B)]. }
  split; [exact E3|]. split.
  { intros m Hm. destruct (@parked_waits _ _ _ _ _ _ _ _ E2 B2 Hm) as [_ B].
    apply (@parked_resumes _ _ t2 (fun _ => Ret t2) s3 s3 0 t2 B).
    - rewrite S3. reflexivity.
    - apply returns_in_Ret. }
  split; [congruence|]. split; [|split; [exact F3 | exact S3]].
  rewrite Rc3. to_loads. rewrite Fr2 by loc_neq. rewrite Fr1 by loc_neq. exact Hrc.
Qed.

(** X22. Hand-over from a writer to a reader.  A reader that arrives
    while a writer holds the lock parks behind it; the writer's
    [wg_end_write] counts the reader in [reader_count] and unblocks it, and
    from whatever point of its spin the reader is at, the rest of its
    [wg_start_read] returns its token within 6 steps without writing. *)
Theorem write_to_read_hand_over (db : handle) (s : segment) (t1 t2 : gint) :
  dbcheck db = true -> freelist s = t1 -> t1 <> 0 ->
  next_cell (cell s t1) = t2 -> t2 <> 0 -> t1 <> t2 ->
  tail s = 0 -> reader_count s = 0 -> refcount (cell s t1) = 1 ->
  exists s1 s2 s3,
    returns_in 15 (wg_start_write dbcheck db) s s1 t1 /\
    (forall m, (13 <= m)%nat ->
       fst (steps m (wg_start_read dbcheck db) s1) = s2 /\
       result (snd (steps m (wg_start_read dbcheck db) s1)) = None) /\
    reader_count s2 = 0 /\
    returns_in 14 (wg_end_write dbcheck db t1) s2 s3 1 /\
    (forall m, (13 <= m)%nat ->
       returns_in 6 (snd (steps m (wg_start_read dbcheck db) s1)) s3 s3 t2) /\
    tail s3 = t2 /\ reader_count s3 = 1 /\ freelist s3 = t1 /\
    state (cell s3 t2) = 0.
Proof.
  intros Hv Hf Ht1 Hn Ht2 Ht12 Htl Hrc Hr.
  destruct (@QueuedAlone.start_write_first _ dbcheck db s t1 Hv Hf Ht1 Htl Hrc)
    as (s1 & E1 & F1 & Tl1 & Nw1 & C1 & S1 & Nx1 & Rf1 & Fr1).
  rewrite Hn in F1. rewrite Hr in Rf1.
  change (gint_wrap (gint_wrap (1 + 2) + -1)) with 2 in Rf1.
  assert (Cw : Z.land (class (cell s1 t1)) LOCKQ_WRITE <> 0)
    by (rewrite C1; discriminate).
  destruct (@start_read_parks db s1 t2 t1 Hv F1 Ht2 Tl1 Ht1 Ht12 Cw)
    as (s2 & E2 & B2 & Tl2 & Nx2 & C2 & S2 & Nt2 & F2 & Rf2 & Fr2).
  assert (Rf2' : refcount (cell s2 t1) = 2)
    by (to_loads; rewrite Fr2 by loc_neq; exact Rf1).
  assert (Rc2 : reader_count s2 = 0).
  { to_loads. rewrite Fr2 by loc_neq. rewrite Fr1 by loc_neq. exact Hrc. }
  destruct (@QueuedAlone.end_write_linked _ dbcheck db s2 t1 t2 Hv Nx2 Ht2 Rf2')
    as (s3 & E3 & S3 & Rc3 & Tl3 & Nw3 & F3 & _).
  rewrite C2 in Rc3. change (Z.land LOCKQ_READ LOCKQ_READ =? 0) with false in Rc3.
  cbv iota in Rc3. rewrite Rc2 in Rc3. change (gint_wrap (0 + 1)) with 1 in Rc3.
  rewrite S2 in S3. change (Z.land 1 (Z.lnot 1)) with 0 in S3.
  exists s1, s2, s3. split; [exact E1|]. split.
  { intros m Hm. destruct (@parked_waits _ _ _ _ _ _ _ _ E2 B2 Hm) as [A B].
    split; [exact A | exact (@spinning_result _ _ _ _ B)]. }
  split; [exact Rc2|]. split; [exact E3|]. split.
  { intros m Hm. destruct (@parked_waits _ _ _ _ _ _ _ _ E2 B2 Hm) as [_ B].
    apply (@parked_resumes _ _ t2 (fun _ => rd_lock_cont t2) s3 s3 1 t2 B).
    - rewrite S3. reflexivity.
    - unfold rd_lock_cont. exec_step. to_loads. rewrite S3.
      change (truthy (Z.land 0 LOCKQ_READ)) with false. cbv iota. cbn [bind].
      apply returns_in_Ret. }
  split; [congruence|]. split; [exact Rc3|]. split; [exact F3 | exact S3].
Qed.

(** X23. Hand-over from the last reader to a writer.  A writer that
    arrives while one reader holds the lock marks the reader's cell with
    [LOCKQ_WRITE], links itself behind it and parks; the reader's
    [wg_end_read] takes the count to 0, passes the writer through
    [next_writer] and unblocks it, and from whatever point of its spin the
    writer is at, the rest of its [wg_start_write] returns its token
    within 5 steps without writing. *)
Theorem read_to_write_hand_over (db : handle) (s : segment) (t1 t2 : gint) :
  dbcheck db = true -> freelist s = t1 -> t1 <> 0 ->
  next_cell (cell s t1) = t2 -> t2 <> 0 -> t1 <> t2 ->
  tail s = 0 -> reader_count s = 0 -> refcount (cell s t1) = 1 ->
  exists s1 s2 s3,
    returns_in 13 (wg_start_read dbcheck db) s s1 t1 /\ reader_count s1 = 1 /\
    (forall m, (13 <= m)%nat ->
       fst (steps m (wg_start_write dbcheck db) s1) = s2 /\
       result (snd (steps m (wg_start_write dbcheck db) s1)) = None) /\
    returns_in 15 (wg_end_read dbcheck db t1) s2 s3 1 /\
    (forall m, (13 <= m)%nat ->
       returns_in 5 (snd (steps m (wg_start_write dbcheck db) s1)) s3 s3 t2) /\
    tail s3 = t2 /\ reader_count s3 = 0 /\ next_writer s3 = 0 /\ freelist s3 = t1 /\
    state (cell s3 t2) = 0.
Proof.
  intros Hv Hf Ht1 Hn Ht2 Ht12 Htl Hrc Hr.
  destruct (@start_read_first _ dbcheck db s t1 Hv Hf Ht1 Htl)
    as (s1 & E1 & F1 & Tl1 & Rc1 & C1 & S1 & Nx1 & Rf1 & Fr1).
  rewrite Hn in F1. rewrite Hr in Rf1. rewrite Hrc in Rc1.
  change (gint_wrap (gint_wrap (1 + 2) + -1)) with 2 in Rf1.
  change (gint_wrap (0 + 1)) with 1 in Rc1.
  destruct (@start_write_parks db s1 t2 t1 Hv F1 Ht2 Tl1 Ht1 Ht12)
    as (s2 & E2 & B2 & Tl2 & Nx2 & Sp2 & C2 & S2 & Nt2 & F2 & Rf2 & Fr2).
  rewrite S1 in Sp2.
  assert (Rf2' : refcount (cell s2 t1) = 2)
    by (to_loads; rewrite Fr2 by loc_neq; exact Rf1).
  assert (Rc2 : reader_count s2 = 1)
    by (to_loads; rewrite Fr2 by loc_neq; exact Rc1).
  assert (Sw : Z.land (state (cell s2 t1)) LOCKQ_WRITE <> 0)
    by (rewrite Sp2; discriminate).
  destruct (@QueuedAlone.end_read_linked_writer _ dbcheck db s2 t1 t2 Hv Nx2 Ht2 Sw Rf2')
    as (s3 & E3 & Rc3 & Nw3 & S3 & Tl3 & F3 & _).
  rewrite Rc2 in Rc3, Nw3, S3. change (1 =? 1) with true in Nw3, S3.
  cbv iota in Nw3, S3. change (gint_wrap (1 + -1)) with 0 in Rc3.
  rewrite S2 in S3. change (Z.land 1 (Z.lnot 1)) with 0 in S3.
  exists s1, s2, s3. split; [exact E1|]. split; [exact Rc1|]. split.
  { intros m Hm. destruct (@parked_waits _ _ _ _ _ _ _ _ E2 B2 Hm) as [A B].
    split; [exact A | exact (@spinning_result _ _ _ _ B)]. }
  split; [exact E3|]. split.
  { intros m Hm. destruct (@parked_waits _ _ _ _ _ _ _ _ E2 B2 Hm) as [_ B].
    apply (@parked_resumes _ _ t2 (fun _ => Ret t2) s3 s3 0 t2 B).
    - rewrite S3. reflexivity.
    - apply returns_in_Ret. }
  split; [congruence|]. split; [exact Rc3|]. split; [exact Nw3|].
  split; [exact F3 | exact S3].
Qed.

(** A reader that finds a blocked reader at the tail marks it with
    [LOCKQ_READ], links itself behind it and parks. *)
Lemma start_read_parks_blocked (db : handle) (s : segment) (t p : gint) :
  dbcheck db = true -> freelist s = t -> t <> 0 -> tail s = p -> p <> 0 -> p <> t ->
  Z.land (class (cell s p)) LOCKQ_WRITE = 0 -> state (cell s p) = 1 ->
  exists s2,
    steps 14 (wg_start_read dbcheck db) s
      = (s2, bind (spin_wait t) (fun _ => rd_lock_cont t)) /\
    Z.land (state (cell s2 t)) 1 <> 0 /\
    tail s2 = t /\ next (cell s2 p) = t /\ state (cell s2 p) = Z.lor 1 LOCKQ_READ /\
    class (cell s2 t) = LOCKQ_READ /\ state (cell s2 t) = 1 /\ next (cell s2 t) = 0 /\
    freelist s2 = next_cell (cell s t) /\
    refcount (cell s2 t) = gint_wrap (gint_wrap (refcount (cell s t) + 2) + -1) /\
    (forall l, l <> Freelist -> l <> Tail -> l <> Node p f_state -> l <> Node p f_next ->
       l <> Node t f_class -> l <> Node t f_state -> l <> Node t f_next ->
       l <> Node t f_refcount -> load l s2 = load l s).
Proof.
  intros Hv Hf Ht Htl Hp Hpt Hc Hst. to_loads.
  assert (Bt : (t =? 0) = false) by now apply Z.eqb_neq.
  eexists. split.
  - unfold wg_start_read, alloc_lock. rewrite Hv. cbn [negb].
    do 2 steps_step. rewrite Hf, Bt. cbv iota.
    do 3 steps_step. mem_simpl. rewrite Hf, Z.eqb_refl. cbn [fst snd].
    change (truthy 1) with true. cbv iota. steps_step. cbn [loop_next bind].
    rewrite (truthy_true Ht). cbn [negb]. cbv iota.
    do 4 steps_step. mem_simpl. rewrite Htl, (truthy_true Hp).
    cbn [negb]. cbv iota. steps_step. mem_simpl. rewrite Hc.
    change (truthy 0) with false. cbv iota. steps_step. mem_simpl.
    rewrite Hst, Z.eqb_refl. cbn [fst snd]. change (truthy 1) with true.
    cbv iota. cbn [bind]. do 2 steps_step. mem_simpl.
    change (truthy (Z.land 1 1)) with true. cbv iota. reflexivity.
  - to_loads. split; [mem_simpl; discriminate|].
    repeat (split; [now mem_simpl|]).
    intros l H1 H2 H3 H4 H5 H6 H7 H8. now mem_simpl.
Qed.

(** The end of [wg_start_read] for a reader with a reader behind it, and
    for one with nobody behind it. *)
Lemma rd_lock_cont_passes_on (s : segment) (t n : gint) :
  Z.land (state (cell s t)) LOCKQ_READ <> 0 -> next (cell s t) = n -> n <> 0 ->
  exists s',
    returns_in 6 (rd_lock_cont t) s s' t /\
    reader_count s' = gint_wrap (reader_count s + 1) /\
    state (cell s' n) = Z.land (state (cell s n)) (Z.lnot 1) /\
    (forall l, l <> Reader_count -> l <> Node n f_state -> load l s' = load l s).
Proof.
  intros Hs Hn Hn0. to_loads. eexists. split.
  - unfold rd_lock_cont, wait_next. exec_step. rewrite (truthy_true Hs). cbv iota.
    cbn [bind]. do 2 exec_step. rewrite Hn, (truthy_true Hn0). cbv iota.
    cbn [loop_next bind]. do 3 exec_step. mem_simpl. rewrite Hn.
    apply returns_in_Ret.
  - to_loads. split; [now mem_simpl|]. split; [now mem_simpl|].
    intros l H1 H2. now mem_simpl.
Qed.

Lemma rd_lock_cont_alone (s : segment) (t : gint) :
  Z.land (state (cell s t)) LOCKQ_READ = 0 -> returns_in 1 (rd_lock_cont t) s s t.
Proof.
  intros Hs. to_loads. unfold rd_lock_cont. exec_step. rewrite Hs.
  change (truthy 0) with false. cbv iota. cbn [bind]. apply returns_in_Ret.
Qed.

(** X24. Readers are let in as a group.  While a writer holds the lock a
    reader parks behind it, and a second reader parks behind the first,
    marking it with [LOCKQ_READ].  The writer's [wg_end_write] counts and
    unblocks the first reader only.  The first reader, resuming from
    whatever point of its spin, finds the mark, counts the second reader,
    unblocks it and returns within 11 steps; the second reader then returns
    within 6 steps.  Both hold the lock with [reader_count] at 2. *)
Theorem readers_enter_as_a_group (db : handle) (s : segment) (t1 t2 t3 : gint) :
  dbcheck db = true -> freelist s = t1 -> t1 <> 0 -> t2 <> 0 -> t3 <> 0 ->
  next_cell (cell s t1) = t2 -> next_cell (cell s t2) = t3 ->
  t1 <> t2 -> t1 <> t3 -> t2 <> t3 ->
  tail s = 0 -> reader_count s = 0 -> refcount (cell s t1) = 1 ->
  exists s1 s2 s3 s4 s5,
    returns_in 15 (wg_start_write dbcheck db) s s1 t1 /\
    (forall m, (13 <= m)%nat ->
       fst (steps m (wg_start_read dbcheck db) s1) = s2 /\
       result (snd (steps m (wg_start_read dbcheck db) s1)) = None) /\
    (forall m, (14 <= m)%nat ->
       fst (steps m (wg_start_read dbcheck db) s2) = s3 /\
       result (snd (steps m (wg_start_read dbcheck db) s2)) = None) /\
    reader_count s3 = 0 /\
    returns_in 14 (wg_end_write dbcheck db t1) s3 s4 1 /\
    reader_count s4 = 1 /\ Z.land (state (cell s4 t3)) 1 = 1 /\
    (forall m, (13 <= m)%nat ->
       returns_in 11 (snd (steps m (wg_start_read dbcheck db) s1)) s4 s5 t2) /\
    (forall m, (14 <= m)%nat ->
       returns_in 6 (snd (steps m (wg_start_read dbcheck db) s2)) s5 s5 t3) /\
    reader_count s5 = 2 /\ tail s5 = t3 /\
    state (cell s5 t2) = LOCKQ_READ /\ state (cell s5 t3) = 0.
Proof.
  intros Hv Hf Ht1 Ht2 Ht3 Hn1 Hn2 H12 H13 H23 Htl Hrc Hr.
  destruct (@QueuedAlone.start_write_first _ dbcheck db s t1 Hv Hf Ht1 Htl Hrc)
    as (s1 & E1 & F1 & Tl1 & Nw1 & C1 & S1 & Nx1 & Rf1 & Fr1).
  rewrite Hn1 in F1. rewrite Hr in Rf1.
  change (gint_wrap (gint_wrap (1 + 2) + -1)) with 2 in Rf1.
  assert (Cw : Z.land (class (cell s1 t1)) LOCKQ_WRITE <> 0)
    by (rewrite C1; discriminate).
  destruct (@start_read_parks db s1 t2 t1 Hv F1 Ht2 Tl1 Ht1 H12 Cw)
    as (s2 & E2 & B2 & Tl2 & Nx2 & C2 & S2 & Nt2 & F2 & Rf2 & Fr2).
  assert (F2' : freelist s2 = t3).
  { rewrite F2. to_loads. rewrite Fr1 by loc_neq. exact Hn2. }
  assert (Cr : Z.land (class (cell s2 t2)) LOCKQ_WRITE = 0)
    by (rewrite C2; reflexivity).
  destruct (@start_read_parks_blocked db s2 t3 t2 Hv F2' Ht3 Tl2 Ht2 H23 Cr S2)
    as (s3 & E3 & B3 & Tl3 & Nx3 & Sp3 & C3 & S3 & Nt3 & F3 & Rf3 & Fr3).
  assert (Nx13 : next (cell s3 t1) = t2)
    by (to_loads; rewrite Fr3 by loc_neq; exact Nx2).
  assert (Rf13 : refcount (cell s3 t1) = 2).
  { to_loads. rewrite Fr3 by loc_neq. rewrite Fr2 by loc_neq. exact Rf1. }
  assert (Rc3 : reader_count s3 = 0).
  { to_loads. rewrite Fr3 by loc_neq. rewrite Fr2 by loc_neq.
    rewrite Fr1 by loc_neq. exact Hrc. }
  assert (C23 : class (cell s3 t2) = LOCKQ_READ)
    by (to_loads; rewrite Fr3 by loc_neq; exact C2).
  destruct (@QueuedAlone.end_write_linked _ dbcheck db s3 t1 t2 Hv Nx13 Ht2 Rf13)
    as (s4 & E4 & S4 & Rc4 & Tl4 & Nw4 & F4 & Nc4 & Rf4 & Fr4).
  rewrite C23 in Rc4. change (Z.land LOCKQ_READ LOCKQ_READ =? 0) with false in Rc4.
  cbv iota in Rc4. rewrite Rc3 in Rc4. change (gint_wrap (0 + 1)) with 1 in Rc4.
  rewrite Sp3 in S4.
  change (Z.land (Z.lor 1 LOCKQ_READ) (Z.lnot 1)) with LOCKQ_READ in S4.
  assert (Nx24 : next (cell s4 t2) = t3)
    by (to_loads; rewrite Fr4 by loc_neq; exact Nx3).
  assert (S34 : state (cell s4 t3) = 1)
    by (to_loads; rewrite Fr4 by loc_neq; exact S3).
  assert (Sr : Z.land (state (cell s4 t2)) LOCKQ_READ <> 0)
    by (rewrite S4; discriminate).
  destruct (@rd_lock_cont_passes_on s4 t2 t3 Sr Nx24 Ht3)
    as (s5 & E5 & Rc5 & S5 & Fr5).
  rewrite Rc4 in Rc5. change (gint_wrap (1 + 1)) with 2 in Rc5.
  rewrite S34 in S5. change (Z.land 1 (Z.lnot 1)) with 0 in S5.
  exists s1, s2, s3, s4, s5. split; [exact E1|]. split.
  { intros m Hm. destruct (@parked_waits _ _ _ _ _ _ _ _ E2 B2 Hm) as [A B].
    split; [exact A | exact (@spinning_result _ _ _ _ B)]. }
  split.
  { intros m Hm. destruct (@parked_waits _ _ _ _ _ _ _ _ E3 B3 Hm) as [A B].
    split; [exact A | exact (@spinning_result _ _ _ _ B)]. }
  split; [exact Rc3|]. split; [exact E4|]. split; [exact Rc4|].
  split; [rewrite S34; reflexivity|]. split.
  { intros m Hm. destruct (@parked_waits _ _ _ _ _ _ _ _ E2 B2 Hm) as [_ B].
    apply (@parked_resumes _ _ t2 (fun _ => rd_lock_cont t2) s4 s5 6 t2 B).
    - rewrite S4. reflexivity.
    - exact E5. }
  split.
  { intros m Hm. destruct (@parked_waits _ _ _ _ _ _ _ _ E3 B3 Hm) as [_ B].
    apply (@parked_resumes _ _ t3 (fun _ => rd_lock_cont t3) s5 s5 1 t3 B).
    - rewrite S5. reflexivity.
    - apply rd_lock_cont_alone. rewrite S5. reflexivity. }
  split; [exact Rc5|]. split.
  { to_loads. rewrite Fr5 by loc_neq. to_loads. rewrite Tl4. exact Tl3. }
  split; [|exact S5].
  to_loads. rewrite Fr5 by loc_neq. exact S4.
Qed.

End HandOver.

Lemma booted_chain :
  next_cell (cell Scenario.booted 1024) = 1152 /\
  next_cell (cell Scenario.booted 1152) = 1280.
Proof. vm_compute. repeat split. Qed.

Lemma write_hand_over_witness :
  Scenario.any_handle tt = true /\
  exists s1 s2 s3,
    returns_in 15 (wg_start_write Scenario.any_handle tt) Scenario.booted s1 1024 /\
    returns_in 14 (wg_end_write Scenario.any_handle tt 1024) s2 s3 1 /\
    returns_in 5 (snd (steps 20 (wg_start_write Scenario.any_handle tt) s1)) s3 s3 1152.
Proof.
  split; [reflexivity|].
  destruct QueuedAlone.booted_idle as (F & T & R & N & Rf & Nx).
  destruct booted_chain as (C1 & C2).
  destruct (@write_hand_over unit Scenario.any_handle tt Scenario.booted 1024 1152
              eq_refl F ltac:(discriminate) C1 ltac:(discriminate)
              ltac:(discriminate) T R Rf)
    as (s1 & s2 & s3 & H1 & _ & H2 & H3 & _).
  exists s1, s2, s3. split; [exact H1|]. split; [exact H2|]. apply H3. lia.
Defined.

Lemma write_to_read_hand_over_witness :
  Scenario.any_handle tt = true /\
  exists s1 s2 s3,
    returns_in 15 (wg_start_write Scenario.any_handle tt) Scenario.booted s1 1024 /\
    returns_in 14 (wg_end_write Scenario.any_handle tt 1024) s2 s3 1 /\
    returns_in 6 (snd (steps 20 (wg_start_read Scenario.any_handle tt) s1)) s3 s3 1152 /\
    reader_count s3 = 1.
Proof.
  split; [reflexivity|].
  destruct QueuedAlone.booted_idle as (F & T & R & N & Rf & Nx).
  destruct booted_chain as (C1 & C2).
  destruct (@write_to_read_hand_over unit Scenario.any_handle tt Scenario.booted
              1024 1152 eq_refl F ltac:(discriminate) C1 ltac:(discriminate)
              ltac:(discriminate) T R Rf)
    as (s1 & s2 & s3 & H1 & _ & _ & H2 & H3 & _ & H4 & _).
  exists s1, s2, s3. split; [exact H1|]. split; [exact H2|].
  split; [apply H3; lia | exact H4].
Defined.

Lemma read_to_write_hand_over_witness :
  Scenario.any_handle tt = true /\
  exists s1 s2 s3,
    returns_in 13 (wg_start_read Scenario.any_handle tt) Scenario.booted s1 1024 /\
    returns_in 15 (wg_end_read Scenario.any_handle tt 1024) s2 s3 1 /\
    returns_in 5 (snd (steps 20 (wg_start_write Scenario.any_handle tt) s1)) s3 s3 1152.
Proof.
  split; [reflexivity|].
  destruct QueuedAlone.booted_idle as (F & T & R & N & Rf & Nx).
  destruct booted_chain as (C1 & C2).
  destruct (@read_to_write_hand_over unit Scenario.any_handle tt Scenario.booted
              1024 1152 eq_refl F ltac:(discriminate) C1 ltac:(discriminate)
              ltac:(discriminate) T R Rf)
    as (s1 & s2 & s3 & H1 & _ & _ & H2 & H3 & _).
  exists s1, s2, s3. split; [exact H1|]. split; [exact H2|]. apply H3. lia.
Defined.

Lemma readers_enter_as_a_group_witness :
  Scenario.any_handle tt = true /\
  exists s1 s2 s4 s5,
    returns_in 11 (snd (steps 20 (wg_start_read Scenario.any_handle tt) s1)) s4 s5 1152 /\
    returns_in 6 (snd (steps 20 (wg_start_read Scenario.any_handle tt) s2)) s5 s5 1280 /\
    reader_count s5 = 2.
Proof.
  split; [reflexivity|].
  destruct QueuedAlone.booted_idle as (F & T & R & N & Rf & Nx).
  destruct booted_chain as (C1 & C2).
  destruct (@readers_enter_as_a_group unit Scenario.any_handle tt Scenario.booted
              1024 1152 1280 eq_refl F ltac:(discriminate) ltac:(discriminate)
              ltac:(discriminate) C1 C2 ltac:(discriminate) ltac:(discriminate)
              ltac:(discriminate) T R Rf)
    as (s1 & s2 & s3 & s4 & s5 & _ & _ & _ & _ & _ & _ & _ & H1 & H2 & H3 & _).
  exists s1, s2, s4, s5. split; [apply H1; lia|]. split; [apply H2; lia | exact H3].
Defined.

End QueuedHandOver.

(** * The queued lock: what every interleaving keeps *)

Module QueuedFrame.
Import Queued.

Lemma same_arena_refl (s : segment) : same_arena s s.
Proof. split; reflexivity. Qed.

Local Abbreviation ok := (keeps (fun _ : segment => True) same_arena).

Ltac queued_keeps_tac :=
  repeat (cbn [keeps bind fst snd];
    first
      [ exact Logic.I
      | apply same_arena_refl
      | solve [split; reflexivity]
      | match goal with
        | |- _ /\ _ => split
        | |- forall _, _ => intro
        | |- context [if ?c then _ else _] => destruct c
        end ]).

Lemma queued_keeps_free_lock (n : gint) : ok (free_lock n).
Proof. unfold free_lock. exec_norm. queued_keeps_tac. Qed.

Lemma queued_keeps_alloc_lock : ok alloc_lock.
Proof. unfold alloc_lock, free_lock. exec_norm. queued_keeps_tac. Qed.

Lemma queued_keeps_spin_wait (lock : gint) : ok (spin_wait lock).
Proof. unfold spin_wait. exec_norm. queued_keeps_tac. Qed.

Lemma queued_keeps_wait_next (lock : gint) : ok (wait_next lock).
Proof. unfold wait_next. exec_norm. queued_keeps_tac. Qed.

Section Frame.

Variable handle : Type.
Variable dbcheck : handle -> bool.
Variable db : handle.

Lemma queued_keeps_start_write : ok (wg_start_write dbcheck db).
Proof.
  unfold wg_start_write, alloc_lock, free_lock, spin_wait.
  destruct (dbcheck db); cbn [negb]; [|exact Logic.I]. exec_norm. queued_keeps_tac.
Qed.

Lemma queued_keeps_start_read : ok (wg_start_read dbcheck db).
Proof.
  unfold wg_start_read, alloc_lock, free_lock, spin_wait, wait_next.
  destruct (dbcheck db); cbn [negb]; [|exact Logic.I]. exec_norm. queued_keeps_tac.
Qed.

Lemma queued_keeps_end_write (t : gint) : ok (wg_end_write dbcheck db t).
Proof.
  unfold wg_end_write, free_lock, wait_next.
  destruct (dbcheck db); cbn [negb]; [|exact Logic.I]. exec_norm. queued_keeps_tac.
Qed.

Lemma queued_keeps_end_read (t : gint) : ok (wg_end_read dbcheck db t).
Proof.
  unfold wg_end_read, end_read_handoff, free_lock, wait_next.
  destruct (dbcheck db); cbn [negb]; [|exact Logic.I]. exec_norm. queued_keeps_tac.
Qed.

End Frame.

(** X18. The lock operations leave the arena where it is: whatever the
    handle, the segment, the number of callers and the interleaving of
    their calls, the header fields [storage] and [max_nodes] are as they
    were. *)
Theorem queued_ops_keep_arena (handle : Type) (dbcheck : handle -> bool)
    (db : handle) (s0 : segment) (n : nat) (sched : list event) :
  let c := execute (ops dbcheck db) sched (s0, repeat Idle n) in
  storage (fst c) = storage s0 /\ max_nodes (fst c) = max_nodes s0.
Proof.
  apply (@keeps_execute segment (fun _ => True) same_arena).
  - apply same_arena_refl.
  - intros s1 s2 s3 [A1 B1] [A2 B2]. split; congruence.
  - auto.
  - intros [|]; [apply queued_keeps_start_read | apply queued_keeps_start_write].
  - intros [|] t; [apply queued_keeps_end_read | apply queued_keeps_end_write].
  - exact Logic.I.
  - apply Forall_repeat_idle. exact Logic.I.
Qed.

End QueuedFrame.

(** * The cell pool: capacity, and reuse under concurrency *)

Module QueuedPool.
Import Queued QueuedFacts.

Lemma chain_empty (s : segment) (p : gint) (l : list gint) :
  chain s p l -> (p = 0 <-> l = []).
Proof.
  intros C. destruct C as [|p l Hp C].
  - split; reflexivity.
  - split; [intros E; now elim Hp | discriminate].
Qed.

(** X19. The capacity of the pool, one caller at a time: from a freshly
    initialised pool, after any run of [alloc_lock] and [free_lock] calls
    that frees only cells it holds, the cells held are distinct cells of
    the arena, and the freelist is empty, so that [alloc_lock] returns 0,
    exactly when all [max_nodes] cells are held. *)
Theorem pool_capacity (handle : Type) (dbcheck : handle -> bool) (pad : Z)
    (db : handle) (s0 sI : segment) (ops : list pool_op) (fuel : nat) :
  dbcheck db = true -> arena_ok pad s0 -> 0 < storage s0 ->
  returns (init_lock_queue dbcheck pad db) s0 sI 0 ->
  (6 <= fuel)%nat ->
  forall s' held, pool_run fuel ops sI [] = Pool s' held ->
    NoDup held /\ (forall n, In n held -> In n (arena_cells pad s0)) /\
    (freelist s' = 0 <-> length held = Z.to_nat (max_nodes s0)) /\
    exists s'' t,
      returns_in 6 alloc_lock s' s'' t /\
      (t = 0 <-> length held = Z.to_nat (max_nodes s0)) /\ ~ In t held.
Proof.
  intros Hv Ha Hs [n Hr] Hf s' held E.
  destruct (@init_lock_queue_returns handle dbcheck pad db s0 Hv Ha) as [n' Hr'].
  destruct (returns_in_det Hr Hr') as [-> _].
  assert (Hp : 0 < pad) by apply Ha.
  assert (I : pool_inv (arena_cells pad s0) (initialized pad s0) []).
  { destruct (initialized_chain Ha Hs) as [C Fa].
    exists (arena_cells pad s0). rewrite app_nil_r.
    destruct (initialized_fields Ha) as (_ & _ & _ & _ & _ & -> & _).
    repeat split; auto. now apply arena_cells_NoDup. }
  assert (Z0 : ~ In 0 (arena_cells pad s0)) by now apply arena_cells_nonzero.
  destruct (@pool_run_inv (arena_cells pad s0) fuel Hf Z0 ops _ _ I) as [_ Inv].
  pose proof (Inv _ _ E) as I'. destruct I' as (l & C & N & P & R1 & R2).
  assert (L : (length l + length held)%nat = Z.to_nat (max_nodes s0)).
  { rewrite <- length_app, (Permutation_length P). unfold arena_cells.
    now rewrite length_map, length_seq. }
  assert (F0 : freelist s' = 0 <-> length held = Z.to_nat (max_nodes s0)).
  { rewrite (chain_empty C). split.
    - intros ->. simpl in L. exact L.
    - intros H. destruct l; [reflexivity | simpl in L; lia]. }
  assert (H0 : ~ In 0 held).
  { intros H. apply Z0. eapply Permutation_in; [exact P|].
    apply in_or_app. now right. }
  split; [now apply NoDup_app_remove_l in N|].
  split.
  { intros x Hx. eapply Permutation_in; [exact P|]. apply in_or_app. now right. }
  split; [exact F0|].
  destruct (Z.eq_dec (freelist s') 0) as [E0|E0].
  - exists s', 0. split; [|split; [tauto | exact H0]].
    eapply returns_in_le; [now apply alloc_lock_empty | lia].
  - destruct (alloc_lock_takes s' E0) as (s'' & Hr2 & _).
    exists s'', (freelist s'). split; [exact Hr2|]. split; [tauto|].
    destruct C as [|p l Hp' C]; [now elim E0|].
    intros Hin. simpl in N. inversion N as [|? ? Hn _]; subst.
    apply Hn. apply in_or_app. now right.
Qed.

Lemma pool_capacity_witness :
  Scenario.any_handle tt = true /\ arena_ok 128 (Scenario.blank 4 0 0 0) /\
  forall s' held,
    pool_run 6 [Alloc; Alloc; Free 1024; Alloc]
      (initialized 128 (Scenario.blank 4 0 0 0)) [] = Pool s' held ->
    NoDup held /\ (forall n, In n held -> In n (arena_cells 128 (Scenario.blank 4 0 0 0))).
Proof.
  assert (A : arena_ok 128 (Scenario.blank 4 0 0 0)) by (apply demo_arena_ok; lia).
  split; [reflexivity | split; [exact A |]].
  intros s' held E.
  assert (R : returns (init_lock_queue Scenario.any_handle 128 tt)
                (Scenario.blank 4 0 0 0) (initialized 128 (Scenario.blank 4 0 0 0)) 0)
    by (apply init_lock_queue_returns; [reflexivity | exact A]).
  destruct (@pool_capacity unit Scenario.any_handle 128 tt
              (Scenario.blank 4 0 0 0) (initialized 128 (Scenario.blank 4 0 0 0))
              [Alloc; Alloc; Free 1024; Alloc] 6 eq_refl A eq_refl R
              (Nat.le_refl 6) s' held E)
    as (N & H & _).
  split; assumption.
Defined.

End QueuedPool.

(** X20. The cell pool is not safe under concurrency.  On the freshly
    initialised queue of four cells there is an interleaving of
    [wg_start_read] and [wg_end_read] calls after which the freelist has
    handed cell 1152 to caller 3 while caller 2 still holds it as its
    token: [alloc_lock] reads [next_cell] of the head before its
    compare-and-swap, and the head can be taken, released and pushed back
    in between. *)
Theorem pool_hands_out_cell_twice :
  nth_error (snd Scenario.after_cell_reuse) 2 = Some (Holding Reader 1152) /\
  nth_error (snd Scenario.after_cell_reuse) 3 = Some (Holding Reader 1152) /\
  nth_error (snd Scenario.after_cell_reuse) 0 = Some (Holding Reader 1024).
Proof. vm_compute. repeat split. Qed.


(** * Invalid handles, and the interleaving that breaks the queued lock *)

Section InvalidHandle.

Variable handle : Type.
Variable dbcheck : handle -> bool.
Variable SYN_VAR_PADDING : Z.

(** C9 (amended). On a handle that fails the check, each of the four
    acquire and release operations, of either lock, returns 0 and
    [init_lock_queue] returns -1, all before any access to the segment. *)
Theorem invalid_handle_touches_nothing (db : handle) (lock : gint)
    (s : Simple.segment) (q : Queued.segment) :
  dbcheck db = false ->
  returns_in 0 (Simple.wg_start_read dbcheck db) s s 0 /\
  returns_in 0 (Simple.wg_end_read dbcheck db lock) s s 0 /\
  returns_in 0 (Simple.wg_start_write dbcheck db) s s 0 /\
  returns_in 0 (Simple.wg_end_write dbcheck db lock) s s 0 /\
  returns_in 0 (Queued.wg_start_read dbcheck db) q q 0 /\
  returns_in 0 (Queued.wg_end_read dbcheck db lock) q q 0 /\
  returns_in 0 (Queued.wg_start_write dbcheck db) q q 0 /\
  returns_in 0 (Queued.wg_end_write dbcheck db lock) q q 0 /\
  returns_in 0 (Queued.init_lock_queue dbcheck SYN_VAR_PADDING db) q q (-1).
Proof.
  intros H.
  unfold Simple.wg_start_read, Simple.wg_end_read, Simple.wg_start_write,
    Simple.wg_end_write, Queued.wg_start_read, Queued.wg_end_read,
    Queued.wg_start_write, Queued.wg_end_write, Queued.init_lock_queue.
  rewrite H. cbn [negb]. repeat split; apply returns_in_Ret.
Qed.

End InvalidHandle.

Import Scenario.

Lemma invalid_handle_touches_nothing_witness :
  no_handle tt = false /\
  returns_in 0 (Simple.wg_start_read no_handle tt) fresh_segment
    fresh_segment 0 /\
  returns_in 0 (Queued.init_lock_queue no_handle 128 tt) booted booted (-1).
Proof.
  split; [reflexivity|].
  pose proof (@invalid_handle_touches_nothing unit no_handle 128 tt 0
                fresh_segment booted eq_refl) as H.
  split; [apply H | apply H].
Defined.

(** C5 as stated fails: the value the reader fetches, -2, has the writer
    flag clear, yet it does not return at once.  Its addition brings the
    sync word to 0, a writer takes the lock, and the reader's test, made
    on a new read of the sync word, finds the flag set: the reader waits
    for as long as the writer holds. *)
Lemma start_read_tests_a_new_read :
  Z.land (Simple.sync_word (with_sync_word (-2))) Simple.WAFLAG = 0 /\
  (exists s1 s2,
     steps 2 (Simple.wg_start_read any_handle tt) (with_sync_word (-2))
     = (s1, Simple.rd_wait 64) /\
     Simple.sync_word s1 = 0 /\
     returns_in 2 (Simple.wg_start_write any_handle tt) s1 s2 1 /\
     Simple.sync_word s2 = Simple.WAFLAG /\
     never_returns (Simple.rd_wait 64) s2) /\
  count_holding Writer (snd after_reader_overtaken) = 1%nat /\
  count_holding Reader (snd after_reader_overtaken) = 0%nat.
Proof.
  split; [reflexivity|]. split.
  - eexists. eexists. split; [reflexivity|]. split; [reflexivity|]. split; [|split].
    + unfold Simple.wg_start_write. cbn [any_handle negb bind Simple.read_global_lock].
      do 2 exec_step. apply returns_in_Ret.
    + reflexivity.
    + apply SimpleReader.rd_wait_locked_out. discriminate.
  - split; vm_compute; reflexivity.
Qed.

(** C9 as stated fails for [init_lock_queue]: on a rejected handle it
    returns -1, not 0. *)
Lemma invalid_handle_init_returns_minus_one :
  no_handle tt = false /\
  run 0 (Queued.init_lock_queue no_handle 128 tt) booted = Some (booted, -1) /\
  -1 <> 0.
Proof. split; [reflexivity | split; [reflexivity | discriminate]]. Qed.

(** C2 as stated fails: [init_lock_queue] does not write [tail],
    [next_writer] or [reader_count]; nonzero values stay. *)
Lemma init_lock_queue_keeps_queue_header :
  option_map
    (fun r => (Queued.tail (fst r), Queued.next_writer (fst r),
               Queued.reader_count (fst r), snd r))
    (run 30 (Queued.init_lock_queue any_handle 128 tt) (blank 4 7 8 9))
  = Some (7, 8, 9, 0).
Proof. vm_compute. reflexivity. Qed.

Lemma reader_and_writer_not_exclusive (Sh : Type) (pool : list (status Sh)) :
  count_holding Reader pool = 1%nat -> count_holding Writer pool = 1%nat ->
  ~ mutual_exclusion pool.
Proof.
  intros R W [_ H]. rewrite R, W in H. specialize (H (Nat.lt_0_succ 0)).
  discriminate.
Qed.

(** C1 fails for the queued lock: after [stale_handoff] caller 1 is in a
    read critical section and caller 3 in a write critical section. *)
Theorem queued_stale_handoff_breaks_exclusion :
  nth_error (snd after_stale_handoff) 1 = Some (Holding Reader 1152) /\
  nth_error (snd after_stale_handoff) 3 = Some (Holding Writer 1280) /\
  Queued.reader_count (fst after_stale_handoff) = 1 /\
  ~ mutual_exclusion (snd after_stale_handoff).
Proof.
  split; [vm_compute; reflexivity|]. split; [vm_compute; reflexivity|].
  split; [vm_compute; reflexivity|].
  apply reader_and_writer_not_exclusive; vm_compute; reflexivity.
Qed.
